(** * minute: UMI-aware deduplication on first mates ([minute/se_dedup.py])

    A shallow embedding of the duplicate-detection engine: the alignment
    summary, the two-pass position index, the per-bucket duplicate
    resolution and the summary record, followed by the properties of each.

    Conventions.
    - Python [int] is [Z]; [len] results are injected with [Z.of_nat].
    - Python [str] (query names, sequences; ASCII in a BAM file) is
      [string]; [bytes] is [list byte]; [str.encode] is
      [list_byte_of_string].
    - A [dict]/[defaultdict] is an insertion-ordered association list,
      because iteration order is observable in [_find_duplicate_ids].
    - A Python [set] of names is a [gset string].
    - A call that may raise returns an [outcome]. *)

From Stdlib Require Import ZArith Strings.String Strings.Byte Strings.Ascii QArith_base.
From stdpp Require Import base list strings gmap.

Close Scope Q_scope.
Open Scope Z_scope.

(** ** Exceptions *)

(** [ZeroDivisionError] and [IndexError] are the built-in exceptions the
    code below can raise.  [AssertionError] and [ValueError] are raised
    by the clusterer of [umi_tools], which the code calls, and pass
    through it.  [InputError], [ConfigError] and [EmptyInputError] are
    the classes of the documented error taxonomy; no code path
    constructs them. *)
Inductive exn : Type :=
  | ZeroDivisionError
  | IndexError
  | AssertionError
  | ValueError
  | InputError
  | ConfigError
  | EmptyInputError.

Inductive outcome (A : Type) : Type :=
  | Returned (a : A)
  | Raised (e : exn).
Arguments Returned {A} a.
Arguments Raised {A} e.

#[global] Instance outcome_ret : MRet outcome := fun A a => Returned a.

#[global] Instance outcome_bind : MBind outcome := fun A B k o =>
  match o with
  | Returned a => k a
  | Raised e => Raised e
  end.

(** ** Python sequence primitives *)

Module Py.

(** First [n] characters, and the rest. *)
Fixpoint str_take (n : nat) (s : string) : string :=
  match n, s with
  | S n', String c s' => String c (str_take n' s')
  | _, _ => EmptyString
  end.

Fixpoint str_drop (n : nat) (s : string) : string :=
  match n, s with
  | S n', String _ s' => str_drop n' s'
  | _, _ => s
  end.

(** How a slice bound [i] is normalised against a sequence of length
    [len]: a negative bound counts from the end, and every bound is
    clipped to [0 .. len]. *)
Definition slice_bound (len i : Z) : nat :=
  Z.to_nat (if i <? 0 then Z.max 0 (len + i) else Z.min i len).

Definition len (s : string) : Z := Z.of_nat (String.length s).

(** [s[:stop]] *)
Definition slice_to (s : string) (stop : Z) : string :=
  str_take (slice_bound (len s) stop) s.

(** [s[start:]] *)
Definition slice_from (s : string) (start : Z) : string :=
  str_drop (slice_bound (len s) start) s.

(** [str.encode] on ASCII text. *)
Definition encode (s : string) : list byte := list_byte_of_string s.

(** [needle in hay] on two [bytes] objects: contiguous containment. *)
Fixpoint starts_with (needle hay : list byte) : bool :=
  match needle, hay with
  | [], _ => true
  | _ :: _, [] => false
  | a :: needle', b :: hay' => Byte.eqb a b && starts_with needle' hay'
  end.

Fixpoint bytes_in (needle hay : list byte) : bool :=
  starts_with needle hay ||
  match hay with
  | [] => false
  | _ :: hay' => bytes_in needle hay'
  end.

(** [sum] of a list of ints. *)
Definition sum (l : list Z) : Z := foldr Z.add 0 l.

End Py.

#[global] Instance byte_eq_dec : EqDecision byte := Byte.byte_eq_dec.

(** ** Insertion-ordered dictionaries *)

Section dict.
Context {K V : Type} `{EqDecision K}.

(** [d.get(k)] *)
Fixpoint dict_get (k : K) (d : list (K * V)) : option V :=
  match d with
  | [] => None
  | (k', v) :: d' => if decide (k = k') then Some v else dict_get k d'
  end.

(** [d[k] = v]: an existing key keeps its place, a new one goes last. *)
Fixpoint dict_set (k : K) (v : V) (d : list (K * V)) : list (K * V) :=
  match d with
  | [] => [(k, v)]
  | (k', v') :: d' =>
      if decide (k = k') then (k, v) :: d' else (k', v') :: dict_set k v d'
  end.

(** [d[k]] on a [defaultdict]: a missing key is inserted with the
    default value before it is returned. *)
Definition defaultdict_getitem (dflt : V) (k : K) (d : list (K * V))
  : V * list (K * V) :=
  match dict_get k d with
  | Some v => (v, d)
  | None => (dflt, dict_set k dflt d)
  end.

Definition keys (d : list (K * V)) : list K := d.*1.
Definition values (d : list (K * V)) : list V := d.*2.

End dict.

(** ** [count_sequences] *)

(** [counts[s] += 1] on a [defaultdict(int)]. *)
Definition count_step (counts : list (list byte * Z)) (s : list byte)
  : list (list byte * Z) :=
  let '(c, counts) := defaultdict_getitem 0 s counts in
  dict_set s (c + 1) counts.

Definition count_sequences (seq_list : list (list byte)) : list (list byte * Z) :=
  fold_left count_step seq_list [].

(** ** Alignment records *)

Module pysam.
(** The fields of a [pysam.AlignedSegment] that the engine reads, for a
    record that carries them all.  A record stored without its sequence
    or its qualities has [None] there, on which [get_stub] and
    [get_score] raise a [TypeError]; such records are outside this
    type. *)
Record AlignedSegment : Type := {
  is_unmapped : bool;
  is_read1 : bool;
  is_read2 : bool;
  query_name : string;
  reference_name : string;
  reference_start : Z;
  next_reference_start : Z;
  mapping_quality : Z;
  query_sequence : string;
  query_alignment_qualities : list Z
}.
End pysam.

(** The alignment file is read twice; it is modelled by the list of its
    records in file order. *)
Definition get_mapped_segments (bam : list pysam.AlignedSegment)
  : list pysam.AlignedSegment :=
  filter (fun read => pysam.is_unmapped read = false) bam.

Inductive AlignmentType : Type := SINGLE | MULTI.

#[global] Instance AlignmentType_eq_dec : EqDecision AlignmentType.
Proof. solve_decision. Defined.

Record AlignedSegmentSummary : Type := {
  name : string;
  umi : list byte;
  mate : Z;
  reference : string;
  start : Z;
  mate_start : Z;
  mapping_quality : Z;
  stub : list byte;
  score : Z;
  type : AlignmentType
}.

Definition get_type (read : pysam.AlignedSegment) (multimap_cutoff : Z)
  : AlignmentType :=
  if pysam.mapping_quality read <? multimap_cutoff then MULTI else SINGLE.

Definition get_name (read : pysam.AlignedSegment) (umi_length : Z) : string :=
  Py.slice_to (pysam.query_name read) (- umi_length - 1).

Definition get_umi (read : pysam.AlignedSegment) (umi_length : Z) : list byte :=
  Py.encode (Py.slice_from (pysam.query_name read) (- umi_length)).

Definition get_mate (read : pysam.AlignedSegment) : Z :=
  if pysam.is_read1 read then 1
  else if pysam.is_read2 read then 2
  else -1.

Definition get_stub (read : pysam.AlignedSegment) (multimap_cutoff length : Z)
  : list byte :=
  if pysam.mapping_quality read <? multimap_cutoff
  then Py.encode (Py.slice_to (pysam.query_sequence read) length)
  else [].

Definition get_score (read : pysam.AlignedSegment) : Z :=
  Py.sum (pysam.query_alignment_qualities read).

Definition AlignedSegmentSummary_init (read_info : pysam.AlignedSegment)
    (umi_length multimap_cutoff stub_length : Z) : AlignedSegmentSummary :=
  {| name := get_name read_info umi_length;
     umi := get_umi read_info umi_length;
     mate := get_mate read_info;
     reference := pysam.reference_name read_info;
     start := pysam.reference_start read_info;
     mate_start := pysam.next_reference_start read_info;
     mapping_quality := pysam.mapping_quality read_info;
     stub := get_stub read_info multimap_cutoff stub_length;
     score := get_score read_info;
     type := get_type read_info multimap_cutoff |}.

(** ** [AlignmentIndex] *)

(** reference name -> start position -> reads, both levels in insertion
    order. *)
Abbreviation position_index :=
  (list (string * list (Z * list AlignedSegmentSummary))).

(** [index[refname][pos].append(aln)] on a
    [defaultdict(lambda: defaultdict(list))]. *)
Definition index_append (refname : string) (pos : Z)
    (aln : AlignedSegmentSummary) (index : position_index) : position_index :=
  let '(contig, index) := defaultdict_getitem [] refname index in
  let '(bucket, contig) := defaultdict_getitem [] pos contig in
  dict_set refname (dict_set pos (bucket ++ [aln]) contig) index.

(** The reads stored at one locus, and all reads of an index in iteration
    order. *)
Definition bucket (index : position_index) (refname : string) (pos : Z)
  : list AlignedSegmentSummary :=
  default [] (dict_get pos (default [] (dict_get refname index))).

Definition index_reads (index : position_index) : list AlignedSegmentSummary :=
  concat ((fun contig => concat (values contig)) <$> values index).

(** [AlignmentIndex.count_loci]: the number of start positions, summed
    over the contigs. *)
Definition count_loci (alignment_index : position_index) : Z :=
  fold_left (fun n contig => n + Z.of_nat (length contig))
            (values alignment_index) 0.

(** The (reference, start) keys of an index, in iteration order. *)
Definition loci (index : position_index) : list (string * Z) :=
  concat ((fun entry => (fun pos => (entry.1, pos)) <$> keys entry.2) <$> index).

Record AlignmentIndex : Type := {
  r1_reads_by_position : position_index;
  r2_only_reads_by_position : position_index;
  multimappers : list AlignedSegmentSummary;
  r1_counts : Z;
  r2_counts : Z;
  total : Z
}.

Section AlignmentIndex.
Variables umi_length multimap_cutoff stub_length : Z.

Definition summarize (read : pysam.AlignedSegment) : AlignedSegmentSummary :=
  AlignedSegmentSummary_init read umi_length multimap_cutoff stub_length.

(** The state a pass works on: the position index it fills, the
    multimapper pool, and the names it has recorded so far. *)
Definition pass_state : Type :=
  position_index * list AlignedSegmentSummary * list string.

Definition first_mates_body (st : pass_state) (read : pysam.AlignedSegment)
  : pass_state :=
  let '(r1_reads_by_position, multimappers, seen) := st in
  let aln := summarize read in
  if mate aln =? 1 then
    match type aln with
    | SINGLE =>
        let refname := pysam.reference_name read in
        let pos := pysam.reference_start read in
        (index_append refname pos aln r1_reads_by_position,
         multimappers, seen ++ [name aln])
    | MULTI =>
        (r1_reads_by_position, multimappers ++ [aln], seen ++ [name aln])
    end
  else st.

Definition _index_first_mates (r1_reads_by_position : position_index)
    (multimappers : list AlignedSegmentSummary)
    (bam : list pysam.AlignedSegment)
  : position_index * list AlignedSegmentSummary * gset string :=
  let '(r1, multi, seen) :=
    fold_left first_mates_body (get_mapped_segments bam)
              (r1_reads_by_position, multimappers, []) in
  (r1, multi, list_to_set seen).

Definition second_mates_body (seen : gset string) (st : pass_state)
    (read : pysam.AlignedSegment) : pass_state :=
  let '(r2_only_reads_by_position, multimappers, second_ids) := st in
  let aln := summarize read in
  if (mate aln =? 2) && bool_decide (name aln ∉ seen) then
    match type aln with
    | SINGLE =>
        let refname := pysam.reference_name read in
        let pos := pysam.reference_start read in
        (index_append refname pos aln r2_only_reads_by_position,
         multimappers, second_ids ++ [name aln])
    | MULTI =>
        (r2_only_reads_by_position, multimappers ++ [aln],
         second_ids ++ [name aln])
    end
  else st.

Definition _index_second_mates (r2_only_reads_by_position : position_index)
    (multimappers : list AlignedSegmentSummary)
    (bam : list pysam.AlignedSegment) (seen : gset string)
  : position_index * list AlignedSegmentSummary * gset string :=
  let '(r2, multi, second_ids) :=
    fold_left (second_mates_body seen) (get_mapped_segments bam)
              (r2_only_reads_by_position, multimappers, []) in
  (r2, multi, list_to_set second_ids).

(** Both passes route the records they select in the same way; [route]
    is that common shape, with the selection as a parameter. *)
Definition route (sel : pysam.AlignedSegment -> bool) (st : pass_state)
    (read : pysam.AlignedSegment) : pass_state :=
  let '(index, pool, ids) := st in
  let aln := summarize read in
  if sel read then
    match type aln with
    | SINGLE =>
        (index_append (pysam.reference_name read) (pysam.reference_start read)
                      aln index,
         pool, ids ++ [name aln])
    | MULTI => (index, pool ++ [aln], ids ++ [name aln])
    end
  else st.

Definition first_sel (read : pysam.AlignedSegment) : bool :=
  mate (summarize read) =? 1.

Definition second_sel (seen : gset string) (read : pysam.AlignedSegment) : bool :=
  (mate (summarize read) =? 2) && bool_decide (name (summarize read) ∉ seen).

(** The names recorded by the first pass of the constructor. *)
Definition seen_1st (bam : list pysam.AlignedSegment) : gset string :=
  (_index_first_mates [] [] bam).2.

Definition AlignmentIndex_init (bam : list pysam.AlignedSegment)
  : AlignmentIndex :=
  let '(r1, multi, seen_1st) := _index_first_mates [] [] bam in
  let '(r2, multi, seen_2nd) := _index_second_mates [] multi bam seen_1st in
  let r1_counts := Z.of_nat (size seen_1st) in
  let r2_counts := Z.of_nat (size seen_2nd) in
  {| r1_reads_by_position := r1;
     r2_only_reads_by_position := r2;
     multimappers := multi;
     r1_counts := r1_counts;
     r2_counts := r2_counts;
     total := r1_counts + r2_counts |}.

End AlignmentIndex.

(** ** [DedupSummary] *)

Module DedupSummary.
Record t : Type := {
  total : Z;
  total_dups : Z;
  r1_dups : Z;
  r2_only_dups : Z;
  multi_dups : Z
}.

(** [total_dups / total] is true division; its float result is kept as
    the exact quotient.  A zero divisor raises. *)
Definition fraction_duplication (self : t) : outcome Q :=
  if total self =? 0 then Raised ZeroDivisionError
  else Returned (Qdiv (inject_Z (total_dups self)) (inject_Z (total self))).
End DedupSummary.

(** ** [FirstMateDeduplicator] *)

Abbreviation umi_counts := (list (list byte * Z)).
Abbreviation umi_clusters := (list (list (list byte))).

Section FirstMateDeduplicator.
(** [umi_tools.UMIClusterer(cluster_method="directional")], called with
    the counts and the threshold.  The object is made anew for every
    call, so no state is carried from one call to the next; the call
    itself can raise. *)
Variable UMIClusterer : umi_counts -> Z -> outcome umi_clusters.
Variables umi_length multimap_cutoff stub_length : Z.
(** [seq_mismatches] is stored by the constructor and never read. *)
Variable umi_mismatches : Z.

Definition cluster_sequences (seq_list : list (list byte)) (mismatches : Z)
  : outcome umi_clusters :=
  if 0 <? Z.of_nat (length seq_list)
  then UMIClusterer (count_sequences seq_list) mismatches
  else Returned [].

(** [getattr(r, attribute) in allowed]; the only caller passes the
    attribute ["umi"] and a [bytes] object for [allowed]. *)
Definition filter_by_attribute (reads : list AlignedSegmentSummary)
    (allowed : list byte) (attribute : AlignedSegmentSummary -> list byte)
  : list AlignedSegmentSummary :=
  filter (fun r => Py.bytes_in (attribute r) allowed) reads.

(** The body of the loop of [pick_best]. *)
Definition better (best r : AlignedSegmentSummary) : AlignedSegmentSummary :=
  if score best <? score r then r else best.

Definition pick_best (readlist : list AlignedSegmentSummary)
  : outcome AlignedSegmentSummary :=
  match readlist with
  | [] => Raised IndexError
  | r0 :: rest => Returned (fold_left better rest r0)
  end.

(** The body of the loop over the clusters: the read kept for [c]. *)
Definition unique_read (read_list : list AlignedSegmentSummary)
    (c : list (list byte)) : outcome AlignedSegmentSummary :=
  match c with
  | [] => Raised IndexError
  | c0 :: _ =>
      let unique_candidates := filter_by_attribute read_list c0 umi in
      if 1 <? Z.of_nat (length unique_candidates)
      then pick_best unique_candidates
      else match unique_candidates with
           | [] => Raised IndexError
           | r :: _ => Returned r
           end
  end.

Definition mark_duplicates_by_umi (read_list : list AlignedSegmentSummary)
    (umi_mismatches : Z) : outcome (list string) :=
  let seqs := umi <$> read_list in
  clusters ← cluster_sequences seqs umi_mismatches;
  unique_reads ← mapM (unique_read read_list) clusters;
  let unique_reads_set : gset string := list_to_set (name <$> unique_reads) in
  mret (name <$> filter (fun r => name r ∉ unique_reads_set) read_list).

(** The inner loop of [_find_duplicate_ids], over the items of one
    contig. *)
Fixpoint find_in_contig (items : list (Z * list AlignedSegmentSummary))
    (duplicates : list string) : outcome (list string) :=
  match items with
  | [] => Returned duplicates
  | (i, dup_candidates) :: items' =>
      if 1 <? Z.of_nat (length dup_candidates) then
        dup_ids ← mark_duplicates_by_umi dup_candidates umi_mismatches;
        find_in_contig items' (duplicates ++ dup_ids)
      else find_in_contig items' duplicates
  end.

(** The outer loop, over the keys the index had when the loop started.
    [aln_index[ref]] is a [defaultdict] access, so the index is threaded
    through and handed back with the result. *)
Fixpoint find_in_refs (refs : list string) (duplicates : list string)
    (aln_index : position_index) : outcome (list string) * position_index :=
  match refs with
  | [] => (Returned duplicates, aln_index)
  | ref :: refs' =>
      let '(contig, aln_index) := defaultdict_getitem [] ref aln_index in
      match find_in_contig contig duplicates with
      | Returned duplicates => find_in_refs refs' duplicates aln_index
      | Raised e => (Raised e, aln_index)
      end
  end.

Definition _find_duplicate_ids (aln_index : position_index)
  : outcome (list string) * position_index :=
  find_in_refs (keys aln_index) [] aln_index.

Definition deduplicate (src_bam : list pysam.AlignedSegment)
  : outcome DedupSummary.t :=
  let index :=
    AlignmentIndex_init umi_length multimap_cutoff stub_length src_bam in
  r1_dups ← fst (_find_duplicate_ids (r1_reads_by_position index));
  r2_dups ← fst (_find_duplicate_ids (r2_only_reads_by_position index));
  let all_dups : gset string := list_to_set (r1_dups ++ r2_dups) in
  mret {| DedupSummary.total := total index;
          DedupSummary.total_dups := Z.of_nat (size all_dups);
          DedupSummary.r1_dups := Z.of_nat (length r1_dups);
          DedupSummary.r2_only_dups := Z.of_nat (length r2_dups);
          DedupSummary.multi_dups := 0 |}.

End FirstMateDeduplicator.

(** A cluster the loop of [mark_duplicates_by_umi] cannot index: it is
    empty, or no read carries a UMI contained in its first element. *)
Definition unusable (read_list : list AlignedSegmentSummary)
    (c : list (list byte)) : Prop :=
  match c with
  | [] => True
  | c0 :: _ => filter_by_attribute read_list c0 umi = []
  end.

(** What the engine relies on when it indexes a cluster with [c[0]]:
    every cluster the clusterer returns has a first element, and that
    element is one of the UMIs it was given.  Nothing is said of a call
    that raises. *)
Definition well_headed (clusterer : umi_counts -> Z -> outcome umi_clusters)
  : Prop :=
  forall counts threshold clusters c,
    clusterer counts threshold = Returned clusters ->
    c ∈ clusters ->
    exists c0 rest, c = c0 :: rest /\ c0 ∈ keys counts.

(** [mark_duplicates_by_umi] gets through a bucket: the clusterer
    returns, and every cluster it returns can be indexed. *)
Definition resolvable (clusterer : umi_counts -> Z -> outcome umi_clusters)
    (mismatches : Z) (read_list : list AlignedSegmentSummary) : Prop :=
  exists clusters,
    cluster_sequences clusterer (umi <$> read_list) mismatches
      = Returned clusters /\
    forall c, c ∈ clusters -> ~ unusable read_list c.

(** The items of all contigs of an index, in the order of the scan of
    [_find_duplicate_ids]. *)
Definition index_items (index : position_index)
  : list (Z * list AlignedSegmentSummary) :=
  concat (values index).

(** The locus of an item, read off its first read. *)
Definition item_locus (item : Z * list AlignedSegmentSummary) : string * Z :=
  (match item.2 with x :: _ => reference x | [] => EmptyString end, item.1).

(** The buckets that [deduplicate] hands to [mark_duplicates_by_umi]:
    those of more than one read, in either position index. *)
Definition scanned (index : AlignmentIndex)
    (reads : list AlignedSegmentSummary) : Prop :=
  (1 < length reads)%nat /\
  exists refname pos,
    reads = bucket (r1_reads_by_position index) refname pos \/
    reads = bucket (r2_only_reads_by_position index) refname pos.

(** ** The directional clusterer *)

Module Directional.

(** Number of positions at which two sequences differ. *)
Fixpoint hamming (a b : list byte) : Z :=
  match a, b with
  | x :: a', y :: b' => (if Byte.eqb x y then 0 else 1) + hamming a' b'
  | _, _ => 0
  end.

Section clusterer.
Variable counts : umi_counts.
Variable threshold : Z.

Definition count (u : list byte) : Z := default 0 (dict_get u counts).

(** An edge connects [a] to [b] if [hamming(a,b) <= t] and
    [count(a) >= 2*count(b) - 1]. *)
Definition edge (a b : list byte) : bool :=
  (hamming a b <=? threshold) && (2 * count b - 1 <=? count a).

(** The unclustered UMI with the highest count; the earliest one
    among equals. *)
Fixpoint highest (remaining : list (list byte)) : option (list byte) :=
  match remaining with
  | [] => None
  | u :: rest =>
      match highest rest with
      | Some v => if count u <? count v then Some v else Some u
      | None => Some u
      end
  end.

(** One round of absorption: the unclustered UMIs that an edge
    reaches from the cluster join it. *)
Definition grow (remaining cluster : list (list byte)) : list (list byte) :=
  cluster ++
  filter (fun b => (b ∉ cluster) /\ existsb (fun a => edge a b) cluster)
         remaining.

Fixpoint absorb (rounds : nat) (remaining cluster : list (list byte))
  : list (list byte) :=
  match rounds with
  | O => cluster
  | S rounds' => absorb rounds' remaining (grow remaining cluster)
  end.

(** Repeat until every UMI is assigned.  [steps] bounds the number of
    clusters and is the number of UMIs at the call. *)
Fixpoint assign (steps : nat) (remaining : list (list byte)) : umi_clusters :=
  match steps with
  | O => []
  | S steps' =>
      match highest remaining with
      | None => []
      | Some seed =>
          let cluster := absorb (length remaining) remaining [seed] in
          cluster ::
          assign steps' (filter (fun u => u ∉ cluster) remaining)
      end
  end.
End clusterer.

(** Modelled from the spec: the UMI clusterer itself, which the engine
    imports from [umi_tools] and whose code is not part of the sources.
    Section 4.3 of the specification: an edge connects [a] to [b] if
    their Hamming distance is at most the threshold and
    [count(a) >= 2*count(b) - 1]; from the remaining unclustered UMI
    with the highest count, all UMIs reachable via such edges are
    absorbed into one cluster; this repeats until every UMI is
    assigned; a cluster lists its defining UMI first. *)
Definition UMIClusterer (counts : umi_counts) (threshold : Z) : umi_clusters :=
  assign counts threshold (length counts) (keys counts).

(** The call [clusterer(counts, threshold)] as the engine meets it.
    Before it clusters, [umi_tools] takes the least and the greatest
    length of the UMIs, which fails when there is none, and asserts that
    the two are equal; its code is not part of the sources.  The
    clustering is the one above. *)
Definition call (counts : umi_counts) (threshold : Z) : outcome umi_clusters :=
  match keys counts with
  | [] => Raised ValueError
  | u :: umis =>
      if forallb (fun v => Nat.eqb (length v) (length u)) umis
      then Returned (UMIClusterer counts threshold)
      else Raised AssertionError
  end.

End Directional.

(** ** A position index whose keys agree with its reads *)

(** No reference and no start position is listed twice, no bucket is
    empty, and every read is stored under its own reference and start. *)
Definition well_keyed (index : position_index) : Prop :=
  NoDup (keys index) /\
  forall refname contig,
    (refname, contig) ∈ index ->
    contig <> [] /\
    NoDup (keys contig) /\
    forall pos reads,
      (pos, reads) ∈ contig ->
      reads <> [] /\
      forall x, x ∈ reads -> reference x = refname /\ start x = pos.

(** ** Cluster coverage, as the specification words it *)

(** The clusters cover [umis] exactly: every member is one of [umis],
    every one of [umis] is a member, no UMI is listed twice (neither in
    one cluster nor in two), and no cluster is empty. *)
Definition partitions (clusters : umi_clusters) (umis : list (list byte)) : Prop :=
  (forall u, u ∈ concat clusters <-> u ∈ umis) /\
  NoDup (concat clusters) /\
  (forall c, c ∈ clusters -> c <> []).

(** ** Mate exclusivity, as the specification words it *)

(** A pool holds fragment [n] under mate role [m]. *)
Definition holds (pool : list AlignedSegmentSummary) (n : string) (m : Z) : Prop :=
  exists a, a ∈ pool /\ name a = n /\ mate a = m.

(** For a given mate role, a fragment name is in at most one of the two
    position indexes and the multimapper pool. *)
Definition mate_exclusive (index : AlignmentIndex) : Prop :=
  forall n m,
    let in_r1 := holds (index_reads (r1_reads_by_position index)) n m in
    let in_r2 := holds (index_reads (r2_only_reads_by_position index)) n m in
    let in_multi := holds (multimappers index) n m in
    ~ (in_r1 /\ in_r2) /\ ~ (in_r1 /\ in_multi) /\ ~ (in_r2 /\ in_multi).

(** The key under which two records are the same mate of the same
    fragment. *)
Definition fragment_mate (umi_length : Z) (read : pysam.AlignedSegment)
  : string * Z :=
  (get_name read umi_length, get_mate read).

(** * Metadata and sequence utilities ([utils.py])

    Text read from a file is ASCII; a file is the list of its lines, each
    with its line end. *)

Module utils.

(** ** Text primitives *)

(** [str.isspace] on an ASCII character: tab to carriage return, the
    four separators 28 to 31, and the blank. *)
Definition isspace (c : ascii) : bool :=
  let n := nat_of_ascii c in
  ((9 <=? n)%nat && (n <=? 13)%nat) || ((28 <=? n)%nat && (n <=? 32)%nat).

(** [s.rstrip()], [s.lstrip()] and [s.strip()] *)
Fixpoint rstrip (s : string) : string :=
  match s with
  | EmptyString => EmptyString
  | String c s' =>
      match rstrip s' with
      | EmptyString => if isspace c then EmptyString else String c EmptyString
      | String c' r => String c (String c' r)
      end
  end.

Fixpoint lstrip (s : string) : string :=
  match s with
  | EmptyString => EmptyString
  | String c s' => if isspace c then lstrip s' else String c s'
  end.

Definition strip (s : string) : string := lstrip (rstrip s).

(** [s.upper()] *)
Definition to_upper (c : ascii) : ascii :=
  let n := nat_of_ascii c in
  if (97 <=? n)%nat && (n <=? 122)%nat then ascii_of_nat (n - 32) else c.

Fixpoint upper (s : string) : string :=
  match s with
  | EmptyString => EmptyString
  | String c s' => String (to_upper c) (upper s')
  end.

(** [s.count(c)] for a one-character [c] *)
Fixpoint count_char (c : ascii) (s : string) : Z :=
  match s with
  | EmptyString => 0
  | String c' s' => (if decide (c' = c) then 1 else 0) + count_char c s'
  end.

(** [s.startswith(c)] for a one-character [c]; [s[:1] != c] is its
    negation. *)
Definition startswith (c : ascii) (s : string) : bool :=
  match s with
  | String c' _ => bool_decide (c' = c)
  | EmptyString => false
  end.

(** [s.split(sep)] and [sep.join(fields)] for a one-character [sep] *)
Fixpoint split (sep : ascii) (s : string) : list string :=
  match s with
  | EmptyString => [EmptyString]
  | String c s' =>
      if decide (c = sep) then EmptyString :: split sep s'
      else match split sep s' with
           | f :: fs => String c f :: fs
           | [] => [String c EmptyString]
           end
  end.

Fixpoint join (sep : ascii) (fields : list string) : string :=
  match fields with
  | [] => EmptyString
  | [f] => f
  | f :: fs => (f +:+ String sep (join sep fs))%string
  end.

Definition tab : ascii := ascii_of_nat 9.

(** ** Libraries *)

Module FastqLibrary.
Record t : Type := {
  sample : string;
  replicate : string;
  barcode : string;
  fastqbase : string
}.

Definition name (self : t) : string :=
  (sample self +:+ "_rep" +:+ replicate self)%string.
End FastqLibrary.

Module PooledLibrary.
Record t : Type := {
  sample : string;
  replicates : list FastqLibrary.t
}.

Definition name (self : t) : string := (sample self +:+ "_pooled")%string.
End PooledLibrary.

(** [samples[library.sample].append(library)] *)
Definition group_step (samples : list (string * list FastqLibrary.t))
    (library : FastqLibrary.t) : list (string * list FastqLibrary.t) :=
  let '(replicates, samples) :=
    defaultdict_getitem [] (FastqLibrary.sample library) samples in
  dict_set (FastqLibrary.sample library) (replicates ++ [library]) samples.

(** The pools are listed in the order in which the generator yields
    them. *)
Definition group_libraries_by_sample (libraries : list FastqLibrary.t)
  : list PooledLibrary.t :=
  (fun item => {| PooledLibrary.sample := item.1;
                  PooledLibrary.replicates := item.2 |})
    <$> fold_left group_step libraries [].

Definition get_replicates (libraries : list FastqLibrary.t) (sample : string)
  : list string :=
  FastqLibrary.replicate
    <$> filter (fun lib => FastqLibrary.sample lib = sample) libraries.

(** ** [read_tsv] *)

Inductive ParseError : Type :=
  | Expected_fields (columns found : Z).

(** The rows the generator yields, in order, and the error that ends it,
    if any. *)
Fixpoint read_tsv (lines : list string) (columns : Z)
  : list (list string) * option ParseError :=
  match lines with
  | [] => ([], None)
  | line :: rest =>
      let line := strip line in
      if startswith "#" line || bool_decide (line = EmptyString)
      then read_tsv rest columns
      else
        let fields := split tab (strip line) in
        if bool_decide (Z.of_nat (length fields) <> columns)
        then ([], Some (Expected_fields columns (Z.of_nat (length fields))))
        else let '(rows, error) := read_tsv rest columns in
             (fields :: rows, error)
  end.

(** ** [compute_genome_size] *)

Definition genome_step (n : Z) (line : string) : Z :=
  if negb (startswith ">" line) then
    let line := upper (rstrip line) in
    n + (Z.of_nat (String.length line) - count_char "N" line)
  else n.

Definition compute_genome_size (fasta : list string) : Z :=
  fold_left genome_step fasta 0.

End utils.

(** ** Sample records *)

Module Sample.

(** A mapped record on [chr1] at position 100. *)
Definition record (first second : bool) (qname : string) (mapq : Z)
    (quals : list Z) : pysam.AlignedSegment :=
  {| pysam.is_unmapped := false;
     pysam.is_read1 := first;
     pysam.is_read2 := second;
     pysam.query_name := qname;
     pysam.reference_name := "chr1";
     pysam.reference_start := 100;
     pysam.next_reference_start := 250;
     pysam.mapping_quality := mapq;
     pysam.query_sequence := "ACGTACGT";
     pysam.query_alignment_qualities := quals |}.

(** Flags 0 and 16: neither first nor second in pair. *)
Definition unpaired_unique : pysam.AlignedSegment :=
  record false false "frag1_AAAAAA" 30 [30; 30].

Definition first_unique : pysam.AlignedSegment :=
  record true false "frag1_AAAAAA" 30 [30; 30].

Definition first_multi : pysam.AlignedSegment :=
  record true false "frag1_AAAAAA" 0 [30; 30].

Definition second_unique : pysam.AlignedSegment :=
  record false true "frag1_AAAAAA" 30 [30; 30].

Definition other_second_unique : pysam.AlignedSegment :=
  record false true "frag2_AAAAAA" 30 [30; 30].

(** Two reads of one locus whose UMIs differ in the last base; the
    second has the higher score. *)
Definition low_A : AlignedSegmentSummary :=
  summarize 6 5 20 (record true false "frag1_AAAAAA" 30 [30]).

Definition high_T : AlignedSegmentSummary :=
  summarize 6 5 20 (record true false "frag2_AAAAAT" 30 [45]).

(** Two records of one fragment name at one locus, and a third read. *)
Definition twin_1 : AlignedSegmentSummary :=
  summarize 6 5 20 (record true false "frag1_AAAAAA" 30 [45]).

Definition twin_2 : AlignedSegmentSummary :=
  summarize 6 5 20 (record true false "frag1_AAAAAA" 30 [30]).

Definition third : AlignedSegmentSummary :=
  summarize 6 5 20 (record true false "frag3_AAAAAA" 30 [20]).

(** One locus, one UMI, scores 30 and 45. *)
Definition two_reads_one_umi : list pysam.AlignedSegment :=
  [record true false "frag1_AAAAAA" 30 [30];
   record true false "frag2_AAAAAA" 30 [45]].

(** Two first mates at one locus; the query name of the second is
    shorter than the UMI length 6, so its UMI is the whole name. *)
Definition short_query_name : list pysam.AlignedSegment :=
  [record true false "frag1_AAAAAA" 30 [30];
   record true false "r2_AC" 30 [45]].

(** Two loci with two reads each, and the same reads met in another
    order. *)
Definition at_locus (refname : string) (pos : Z) (qname : string)
    (quals : list Z) : pysam.AlignedSegment :=
  {| pysam.is_unmapped := false;
     pysam.is_read1 := true;
     pysam.is_read2 := false;
     pysam.query_name := qname;
     pysam.reference_name := refname;
     pysam.reference_start := pos;
     pysam.next_reference_start := 250;
     pysam.mapping_quality := 30;
     pysam.query_sequence := "ACGTACGT";
     pysam.query_alignment_qualities := quals |}.

Definition two_loci : list pysam.AlignedSegment :=
  [at_locus "chr1" 100 "frag1_AAAAAA" [30];
   at_locus "chr2" 7 "frag2_CCCCCC" [30];
   at_locus "chr1" 100 "frag3_AAAAAA" [45];
   at_locus "chr2" 7 "frag4_CCCCCC" [20]].

Definition two_loci_reordered : list pysam.AlignedSegment :=
  [at_locus "chr2" 7 "frag2_CCCCCC" [30];
   at_locus "chr1" 100 "frag1_AAAAAA" [30];
   at_locus "chr2" 7 "frag4_CCCCCC" [20];
   at_locus "chr1" 100 "frag3_AAAAAA" [45]].

Definition zero_total : DedupSummary.t :=
  {| DedupSummary.total := 0;
     DedupSummary.total_dups := 0;
     DedupSummary.r1_dups := 0;
     DedupSummary.r2_only_dups := 0;
     DedupSummary.multi_dups := 0 |}.

End Sample.

(** * Properties *)

(** ** Slices *)

Section slices.

Lemma app_String c s t : (String c s +:+ t = String c (s +:+ t))%string.
Proof. reflexivity. Qed.

Lemma str_take_drop n s : (Py.str_take n s +:+ Py.str_drop n s)%string = s.
Proof.
  revert s; induction n as [|n IH]; intros [|c s]; simpl; try reflexivity.
  by rewrite app_String, IH.
Qed.

Lemma length_str_take n s :
  String.length (Py.str_take n s) = (n `min` String.length s)%nat.
Proof.
  revert s; induction n as [|n IH]; intros [|c s]; simpl; try reflexivity.
  by rewrite IH.
Qed.

Lemma length_str_drop n s :
  String.length (Py.str_drop n s) = (String.length s - n)%nat.
Proof.
  revert s; induction n as [|n IH]; intros [|c s]; simpl; try reflexivity.
  by rewrite IH.
Qed.

Lemma length_encode s : length (Py.encode s) = String.length s.
Proof.
  unfold Py.encode, list_byte_of_string. rewrite length_map.
  induction s as [|c s IH]; simpl; [reflexivity | by rewrite IH].
Qed.

Lemma str_take_app s1 s2 :
  Py.str_take (String.length s1) (s1 +:+ s2)%string = s1.
Proof.
  induction s1 as [|c s1 IH]; [by destruct s2|].
  rewrite app_String. simpl. by rewrite IH.
Qed.

Lemma str_drop_app s1 s2 :
  Py.str_drop (String.length s1) (s1 +:+ s2)%string = s2.
Proof.
  induction s1 as [|c s1 IH]; [by destruct s2|].
  rewrite app_String. simpl. exact IH.
Qed.

Lemma length_string_app s1 s2 :
  String.length (s1 +:+ s2)%string = (String.length s1 + String.length s2)%nat.
Proof.
  induction s1 as [|c s1 IH]; [done|].
  rewrite app_String. simpl. by rewrite IH.
Qed.

Lemma string_app_snoc s c t :
  ((s +:+ String c EmptyString) +:+ t = s +:+ String c t)%string.
Proof.
  induction s as [|a s IH]; [done|].
  by rewrite !app_String, IH.
Qed.

(** With a negative bound, a slice counts from the end and stops at the
    start of the string. *)
Lemma slice_bound_neg len i :
  i < 0 -> Py.slice_bound len i = Z.to_nat (Z.max 0 (len + i)).
Proof.
  intros Hi. unfold Py.slice_bound.
  destruct (Z.ltb_spec i 0); [done | lia].
Qed.

End slices.

(** ** C4: name and UMI of a malformed query name *)

(** C4, as the code has it.  For every record and every [umi_length >= 1]
    the name and the UMI are plain slices of the query name, which exist
    for every string: the name is the query name without its last
    [umi_length + 1] characters (empty if the query name is that short),
    the UMI is the last [umi_length] characters (the whole query name if
    it is shorter).  Nothing is validated; on a query name that ends in a
    delimiter and [umi_length] more characters the two slices are the
    fragment name and the UMI. *)
Theorem get_name_umi_are_total_slices
    (read : pysam.AlignedSegment) (umi_length : Z) (Hlen : 1 <= umi_length) :
  let qname := pysam.query_name read in
  let n := String.length qname in
  let k := Z.to_nat umi_length in
  get_name read umi_length = Py.str_take (n - (k + 1)) qname /\
  get_umi read umi_length = Py.encode (Py.str_drop (n - k) qname) /\
  String.length (get_name read umi_length) = (n - (k + 1))%nat /\
  length (get_umi read umi_length) = (n `min` k)%nat /\
  (forall frag delim tag,
     qname = (frag +:+ String delim tag)%string ->
     String.length tag = k ->
     get_name read umi_length = frag /\
     get_umi read umi_length = Py.encode tag).
Proof.
  intros qname n k.
  assert (Hname : get_name read umi_length = Py.str_take (n - (k + 1)) qname).
  { unfold get_name, Py.slice_to. rewrite slice_bound_neg by lia.
    f_equal. unfold Py.len. fold qname n. subst k. lia. }
  assert (Humi : get_umi read umi_length = Py.encode (Py.str_drop (n - k) qname)).
  { unfold get_umi, Py.slice_from. rewrite slice_bound_neg by lia.
    do 2 f_equal. unfold Py.len. fold qname n. subst k. lia. }
  split; [exact Hname|]. split; [exact Humi|].
  split; [rewrite Hname, length_str_take; fold n; lia|].
  split; [rewrite Humi, length_encode, length_str_drop; fold n; lia|].
  intros frag delim tag Hq Htag.
  assert (Hn : n = (String.length frag + S k)%nat).
  { subst n. rewrite Hq, length_string_app. simpl. by rewrite Htag. }
  split.
  - rewrite Hname, Hn.
    replace (String.length frag + S k - (k + 1))%nat
      with (String.length frag) by lia.
    rewrite Hq. apply str_take_app.
  - rewrite Humi, Hn. f_equal.
    replace (String.length frag + S k - k)%nat
      with (String.length (frag +:+ String delim EmptyString)%string)
      by (rewrite length_string_app; simpl; lia).
    rewrite Hq.
    rewrite <- (string_app_snoc frag delim tag). apply str_drop_app.
Qed.

Lemma get_name_umi_are_total_slices_witness :
  get_name (Sample.record true false "frag7_ACGTAC" 30 [30]) 6 = "frag7"%string /\
  get_umi (Sample.record true false "frag7_ACGTAC" 30 [30]) 6 = Py.encode "ACGTAC".
Proof.
  destruct (get_name_umi_are_total_slices
              (Sample.record true false "frag7_ACGTAC" 30 [30]) 6 ltac:(lia))
    as (_ & _ & _ & _ & Hsplit).
  apply (Hsplit "frag7"%string "_"%char "ACGTAC"%string); reflexivity.
Defined.

(** C4 fails on the code: a query name shorter than the UMI suffix, and
    one without a delimiter, both produce a summary.  The first gets an
    empty name and a two-byte UMI; the second loses the character in the
    delimiter's place. *)
Lemma malformed_query_name_is_truncated :
  let short := Sample.record true false "AB" 30 [30] in
  let plain := Sample.record true false "ABCDEFGHIJ" 30 [30] in
  6 > Py.len (pysam.query_name short) - 1 /\
  name (AlignedSegmentSummary_init short 6 5 20) = ""%string /\
  umi (AlignedSegmentSummary_init short 6 5 20) = Py.encode "AB" /\
  name (AlignedSegmentSummary_init plain 6 5 20) = "ABC"%string /\
  umi (AlignedSegmentSummary_init plain 6 5 20) = Py.encode "EFGHIJ".
Proof. vm_compute. repeat split. Qed.

(** ** C5: the duplication fraction of an empty run *)

(** C5, as the code has it.  With [total = 0] the division raises the
    built-in [ZeroDivisionError]; no value is returned, so neither 0 nor
    a NaN.  With any other total the quotient is returned. *)
Theorem fraction_duplication_zero_total
    (d : DedupSummary.t) (Hzero : DedupSummary.total d = 0) :
  DedupSummary.fraction_duplication d = Raised ZeroDivisionError /\
  (forall q, DedupSummary.fraction_duplication d <> Returned q).
Proof.
  unfold DedupSummary.fraction_duplication. rewrite Hzero. simpl.
  split; [reflexivity | discriminate].
Qed.

Lemma fraction_duplication_zero_total_witness :
  DedupSummary.fraction_duplication Sample.zero_total = Raised ZeroDivisionError /\
  (forall q, DedupSummary.fraction_duplication Sample.zero_total <> Returned q).
Proof. apply (fraction_duplication_zero_total Sample.zero_total). reflexivity. Defined.

(** C5 fails on the code: the error of an empty run is the generic
    division error of the language, not an empty-input error, and it is
    not a NaN either. *)
Lemma fraction_duplication_error_is_generic :
  DedupSummary.total Sample.zero_total = 0 /\
  DedupSummary.fraction_duplication Sample.zero_total <> Raised EmptyInputError /\
  (forall nan, DedupSummary.fraction_duplication Sample.zero_total <> Returned nan).
Proof. vm_compute. repeat split; discriminate. Qed.

(** ** Dictionaries *)

Section dict_facts.
Context {K V : Type} `{EqDecision K}.
Implicit Types (k : K) (v : V) (d : list (K * V)).

Lemma dict_get_set_eq k v d : dict_get k (dict_set k v d) = Some v.
Proof.
  induction d as [|[k' v'] d IH]; simpl.
  - by rewrite decide_True.
  - destruct (decide (k = k')) as [->|Hne]; simpl.
    + by rewrite decide_True.
    + by rewrite decide_False.
Qed.

Lemma dict_get_set_ne k k' v d :
  k <> k' -> dict_get k' (dict_set k v d) = dict_get k' d.
Proof.
  intros Hne. induction d as [|[k0 v0] d IH]; simpl.
  - by rewrite decide_False.
  - destruct (decide (k = k0)) as [->|Hne0]; simpl.
    + by rewrite !decide_False.
    + destruct (decide (k' = k0)); [done | exact IH].
Qed.

Lemma dict_set_set k v w d : dict_set k v (dict_set k w d) = dict_set k v d.
Proof.
  induction d as [|[k' v'] d IH]; simpl.
  - by rewrite decide_True.
  - destruct (decide (k = k')) as [->|Hne]; simpl.
    + by rewrite decide_True.
    + by rewrite decide_False, IH.
Qed.

Lemma dict_get_is_Some k d : k ∈ keys d -> is_Some (dict_get k d).
Proof.
  unfold keys. induction d as [|[k' v'] d IH]; simpl.
  - intros Hin. by apply elem_of_nil in Hin.
  - intros Hin. destruct (decide (k = k')); [by eexists|].
    apply elem_of_cons in Hin as [?|Hin]; [done | auto].
Qed.

Lemma keys_dict_set k v d u : u ∈ keys (dict_set k v d) <-> u = k \/ u ∈ keys d.
Proof.
  unfold keys. induction d as [|[k' v'] d IH]; simpl.
  - rewrite elem_of_cons. set_solver.
  - destruct (decide (k = k')) as [->|Hne]; simpl.
    + rewrite !elem_of_cons. tauto.
    + rewrite !elem_of_cons, IH. tauto.
Qed.

Lemma keys_dict_set_NoDup k v d : NoDup (keys d) -> NoDup (keys (dict_set k v d)).
Proof.
  unfold keys. induction d as [|[k' v'] d IH]; simpl.
  - intros _. apply NoDup_singleton.
  - rewrite NoDup_cons. intros [Hnot Hnd].
    destruct (decide (k = k')) as [->|Hne]; simpl.
    + by apply NoDup_cons.
    + apply NoDup_cons. split; [|by apply IH].
      intros Hin. apply (keys_dict_set k v d k') in Hin as [?|?]; [congruence | done].
Qed.

(** Reading an existing key of a [defaultdict] leaves it as it was. *)
Lemma defaultdict_getitem_present dflt k d :
  k ∈ keys d -> (defaultdict_getitem dflt k d).2 = d.
Proof.
  intros Hin. unfold defaultdict_getitem.
  by destruct (dict_get_is_Some k d Hin) as [v ->].
Qed.

(** Replacing the value of [k] by one that holds one more element [a]
    adds [a], and nothing else, to the flattened contents. *)
Lemma flatten_dict_set {A} (f : V -> list A) dflt k v' (a : A) d :
  f dflt = [] ->
  (forall x, x ∈ f v' <-> x ∈ f (default dflt (dict_get k d)) \/ x = a) ->
  forall x, x ∈ concat (f <$> values (dict_set k v' d))
            <-> x ∈ concat (f <$> values d) \/ x = a.
Proof.
  intros Hdflt. unfold values.
  induction d as [|[k' w] d IH]; simpl; intros Hv x.
  - rewrite app_nil_r, Hv, Hdflt. done.
  - destruct (decide (k = k')) as [->|Hne]; simpl in *.
    + rewrite !elem_of_app, Hv. tauto.
    + rewrite !elem_of_app, (IH Hv). tauto.
Qed.

End dict_facts.

(** ** The position index *)

Section index_facts.
Implicit Types (index : position_index) (aln x : AlignedSegmentSummary).

Lemma index_append_eq refname pos aln index :
  index_append refname pos aln index =
  dict_set refname
    (dict_set pos (bucket index refname pos ++ [aln])
              (default [] (dict_get refname index)))
    index.
Proof.
  unfold index_append, bucket, defaultdict_getitem.
  destruct (dict_get refname index) as [contig|]; simpl.
  - destruct (dict_get pos contig) as [b|]; simpl; [done|].
    by rewrite dict_set_set.
  - rewrite decide_True by done. by rewrite dict_set_set.
Qed.

Lemma bucket_index_append refname pos aln index refname' pos' :
  bucket (index_append refname pos aln index) refname' pos' =
  if decide (refname = refname' /\ pos = pos')
  then bucket index refname pos ++ [aln]
  else bucket index refname' pos'.
Proof.
  rewrite index_append_eq. unfold bucket at 1.
  destruct (decide (refname = refname')) as [<-|Href].
  - rewrite dict_get_set_eq. simpl.
    destruct (decide (pos = pos')) as [<-|Hpos].
    + rewrite dict_get_set_eq. simpl. by rewrite decide_True.
    + rewrite dict_get_set_ne by done. rewrite decide_False by tauto. done.
  - rewrite dict_get_set_ne by done. rewrite decide_False by tauto. done.
Qed.

Lemma index_reads_index_append refname pos aln index x :
  x ∈ index_reads (index_append refname pos aln index)
  <-> x ∈ index_reads index \/ x = aln.
Proof.
  rewrite index_append_eq. unfold index_reads.
  apply (flatten_dict_set (fun contig => concat (values contig)) []); [done|].
  intros y. unfold bucket.
  rewrite <- (list_fmap_id (values (dict_set _ _ _))).
  rewrite <- (list_fmap_id (values (default [] (dict_get refname index)))).
  apply (flatten_dict_set id []); [done|].
  intros z. simpl. rewrite elem_of_app, list_elem_of_singleton. done.
Qed.

End index_facts.

(** ** The two passes *)

Section pass_facts.
Variables umi_length multimap_cutoff stub_length : Z.

Local Abbreviation summarize :=
  (summarize umi_length multimap_cutoff stub_length).
Local Abbreviation route := (route umi_length multimap_cutoff stub_length).
Local Abbreviation first_sel :=
  (first_sel umi_length multimap_cutoff stub_length).
Local Abbreviation second_sel :=
  (second_sel umi_length multimap_cutoff stub_length).

Lemma first_mates_body_route st read :
  first_mates_body umi_length multimap_cutoff stub_length st read =
  route first_sel st read.
Proof. by destruct st as [[? ?] ?]. Qed.

Lemma second_mates_body_route seen st read :
  second_mates_body umi_length multimap_cutoff stub_length seen st read =
  route (second_sel seen) st read.
Proof. by destruct st as [[? ?] ?]. Qed.

Lemma fold_left_ext {A B} (f g : A -> B -> A) l a :
  (forall a b, f a b = g a b) -> fold_left f l a = fold_left g l a.
Proof.
  intros Hfg. revert a. induction l as [|b l IH]; intros a; simpl; [done|].
  by rewrite Hfg, IH.
Qed.

Lemma fold_first_mates_route reads st :
  fold_left (first_mates_body umi_length multimap_cutoff stub_length) reads st =
  fold_left (route first_sel) reads st.
Proof. apply fold_left_ext, first_mates_body_route. Qed.

Lemma fold_second_mates_route seen reads st :
  fold_left (second_mates_body umi_length multimap_cutoff stub_length seen)
            reads st =
  fold_left (route (second_sel seen)) reads st.
Proof. apply fold_left_ext, second_mates_body_route. Qed.

Lemma route_fold sel reads :
  forall index pool ids index' pool' ids',
    fold_left (route sel) reads (index, pool, ids) = (index', pool', ids') ->
    (forall refname pos,
       bucket index' refname pos =
       bucket index refname pos ++
       (summarize <$>
          filter (fun rd => sel rd /\ type (summarize rd) = SINGLE /\
                            pysam.reference_name rd = refname /\
                            pysam.reference_start rd = pos) reads)) /\
    (forall x,
       x ∈ index_reads index' <->
       x ∈ index_reads index \/
       exists rd, rd ∈ reads /\ sel rd /\ type (summarize rd) = SINGLE /\
                  x = summarize rd) /\
    pool' = pool ++
            (summarize <$>
               filter (fun rd => sel rd /\ type (summarize rd) = MULTI) reads) /\
    ids' = ids ++ ((fun rd => name (summarize rd)) <$> filter (fun rd => sel rd) reads).
Proof.
  induction reads as [|rd reads IH]; intros index pool ids index' pool' ids' Hfold.
  - simpl in Hfold. injection Hfold as <- <- <-.
    rewrite !filter_nil. simpl.
    split; [|split; [|split]].
    + intros refname pos. by rewrite app_nil_r.
    + intros x; split; [by left|].
      intros [?|(rd & Hrd & _)]; [done | by apply elem_of_nil in Hrd].
    + by rewrite app_nil_r.
    + by rewrite app_nil_r.
  - simpl in Hfold.
    change (get_type rd multimap_cutoff) with (type (summarize rd)) in Hfold.
    change (get_name rd umi_length) with (name (summarize rd)) in Hfold.
    destruct (sel rd) eqn:Hsel.
    + destruct (type (summarize rd)) eqn:Htype.
      * apply IH in Hfold as (Hb & Hr & Hp & Hi).
        split; [|split; [|split]].
        -- intros refname pos. rewrite Hb, bucket_index_append.
           rewrite filter_cons.
           destruct (decide (pysam.reference_name rd = refname
                             /\ pysam.reference_start rd = pos)) as [[<- <-]|Hne].
           ++ rewrite decide_True by (rewrite Hsel; done).
              simpl. by rewrite <- app_assoc.
           ++ rewrite decide_False by tauto. done.
        -- intros x. rewrite Hr, index_reads_index_append.
           split.
           ++ intros [[?| ->]|(rd' & Hin & ?)]; [by left| |].
              ** right. exists rd. rewrite elem_of_cons, Hsel. by auto.
              ** right. exists rd'. rewrite elem_of_cons. by auto.
           ++ intros [?|(rd' & Hin & Hs & Ht & ->)]; [by auto|].
              apply elem_of_cons in Hin as [->|Hin]; [by auto|].
              right. by exists rd'.
        -- rewrite Hp, filter_cons, decide_False; [done|].
           intros [_ ?]; congruence.
        -- rewrite Hi, (filter_cons (fun rd => sel rd)), decide_True
             by (rewrite Hsel; done).
           simpl. by rewrite <- app_assoc.
      * apply IH in Hfold as (Hb & Hr & Hp & Hi).
        split; [|split; [|split]].
        -- intros refname pos. rewrite Hb, filter_cons, decide_False; [done|].
           intros (_ & ? & _); congruence.
        -- intros x. rewrite Hr. split.
           ++ intros [?|(rd' & Hin & ?)]; [by left|].
              right. exists rd'. rewrite elem_of_cons. by auto.
           ++ intros [?|(rd' & Hin & Hs & Ht & ->)]; [by auto|].
              apply elem_of_cons in Hin as [->|Hin]; [congruence|].
              right. by exists rd'.
        -- rewrite Hp, filter_cons, decide_True by (rewrite Hsel; done).
           simpl. by rewrite <- app_assoc.
        -- rewrite Hi, (filter_cons (fun rd => sel rd)), decide_True
             by (rewrite Hsel; done).
           simpl. by rewrite <- app_assoc.
    + apply IH in Hfold as (Hb & Hr & Hp & Hi).
      assert (Hno : ~ sel rd) by (rewrite Hsel; auto).
      split; [|split; [|split]].
      * intros refname pos. rewrite Hb, filter_cons, decide_False by tauto. done.
      * intros x. rewrite Hr. split.
        -- intros [?|(rd' & Hin & ?)]; [by left|].
           right. exists rd'. rewrite elem_of_cons. by auto.
        -- intros [?|(rd' & Hin & Hs & Ht & ->)]; [by auto|].
           apply elem_of_cons in Hin as [->|Hin]; [done|].
           right. by exists rd'.
      * rewrite Hp, filter_cons, decide_False by tauto. done.
      * rewrite Hi, (filter_cons (fun rd => sel rd)), decide_False by done. done.
Qed.

End pass_facts.

(** ** The finished index *)

Section index_init_facts.
Variables umi_length multimap_cutoff stub_length : Z.

Local Abbreviation summarize :=
  (summarize umi_length multimap_cutoff stub_length).
Local Abbreviation fsel :=
  (first_sel umi_length multimap_cutoff stub_length).
Local Abbreviation ssel :=
  (second_sel umi_length multimap_cutoff stub_length).
Local Abbreviation build :=
  (AlignmentIndex_init umi_length multimap_cutoff stub_length).
Local Abbreviation seen_of :=
  (seen_1st umi_length multimap_cutoff stub_length).

Lemma first_sel_spec rd : fsel rd <-> mate (summarize rd) = 1.
Proof. unfold first_sel. by rewrite Is_true_true, Z.eqb_eq. Qed.

Lemma second_sel_spec seen rd :
  ssel seen rd <->
  mate (summarize rd) = 2 /\ name (summarize rd) ∉ seen.
Proof.
  unfold second_sel.
  by rewrite andb_True, bool_decide_spec, Is_true_true, Z.eqb_eq.
Qed.

Lemma elem_of_mapped rd bam :
  rd ∈ get_mapped_segments bam <-> pysam.is_unmapped rd = false /\ rd ∈ bam.
Proof. unfold get_mapped_segments. by rewrite list_elem_of_filter. Qed.

Lemma index_init_spec bam :
  let mapped := get_mapped_segments bam in
  let index := build bam in
  let seen := seen_of bam in
  (forall n, n ∈ seen <->
             exists rd, rd ∈ mapped /\ mate (summarize rd) = 1 /\
                        name (summarize rd) = n) /\
  (forall refname pos,
     bucket (r1_reads_by_position index) refname pos =
     summarize <$>
       filter (fun rd => fsel rd /\ type (summarize rd) = SINGLE /\
                         pysam.reference_name rd = refname /\
                         pysam.reference_start rd = pos) mapped) /\
  (forall x, x ∈ index_reads (r1_reads_by_position index) <->
             exists rd, rd ∈ mapped /\ fsel rd /\
                        type (summarize rd) = SINGLE /\ x = summarize rd) /\
  (forall refname pos,
     bucket (r2_only_reads_by_position index) refname pos =
     summarize <$>
       filter (fun rd => ssel seen rd /\ type (summarize rd) = SINGLE /\
                         pysam.reference_name rd = refname /\
                         pysam.reference_start rd = pos) mapped) /\
  (forall x, x ∈ index_reads (r2_only_reads_by_position index) <->
             exists rd, rd ∈ mapped /\ ssel seen rd /\
                        type (summarize rd) = SINGLE /\ x = summarize rd) /\
  multimappers index =
    (summarize <$>
       filter (fun rd => fsel rd /\ type (summarize rd) = MULTI) mapped) ++
    (summarize <$>
       filter (fun rd => ssel seen rd /\ type (summarize rd) = MULTI)
              mapped).
Proof.
  intros mapped index seen. subst index seen.
  unfold seen_1st, AlignmentIndex_init, _index_first_mates,
    _index_second_mates.
  fold mapped.
  rewrite fold_first_mates_route.
  destruct (fold_left (route umi_length multimap_cutoff stub_length fsel)
                      mapped ([], [], [])) as [[r1 m1] s1] eqn:Hfirst.
  rewrite fold_second_mates_route.
  destruct (fold_left (route umi_length multimap_cutoff stub_length
                             (ssel (list_to_set s1)))
                      mapped ([], m1, [])) as [[r2 m2] s2] eqn:Hsecond.
  simpl.
  apply route_fold in Hfirst as (Hb1 & Hr1 & Hp1 & Hi1).
  apply route_fold in Hsecond as (Hb2 & Hr2 & Hp2 & Hi2).
  simpl in *.
  split; [|split; [|split; [|split; [|split]]]].
  - intros n. rewrite elem_of_list_to_set, Hi1, list_elem_of_fmap.
    split.
    + intros (rd & -> & Hrd). apply list_elem_of_filter in Hrd as [Hs Hrd].
      exists rd. split; [done|]. split; [by apply first_sel_spec | done].
    + intros (rd & Hrd & Hm & <-). exists rd. split; [done|].
      apply list_elem_of_filter. split; [by apply first_sel_spec | done].
  - intros refname pos. by rewrite Hb1.
  - intros x. rewrite Hr1. split; [|by right].
    intros [Hx|?]; [|done]. unfold index_reads in Hx. simpl in Hx.
    by apply elem_of_nil in Hx.
  - intros refname pos. by rewrite Hb2.
  - intros x. rewrite Hr2. split; [|by right].
    intros [Hx|?]; [|done]. unfold index_reads in Hx. simpl in Hx.
    by apply elem_of_nil in Hx.
  - by rewrite Hp2, Hp1.
Qed.

End index_init_facts.

(** ** C2: records that are neither first nor second in pair *)

(** C2, as the code has it.  The first pass selects on [mate == 1] only.
    A record whose flags say neither first nor second in pair leaves the
    index, the multimapper pool and the recorded names as they were; the
    pass over a stream is the pass over the stream without that record;
    and the finished index never holds such a record. *)
Theorem unpaired_record_skipped_by_first_pass
    (umi_length multimap_cutoff stub_length : Z)
    (read : pysam.AlignedSegment) (Hunpaired : get_mate read = -1) :
  (forall st,
     first_mates_body umi_length multimap_cutoff stub_length st read = st) /\
  (forall r1 multi before after,
     _index_first_mates umi_length multimap_cutoff stub_length r1 multi
                        (before ++ read :: after) =
     _index_first_mates umi_length multimap_cutoff stub_length r1 multi
                        (before ++ after)) /\
  (forall bam,
     let index := AlignmentIndex_init umi_length multimap_cutoff stub_length bam in
     let aln := summarize umi_length multimap_cutoff stub_length read in
     (aln ∉ index_reads (r1_reads_by_position index)) /\
     (aln ∉ index_reads (r2_only_reads_by_position index)) /\
     (aln ∉ multimappers index)).
Proof.
  assert (Hbody : forall st,
             first_mates_body umi_length multimap_cutoff stub_length st read = st).
  { intros [[r1 multi] seen]. unfold first_mates_body. simpl.
    by rewrite Hunpaired. }
  split; [exact Hbody|]. split.
  - intros r1 multi before after. unfold _index_first_mates, get_mapped_segments.
    rewrite !filter_app, filter_cons.
    destruct (decide (pysam.is_unmapped read = false)); [|done].
    rewrite !fold_left_app. simpl. by rewrite Hbody.
  - intros bam index aln.
    destruct (index_init_spec umi_length multimap_cutoff stub_length bam)
      as (_ & _ & Hr1 & _ & Hr2 & Hmulti).
    fold index in Hr1, Hr2, Hmulti. split; [|split].
    + rewrite Hr1. intros (rd & _ & Hsel & _ & Heq).
      apply first_sel_spec in Hsel. rewrite <- Heq in Hsel.
      simpl in Hsel. lia.
    + rewrite Hr2. intros (rd & _ & Hsel & _ & Heq).
      apply second_sel_spec in Hsel as [Hsel _]. rewrite <- Heq in Hsel.
      simpl in Hsel. lia.
    + rewrite Hmulti, elem_of_app, !list_elem_of_fmap.
      intros [(rd & Heq & Hrd)|(rd & Heq & Hrd)];
        apply list_elem_of_filter in Hrd as [[Hsel _] _].
      * apply first_sel_spec in Hsel. rewrite <- Heq in Hsel. simpl in Hsel. lia.
      * apply second_sel_spec in Hsel as [Hsel _]. rewrite <- Heq in Hsel.
        simpl in Hsel. lia.
Qed.

Lemma unpaired_record_skipped_by_first_pass_witness :
  _index_first_mates 6 5 20 [] [] ([Sample.first_unique] ++ Sample.unpaired_unique :: []) =
  _index_first_mates 6 5 20 [] [] ([Sample.first_unique] ++ []).
Proof.
  apply (unpaired_record_skipped_by_first_pass 6 5 20 Sample.unpaired_unique).
  reflexivity.
Defined.

(** C2 fails on the code: a mapped, uniquely mapping record with neither
    mate flag is alone in the file; after construction its locus is empty
    and its name was not recorded. *)
Lemma unpaired_unique_record_not_indexed :
  let read := Sample.unpaired_unique in
  let index := AlignmentIndex_init 6 5 20 [read] in
  pysam.is_unmapped read = false /\
  get_mate read = -1 /\
  get_type read 5 = SINGLE /\
  bucket (r1_reads_by_position index)
         (pysam.reference_name read) (pysam.reference_start read) = [] /\
  multimappers index = [] /\
  name (summarize 6 5 20 read) ∉ seen_1st 6 5 20 [read].
Proof.
  repeat split; try (vm_compute; reflexivity).
  refine (bool_decide_unpack _ _). vm_compute. exact I.
Qed.

(** ** C3: second mates of multi-mapping first mates *)

(** C3, as the code has it.  The first pass records the name of every
    first mate, uniquely mapping or not.  So a mapped, uniquely mapping
    second mate is stored at its locus in the second index exactly when
    no mapped first-mate record carries its fragment name; in particular
    a multi-mapping first mate counts as seen and keeps the second mate
    out of the index. *)
Theorem second_mate_indexed_iff_first_mate_unseen
    (umi_length multimap_cutoff stub_length : Z)
    (bam : list pysam.AlignedSegment) (read : pysam.AlignedSegment)
    (Hin : read ∈ bam)
    (Hmapped : pysam.is_unmapped read = false)
    (Hsecond : get_mate read = 2)
    (Hunique : get_type read multimap_cutoff = SINGLE) :
  let index := AlignmentIndex_init umi_length multimap_cutoff stub_length bam in
  let aln := summarize umi_length multimap_cutoff stub_length read in
  (aln ∈ bucket (r2_only_reads_by_position index)
               (pysam.reference_name read) (pysam.reference_start read)
   <->
   ~ exists first, first ∈ bam /\ pysam.is_unmapped first = false /\
                   get_mate first = 1 /\
                   get_name first umi_length = get_name read umi_length) /\
  (forall first,
     first ∈ bam -> pysam.is_unmapped first = false ->
     get_mate first = 1 -> get_type first multimap_cutoff = MULTI ->
     get_name first umi_length = get_name read umi_length ->
     aln ∉ index_reads (r2_only_reads_by_position index)).
Proof.
  intros index aln.
  destruct (index_init_spec umi_length multimap_cutoff stub_length bam)
    as (Hseen & _ & _ & Hb2 & Hr2 & _).
  fold index in Hb2, Hr2.
  set (seen := seen_1st umi_length multimap_cutoff stub_length bam) in *.
  assert (Hname : name aln ∈ seen <->
                  exists first, first ∈ bam /\ pysam.is_unmapped first = false /\
                                get_mate first = 1 /\
                                get_name first umi_length = get_name read umi_length).
  { rewrite Hseen. split.
    - intros (rd & Hrd & Hm & Hn). apply elem_of_mapped in Hrd as [? ?].
      by exists rd.
    - intros (rd & Hrd & Hu & Hm & Hn). exists rd.
      split; [by apply elem_of_mapped | done]. }
  split.
  - rewrite Hb2, list_elem_of_fmap, <- Hname. split.
    + intros (rd & Heq & Hrd).
      apply list_elem_of_filter in Hrd as [[Hsel _] _].
      apply second_sel_spec in Hsel as [_ Hnot]. by rewrite Heq.
    + intros Hnot. exists read. split; [done|].
      apply list_elem_of_filter. split; [|by apply elem_of_mapped].
      split; [by apply second_sel_spec | done].
  - intros first Hf Hu Hm _ Hn. rewrite Hr2.
    intros (rd & _ & Hsel & _ & Heq).
    apply second_sel_spec in Hsel as [_ Hnot]. apply Hnot.
    rewrite <- Heq. apply Hname. by exists first.
Qed.

Lemma second_mate_indexed_iff_first_mate_unseen_witness :
  summarize 6 5 20 Sample.second_unique ∉
  index_reads
    (r2_only_reads_by_position
       (AlignmentIndex_init 6 5 20 [Sample.first_multi; Sample.second_unique])).
Proof.
  apply (second_mate_indexed_iff_first_mate_unseen 6 5 20
           [Sample.first_multi; Sample.second_unique] Sample.second_unique
           ltac:(set_solver) eq_refl eq_refl eq_refl)
    with (first := Sample.first_multi);
    first [reflexivity | set_solver].
Defined.

(** C3 fails on the code: the first mate of [frag1] is in the file only
    as a multi-mapping record, its second mate maps uniquely, and the
    second index stays empty. *)
Lemma second_mate_of_multimapping_first_not_indexed :
  let first := Sample.first_multi in
  let second := Sample.second_unique in
  let index := AlignmentIndex_init 6 5 20 [first; second] in
  get_mate first = 1 /\ get_type first 5 = MULTI /\
  get_mate second = 2 /\ get_type second 5 = SINGLE /\
  get_name first 6 = get_name second 6 /\
  bucket (r2_only_reads_by_position index)
         (pysam.reference_name second) (pysam.reference_start second) = [] /\
  r2_only_reads_by_position index = [].
Proof. vm_compute. repeat split. Qed.

(** ** C6: which pool a fragment name can be in *)

Lemma NoDup_fmap_eq {A B} (f : A -> B) (l : list A) x y :
  NoDup (f <$> l) -> x ∈ l -> y ∈ l -> f x = f y -> x = y.
Proof.
  induction l as [|a l IH]; simpl; intros Hnd Hx Hy Hf.
  - by apply elem_of_nil in Hx.
  - apply NoDup_cons in Hnd as [Hnot Hnd].
    apply elem_of_cons in Hx as [->|Hx]; apply elem_of_cons in Hy as [->|Hy].
    + done.
    + exfalso. apply Hnot. rewrite Hf. by apply list_elem_of_fmap_2.
    + exfalso. apply Hnot. rewrite <- Hf. by apply list_elem_of_fmap_2.
    + by apply IH.
Qed.

(** C6, as the code has it.  On every input, no name of the first index
    occurs in the second index: every read of the second index is a
    uniquely mapping second mate whose name no mapped first mate carries,
    and the same holds for the second mates of the multimapper pool.
    A name is in at most one of the three pools for a given mate role
    when no two mapped records of the file are the same mate of the same
    fragment. *)
Theorem first_mate_names_stay_out_of_r2_only
    (umi_length multimap_cutoff stub_length : Z)
    (bam : list pysam.AlignedSegment) :
  let index := AlignmentIndex_init umi_length multimap_cutoff stub_length bam in
  let summary := summarize umi_length multimap_cutoff stub_length in
  let first_mate_named n :=
    exists first, first ∈ get_mapped_segments bam /\
                  mate (summary first) = 1 /\ name (summary first) = n in
  (forall a b,
     a ∈ index_reads (r1_reads_by_position index) ->
     b ∈ index_reads (r2_only_reads_by_position index) ->
     name a <> name b) /\
  (forall b,
     b ∈ index_reads (r2_only_reads_by_position index) ->
     mate b = 2 /\ type b = SINGLE /\ ~ first_mate_named (name b)) /\
  (forall c,
     c ∈ multimappers index -> mate c = 2 -> ~ first_mate_named (name c)) /\
  (NoDup (fragment_mate umi_length <$> get_mapped_segments bam) ->
   mate_exclusive index).
Proof.
  intros index summary first_mate_named.
  destruct (index_init_spec umi_length multimap_cutoff stub_length bam)
    as (Hseen & _ & Hr1 & _ & Hr2 & Hmulti).
  fold index in Hr1, Hr2, Hmulti. fold summary in Hseen, Hr1, Hr2, Hmulti.
  set (seen := seen_1st umi_length multimap_cutoff stub_length bam) in *.
  set (mapped := get_mapped_segments bam) in *.
  assert (Hsecond : forall b,
            b ∈ index_reads (r2_only_reads_by_position index) ->
            mate b = 2 /\ type b = SINGLE /\ ~ first_mate_named (name b)).
  { intros b Hb. apply Hr2 in Hb as (rd & _ & Hsel & Hty & ->).
    apply second_sel_spec in Hsel as [Hm Hnot].
    split; [done|]. split; [done|]. intros Hnamed. by apply Hnot, Hseen. }
  assert (Hpool : forall c,
            c ∈ multimappers index ->
            type c = MULTI /\ (exists rd, rd ∈ mapped /\ c = summary rd) /\
            (mate c = 1 \/ (mate c = 2 /\ ~ first_mate_named (name c)))).
  { intros c Hc. rewrite Hmulti, elem_of_app, !list_elem_of_fmap in Hc.
    destruct Hc as [(rd & -> & Hrd)|(rd & -> & Hrd)];
      apply list_elem_of_filter in Hrd as [[Hsel Hty] Hrd].
    - apply first_sel_spec in Hsel. split; [done|]. split; [by exists rd|].
      by left.
    - apply second_sel_spec in Hsel as [Hm Hnot].
      split; [done|]. split; [by exists rd|]. right. split; [done|].
      intros Hnamed. by apply Hnot, Hseen. }
  split; [|split; [exact Hsecond|split]].
  - intros a b Ha Hb Heq.
    apply Hr1 in Ha as (rd & Hrd & Hsel & _ & ->).
    apply first_sel_spec in Hsel.
    apply Hsecond in Hb as (_ & _ & Hnot). apply Hnot.
    exists rd. by rewrite Heq in *.
  - intros c Hc Hm. apply Hpool in Hc as (_ & _ & [?|[_ ?]]); [lia | done].
  - intros Hnd n m. simpl.
    assert (Hsame : forall x y,
              x ∈ mapped -> y ∈ mapped ->
              name (summary x) = name (summary y) ->
              mate (summary x) = mate (summary y) -> x = y).
    { intros x y Hx Hy Hn Hm.
      apply (NoDup_fmap_eq (fragment_mate umi_length) mapped x y Hnd Hx Hy).
      unfold fragment_mate. by f_equal. }
    split; [|split].
    + intros [(a & Ha & _ & Hma) (b & Hb & _ & Hmb)].
      apply Hr1 in Ha as (rd & _ & Hsel & _ & ->).
      apply first_sel_spec in Hsel.
      apply Hsecond in Hb as (Hb2 & _). fold summary in Hsel. lia.
    + intros [(a & Ha & Hna & Hma) (c & Hc & Hnc & Hmc)].
      apply Hr1 in Ha as (rd & Hrd & _ & Hty & ->).
      apply Hpool in Hc as (Htc & (rc & Hrc & ->) & _).
      assert (rd = rc) as -> by (apply Hsame; congruence).
      fold summary in Hty. congruence.
    + intros [(b & Hb & Hnb & Hmb) (c & Hc & Hnc & Hmc)].
      apply Hr2 in Hb as (rd & Hrd & _ & Hty & ->).
      apply Hpool in Hc as (Htc & (rc & Hrc & ->) & _).
      assert (rd = rc) as -> by (apply Hsame; congruence).
      fold summary in Hty. congruence.
Qed.

Lemma first_mate_names_stay_out_of_r2_only_witness :
  mate_exclusive
    (AlignmentIndex_init 6 5 20 [Sample.first_unique; Sample.other_second_unique]).
Proof.
  apply (first_mate_names_stay_out_of_r2_only 6 5 20
           [Sample.first_unique; Sample.other_second_unique]).
  refine (bool_decide_unpack _ _). vm_compute. exact I.
Defined.

(** C6 fails on the code: the file holds two first-mate records of
    [frag1], one uniquely mapping and one multi-mapping (a secondary
    alignment, say); the name is then in the first index and in the
    multimapper pool, both under the first-mate role. *)
Lemma first_mate_name_in_two_pools :
  ~ mate_exclusive
      (AlignmentIndex_init 6 5 20 [Sample.first_unique; Sample.first_multi]).
Proof.
  intros Hexcl. destruct (Hexcl "frag1"%string 1) as (_ & Hno & _).
  apply Hno. split.
  - exists (summarize 6 5 20 Sample.first_unique).
    split; [|by split]. vm_compute. apply list_elem_of_here.
  - exists (summarize 6 5 20 Sample.first_multi).
    split; [|by split]. vm_compute. apply list_elem_of_here.
Qed.


(** ** Byte containment *)

Section bytes_facts.
Implicit Types a b : list byte.

Lemma byte_eqb_refl (x : byte) : Byte.eqb x x = true.
Proof. by apply Byte.byte_dec_lb. Qed.

Lemma starts_with_refl a : Py.starts_with a a = true.
Proof. induction a as [|x a IH]; simpl; [done|]. by rewrite byte_eqb_refl, IH. Qed.

Lemma bytes_in_refl a : Py.bytes_in a a = true.
Proof. destruct a; simpl; [done|]. by rewrite byte_eqb_refl, starts_with_refl. Qed.

Lemma starts_with_length a b :
  Py.starts_with a b = true -> (length a <= length b)%nat.
Proof.
  revert b; induction a as [|x a IH]; intros [|y b]; simpl; try done; try lia.
  intros [_ Hs]%andb_prop. apply IH in Hs. lia.
Qed.

Lemma starts_with_same_length a b :
  Py.starts_with a b = true -> length a = length b -> a = b.
Proof.
  revert b; induction a as [|x a IH]; intros [|y b]; simpl; try done.
  intros [Hxy Hs]%andb_prop [= Hlen].
  apply Byte.byte_dec_bl in Hxy as ->. f_equal. by apply IH.
Qed.

Lemma bytes_in_length a b :
  Py.bytes_in a b = true -> (length a <= length b)%nat.
Proof.
  induction b as [|y b IH]; simpl.
  - rewrite orb_false_r. apply starts_with_length.
  - intros [Hs|Hin]%orb_prop.
    + by apply starts_with_length in Hs.
    + apply IH in Hin. lia.
Qed.

(** Between two sequences of one length, containment is equality. *)
Lemma bytes_in_same_length a b :
  length a = length b -> Py.bytes_in a b = true <-> a = b.
Proof.
  intros Hlen. split; [|intros ->; apply bytes_in_refl].
  destruct b as [|y b]; simpl.
  - rewrite orb_false_r. intros Hs. by apply starts_with_same_length.
  - intros [Hs|Hin]%orb_prop.
    + by apply starts_with_same_length.
    + apply bytes_in_length in Hin. simpl in Hlen. lia.
Qed.

End bytes_facts.

(** ** Counting sequences *)

Section count_facts.
Implicit Types (counts : umi_counts) (u s : list byte).

Lemma count_step_keys counts s u :
  u ∈ keys (count_step counts s) <-> u = s \/ u ∈ keys counts.
Proof.
  unfold count_step, defaultdict_getitem.
  destruct (dict_get s counts); rewrite !keys_dict_set; tauto.
Qed.

Lemma count_step_NoDup counts s :
  NoDup (keys counts) -> NoDup (keys (count_step counts s)).
Proof.
  unfold count_step, defaultdict_getitem. intros Hnd.
  destruct (dict_get s counts); by repeat apply keys_dict_set_NoDup.
Qed.

Lemma fold_count_keys seq_list counts u :
  u ∈ keys (fold_left count_step seq_list counts) <->
  u ∈ seq_list \/ u ∈ keys counts.
Proof.
  revert counts. induction seq_list as [|s l IH]; intros counts; simpl.
  - rewrite elem_of_nil. tauto.
  - rewrite IH, count_step_keys, elem_of_cons. tauto.
Qed.

Lemma fold_count_NoDup seq_list counts :
  NoDup (keys counts) -> NoDup (keys (fold_left count_step seq_list counts)).
Proof.
  revert counts. induction seq_list as [|s l IH]; intros counts Hnd; simpl.
  - done.
  - by apply IH, count_step_NoDup.
Qed.

Lemma count_sequences_keys seq_list u :
  u ∈ keys (count_sequences seq_list) <-> u ∈ seq_list.
Proof.
  unfold count_sequences.
  rewrite fold_count_keys. unfold keys. simpl. rewrite elem_of_nil. tauto.
Qed.

Lemma count_sequences_NoDup seq_list : NoDup (keys (count_sequences seq_list)).
Proof.
  unfold count_sequences.
  apply fold_count_NoDup. unfold keys. simpl. apply NoDup_nil_2.
Qed.

End count_facts.

(** ** Picking the best read *)

Section pick_facts.
Implicit Types (r best : AlignedSegmentSummary) (l : list AlignedSegmentSummary).

(** The running best is the first read of maximal score among those
    already passed. *)
Lemma fold_better rest :
  forall before best after,
    (forall r, r ∈ before -> score r < score best) ->
    (forall r, r ∈ after -> score r <= score best) ->
    exists before' after',
      before ++ best :: after ++ rest =
      before' ++ fold_left better rest best :: after' /\
      (forall r, r ∈ before' -> score r < score (fold_left better rest best)) /\
      (forall r, r ∈ after' -> score r <= score (fold_left better rest best)).
Proof.
  induction rest as [|x rest IH]; intros before best after Hlt Hle; simpl.
  - exists before, after. by rewrite app_nil_r.
  - unfold better at 2 4 6. destruct (Z.ltb_spec (score best) (score x)) as [Hx|Hx].
    + destruct (IH (before ++ best :: after) x []) as (b' & a' & Heq & ? & ?).
      * intros r [Hr|Hr]%elem_of_app; [apply Hlt in Hr; lia|].
        apply elem_of_cons in Hr as [->|Hr]; [done|]. apply Hle in Hr; lia.
      * intros r Hr. by apply elem_of_nil in Hr.
      * exists b', a'. split; [|done]. rewrite <- Heq. simpl.
        by rewrite <- !app_assoc.
    + destruct (IH before best (after ++ [x])) as (b' & a' & Heq & ? & ?).
      * done.
      * intros r [Hr|Hr]%elem_of_app; [by apply Hle|].
        apply list_elem_of_singleton in Hr as ->. lia.
      * exists b', a'. split; [|done]. rewrite <- Heq.
        by rewrite <- !app_assoc.
Qed.

Lemma pick_best_spec r0 rest :
  exists best before after,
    pick_best (r0 :: rest) = Returned best /\
    r0 :: rest = before ++ best :: after /\
    (forall r, r ∈ before -> score r < score best) /\
    (forall r, r ∈ after -> score r <= score best).
Proof.
  destruct (fold_better rest [] r0 []) as (b' & a' & Heq & Hlt & Hle).
  - intros r Hr. by apply elem_of_nil in Hr.
  - intros r Hr. by apply elem_of_nil in Hr.
  - exists (fold_left better rest r0), b', a'. by repeat split.
Qed.

End pick_facts.

(** ** The loop over the clusters *)

Section resolver_facts.
Variable UMIClusterer : umi_counts -> Z -> outcome umi_clusters.
Hypothesis Hheads : well_headed UMIClusterer.
Implicit Types (read_list : list AlignedSegmentSummary).

Lemma mapM_Returned {A B} (f : A -> outcome B) (l : list A) :
  (forall x, x ∈ l -> exists y, f x = Returned y) ->
  exists ys, mapM f l = Returned ys /\ Forall2 (fun x y => f x = Returned y) l ys.
Proof.
  induction l as [|x l IH]; intros Hall.
  - exists []. by split.
  - destruct (Hall x) as [y Hy]; [apply elem_of_cons; by left|].
    destruct IH as (ys & Hys & Hf2).
    { intros z Hz. apply Hall, elem_of_cons. by right. }
    exists (y :: ys). split; [|by constructor].
    simpl. rewrite Hy. simpl. rewrite Hys. done.
Qed.

Lemma elem_of_filter_by_attribute read_list c0 r :
  r ∈ filter_by_attribute read_list c0 umi <->
  Py.bytes_in (umi r) c0 = true /\ r ∈ read_list.
Proof. unfold filter_by_attribute. by rewrite list_elem_of_filter, Is_true_true. Qed.

Lemma cluster_head read_list mismatches clusters (c : list (list byte)) :
  cluster_sequences UMIClusterer (umi <$> read_list) mismatches
    = Returned clusters ->
  c ∈ clusters ->
  exists c0 rest r, c = c0 :: rest /\ r ∈ read_list /\ umi r = c0.
Proof.
  unfold cluster_sequences.
  destruct (0 <? Z.of_nat (length (umi <$> read_list))).
  - intros Hret Hc. destruct (Hheads _ _ _ _ Hret Hc) as (c0 & rest & -> & Hkey).
    apply (count_sequences_keys (umi <$> read_list)) in Hkey.
    apply list_elem_of_fmap in Hkey as (r & -> & Hr).
    by exists (umi r), rest, r.
  - intros [= <-] Hc. by apply elem_of_nil in Hc.
Qed.

(** The read kept for a cluster: the first read of maximal score among
    those whose UMI is contained in the first UMI of the cluster. *)
Lemma unique_read_spec read_list mismatches clusters (c : list (list byte)) :
  cluster_sequences UMIClusterer (umi <$> read_list) mismatches
    = Returned clusters ->
  c ∈ clusters ->
  exists c0 rest survivor before after,
    c = c0 :: rest /\
    unique_read read_list c = Returned survivor /\
    filter_by_attribute read_list c0 umi = before ++ survivor :: after /\
    (forall r, r ∈ before -> score r < score survivor) /\
    (forall r, r ∈ after -> score r <= score survivor).
Proof.
  intros Hret Hc.
  destruct (cluster_head _ _ _ _ Hret Hc) as (c0 & rest & r & -> & Hr & Humi).
  exists c0, rest. unfold unique_read.
  assert (Hin : r ∈ filter_by_attribute read_list c0 umi).
  { apply elem_of_filter_by_attribute. split; [|done].
    rewrite Humi. apply bytes_in_refl. }
  destruct (filter_by_attribute read_list c0 umi) as [|r0 [|r1 l]] eqn:Hsub.
  - by apply elem_of_nil in Hin.
  - simpl. exists r0, [], []. repeat split; try done.
    + intros x Hx. by apply elem_of_nil in Hx.
    + intros x Hx. by apply elem_of_nil in Hx.
  - replace (1 <? Z.of_nat (length (r0 :: r1 :: l))) with true
      by (symmetry; apply Z.ltb_lt; simpl; lia).
    destruct (pick_best_spec r0 (r1 :: l)) as (best & b' & a' & Hp & Heq & ? & ?).
    exists best, b', a'. by repeat split.
Qed.

Lemma mark_duplicates_by_umi_spec read_list mismatches clusters :
  cluster_sequences UMIClusterer (umi <$> read_list) mismatches
    = Returned clusters ->
  exists survivors,
    Forall2 (fun c s => unique_read read_list c = Returned s)
            clusters survivors /\
    mark_duplicates_by_umi UMIClusterer read_list mismatches =
    Returned
      (name <$>
         filter (fun r => name r ∉ (list_to_set (name <$> survivors) : gset string))
                read_list).
Proof.
  intros Hret.
  destruct (mapM_Returned (unique_read read_list) clusters)
    as (survivors & Hm & Hf2).
  - intros c Hc.
    destruct (unique_read_spec _ _ _ _ Hret Hc) as (? & ? & s & ? & ? & _ & Hs & _).
    by exists s.
  - exists survivors. split; [done|].
    unfold mark_duplicates_by_umi. rewrite Hret. simpl. rewrite Hm. done.
Qed.

End resolver_facts.

(** ** The directional clusterer *)

Section directional_facts.
Variable counts : umi_counts.
Variable threshold : Z.

Local Abbreviation highest := (Directional.highest counts).
Local Abbreviation grow := (Directional.grow counts threshold).
Local Abbreviation absorb := (Directional.absorb counts threshold).
Local Abbreviation assign := (Directional.assign counts threshold).

Implicit Types (remaining cluster : list (list byte)) (u seed : list byte).

Lemma highest_elem remaining seed : highest remaining = Some seed -> seed ∈ remaining.
Proof.
  revert seed. induction remaining as [|u rest IH]; intros seed; simpl; [done|].
  destruct (highest rest) as [v|].
  - destruct (Directional.count counts u <? Directional.count counts v);
      intros [= <-].
    + apply elem_of_cons. right. by apply IH.
    + apply elem_of_cons. by left.
  - intros [= <-]. apply elem_of_cons. by left.
Qed.

Lemma highest_None remaining : highest remaining = None -> remaining = [].
Proof.
  destruct remaining as [|u rest]; simpl; [done|].
  destruct (highest rest) as [v|]; [|done].
  by destruct (Directional.count counts u <? Directional.count counts v).
Qed.

Lemma grow_elem remaining cluster u :
  u ∈ grow remaining cluster -> u ∈ cluster \/ u ∈ remaining.
Proof.
  unfold Directional.grow. rewrite elem_of_app, list_elem_of_filter. tauto.
Qed.

Lemma grow_NoDup remaining cluster :
  NoDup remaining -> NoDup cluster -> NoDup (grow remaining cluster).
Proof.
  intros Hr Hc. unfold Directional.grow. apply NoDup_app.
  split; [done|]. split; [|by apply NoDup_filter].
  intros u Hu Hf. apply list_elem_of_filter in Hf as [[Hnot _] _]. done.
Qed.

Lemma grow_head remaining seed rest :
  exists rest', grow remaining (seed :: rest) = seed :: rest'.
Proof. unfold Directional.grow. simpl. by eexists. Qed.

Lemma absorb_elem rounds remaining cluster u :
  u ∈ absorb rounds remaining cluster -> u ∈ cluster \/ u ∈ remaining.
Proof.
  revert cluster. induction rounds as [|n IH]; intros cluster; simpl; [by left|].
  intros [Hu|Hu]%IH; [|by right]. by apply grow_elem in Hu.
Qed.

Lemma absorb_NoDup rounds remaining cluster :
  NoDup remaining -> NoDup cluster -> NoDup (absorb rounds remaining cluster).
Proof.
  intros Hr. revert cluster. induction rounds as [|n IH]; intros cluster Hc; simpl.
  - done.
  - by apply IH, grow_NoDup.
Qed.

Lemma absorb_head rounds remaining seed rest :
  exists rest', absorb rounds remaining (seed :: rest) = seed :: rest'.
Proof.
  revert rest. induction rounds as [|n IH]; intros rest; simpl; [by eexists|].
  destruct (grow_head remaining seed rest) as [rest' ->]. apply IH.
Qed.

(** A round that adds nothing leaves the cluster closed under the edges
    into the unclustered UMIs; any other round makes it longer. *)
Lemma grow_fixed_closed remaining cluster :
  grow remaining cluster = cluster ->
  forall a b, a ∈ cluster -> b ∈ remaining ->
              Directional.edge counts threshold a b = true -> b ∈ cluster.
Proof.
  unfold Directional.grow. intros Hfix a b Ha Hb Hedge.
  destruct (decide (b ∈ cluster)) as [|Hnot]; [done|]. exfalso.
  assert (Hnil : filter (fun b => (b ∉ cluster) /\
                           existsb (fun a => Directional.edge counts threshold a b)
                                   cluster) remaining = []).
  { apply (app_inv_head cluster). by rewrite app_nil_r. }
  eapply (filter_nil_not_elem_of _ _ b Hnil); [|done].
  split; [done|]. apply Is_true_true, existsb_exists.
  exists a. split; [by apply list_elem_of_In | done].
Qed.

Lemma grow_longer remaining cluster :
  grow remaining cluster <> cluster ->
  (length cluster < length (grow remaining cluster))%nat.
Proof.
  unfold Directional.grow. intros Hne. rewrite length_app.
  destruct (filter _ remaining) as [|b l]; simpl; [|lia].
  by rewrite app_nil_r in Hne.
Qed.

Lemma absorb_fixed rounds remaining cluster :
  grow remaining cluster = cluster -> absorb rounds remaining cluster = cluster.
Proof.
  intros Hfix. induction rounds as [|n IH]; simpl; [done|]. by rewrite Hfix.
Qed.

(** One round per unclustered UMI is enough to reach every UMI that the
    edges lead to. *)
Lemma absorb_closed rounds remaining :
  NoDup remaining ->
  forall cluster,
    NoDup cluster -> (forall u, u ∈ cluster -> u ∈ remaining) ->
    (length remaining < length cluster + rounds)%nat ->
    grow remaining (absorb rounds remaining cluster) =
    absorb rounds remaining cluster.
Proof.
  intros Hr. induction rounds as [|n IH]; intros cluster Hc Hsub Hlen.
  - exfalso. pose proof (submseteq_length _ _ (NoDup_submseteq _ _ Hc Hsub)). lia.
  - simpl. destruct (decide (grow remaining cluster = cluster)) as [Hfix|Hne].
    + by rewrite Hfix, absorb_fixed.
    + apply IH.
      * by apply grow_NoDup.
      * intros u [Hu|Hu]%grow_elem; [by apply Hsub | done].
      * apply grow_longer in Hne. lia.
Qed.

Lemma assign_first_cluster_closed steps remaining seed :
  NoDup remaining -> highest remaining = Some seed ->
  exists cluster rest,
    assign (S steps) remaining = cluster :: rest /\
    seed ∈ cluster /\
    forall a b, a ∈ cluster -> b ∈ remaining ->
                Directional.edge counts threshold a b = true -> b ∈ cluster.
Proof.
  intros Hnd Hseed. simpl. rewrite Hseed. eexists _, _. split; [done|].
  split.
  - destruct (absorb_head (length remaining) remaining seed []) as [r ->].
    apply elem_of_cons. by left.
  - apply grow_fixed_closed, absorb_closed; [done | apply NoDup_singleton | |].
    + intros u Hu. apply list_elem_of_singleton in Hu as ->.
      by apply highest_elem.
    + simpl. lia.
Qed.

(** Every cluster starts with its seed, which was unclustered. *)
Lemma assign_heads steps remaining (c : list (list byte)) :
  c ∈ assign steps remaining ->
  exists c0 rest, c = c0 :: rest /\ c0 ∈ remaining.
Proof.
  revert remaining. induction steps as [|n IH]; intros remaining; simpl.
  - intros Hc. by apply elem_of_nil in Hc.
  - destruct (highest remaining) as [seed|] eqn:Hseed.
    + intros [->|Hc]%elem_of_cons.
      * destruct (absorb_head (length remaining) remaining seed []) as [rest ->].
        exists seed, rest. split; [done|]. by apply highest_elem.
      * apply IH in Hc as (c0 & rest & -> & Hc0).
        apply list_elem_of_filter in Hc0 as [_ Hc0]. by exists c0, rest.
    + intros Hc. by apply elem_of_nil in Hc.
Qed.

(** With one step per UMI, every UMI is assigned, and to one cluster. *)
Lemma assign_partitions steps remaining :
  NoDup remaining -> (length remaining <= steps)%nat ->
  partitions (assign steps remaining) remaining.
Proof.
  revert remaining. induction steps as [|n IH]; intros remaining Hnd Hlen.
  - destruct remaining; [|simpl in Hlen; lia]. simpl.
    split; [done|]. split; [apply NoDup_nil_2|].
    intros c Hc. by apply elem_of_nil in Hc.
  - simpl. destruct (highest remaining) as [seed|] eqn:Hseed.
    + set (cluster := absorb (length remaining) remaining [seed]).
      set (rest := filter (fun u => u ∉ cluster) remaining).
      assert (Hseed_in : seed ∈ remaining) by by apply highest_elem.
      assert (Hseed_cl : seed ∈ cluster).
      { subst cluster.
        destruct (absorb_head (length remaining) remaining seed []) as [r ->].
        apply elem_of_cons. by left. }
      assert (Hsub : forall u, u ∈ cluster -> u ∈ remaining).
      { intros u [Hu|Hu]%absorb_elem; [|done].
        by apply list_elem_of_singleton in Hu as ->. }
      assert (Hcl_nd : NoDup cluster).
      { apply absorb_NoDup; [done | apply NoDup_singleton]. }
      destruct (IH rest) as (Hcover & Hnd' & Hne).
      { by apply NoDup_filter. }
      { assert (length rest < length remaining)%nat; [|lia].
        apply (length_filter_lt _ _ seed); [done | by intros Hn]. }
      split; [|split].
      * intros u. simpl. rewrite elem_of_app, Hcover.
        unfold rest. rewrite list_elem_of_filter. split.
        -- intros [Hu|[_ Hu]]; [by apply Hsub | done].
        -- intros Hu. destruct (decide (u ∈ cluster)); [by left | by right].
      * simpl. apply NoDup_app. split; [done|]. split; [|done].
        intros u Hu Hin. apply Hcover in Hin.
        apply list_elem_of_filter in Hin as [Hnot _]. done.
      * intros c [->|Hc]%elem_of_cons; [|by apply Hne].
        intros Hnil. rewrite Hnil in Hseed_cl. by apply elem_of_nil in Hseed_cl.
    + apply highest_None in Hseed as ->.
      split; [done|]. split; [apply NoDup_nil_2|].
      intros c Hc. by apply elem_of_nil in Hc.
Qed.

End directional_facts.

Lemma directional_call_returned counts threshold clusters :
  Directional.call counts threshold = Returned clusters ->
  clusters = Directional.UMIClusterer counts threshold.
Proof.
  unfold Directional.call. destruct (keys counts) as [|u umis]; [done|].
  destruct (forallb _ umis); [|done]. by intros [= <-].
Qed.

Lemma directional_well_headed : well_headed Directional.call.
Proof.
  intros counts threshold clusters c Hret Hc.
  apply directional_call_returned in Hret as ->.
  unfold Directional.UMIClusterer in Hc.
  by apply assign_heads in Hc.
Qed.

(** The call returns when the UMIs have one length. *)
Lemma directional_call_one_length counts threshold (n : nat) :
  counts <> [] ->
  (forall u, u ∈ keys counts -> length u = n) ->
  Directional.call counts threshold =
  Returned (Directional.UMIClusterer counts threshold).
Proof.
  intros Hne Hlen. unfold Directional.call.
  destruct (keys counts) as [|u umis] eqn:Hkeys.
  - destruct counts; [done | discriminate Hkeys].
  - replace (forallb (fun v => Nat.eqb (length v) (length u)) umis) with true; [done|].
    symmetry. apply forallb_forall. intros v Hv.
    apply Nat.eqb_eq. rewrite (Hlen u), (Hlen v); [done | |].
    + apply elem_of_cons. right. by apply list_elem_of_In.
    + apply elem_of_cons. by left.
Qed.

Lemma directional_partitions counts threshold :
  NoDup (keys counts) -> partitions (Directional.UMIClusterer counts threshold) (keys counts).
Proof.
  intros Hnd. unfold Directional.UMIClusterer.
  apply assign_partitions; [done|]. unfold keys. by rewrite length_fmap.
Qed.

(** ** C1, C10: what one bucket reports *)

Lemma Forall2_elem_l {A B} (R : A -> B -> Prop) l k x :
  Forall2 R l k -> x ∈ l -> exists y, y ∈ k /\ R x y.
Proof.
  intros Hf Hx. apply list_elem_of_lookup_1 in Hx as [i Hi].
  destruct (Forall2_lookup_l R l k i x Hf Hi) as (y & Hy & HR).
  exists y. split; [by eapply list_elem_of_lookup_2 | done].
Qed.

(** C1, as the code has it.  For every cluster that the clusterer
    returns for a bucket, the candidates selected are those whose UMI is
    contained in the first UMI of the cluster, its representative (for
    UMIs of one length: equal to it), not those of every member.  The
    read kept is the first one of maximal score among the selected.
    Every candidate of the bucket whose fragment name is not the name of
    a kept read is reported. *)
Theorem survivor_is_best_read_of_representative_umi
    (UMIClusterer : umi_counts -> Z -> outcome umi_clusters)
    (Hheads : well_headed UMIClusterer)
    (read_list : list AlignedSegmentSummary) (mismatches : Z)
    (clusters : umi_clusters)
    (Hret : cluster_sequences UMIClusterer (umi <$> read_list) mismatches
            = Returned clusters)
    (c : list (list byte))
    (Hc : c ∈ clusters) :
  exists c0 rest survivor before after survivors dups,
    c = c0 :: rest /\
    (forall r, r ∈ filter_by_attribute read_list c0 umi <->
               Py.bytes_in (umi r) c0 = true /\ r ∈ read_list) /\
    (forall r, r ∈ read_list -> length (umi r) = length c0 ->
               (r ∈ filter_by_attribute read_list c0 umi <-> umi r = c0)) /\
    unique_read read_list c = Returned survivor /\
    filter_by_attribute read_list c0 umi = before ++ survivor :: after /\
    (forall r, r ∈ before -> score r < score survivor) /\
    (forall r, r ∈ after -> score r <= score survivor) /\
    Forall2 (fun c s => unique_read read_list c = Returned s)
            clusters survivors /\
    survivor ∈ survivors /\
    mark_duplicates_by_umi UMIClusterer read_list mismatches = Returned dups /\
    (forall r, r ∈ read_list ->
               (forall s, s ∈ survivors -> name s <> name r) ->
               name r ∈ dups).
Proof.
  destruct (unique_read_spec UMIClusterer Hheads read_list mismatches clusters c
              Hret Hc)
    as (c0 & rest & survivor & before & after & -> & Hs & Hsub & Hlt & Hle).
  destruct (mark_duplicates_by_umi_spec UMIClusterer Hheads read_list mismatches
              clusters Hret)
    as (survivors & Hf2 & Hmark).
  exists c0, rest, survivor, before, after, survivors. eexists.
  split; [done|]. split; [apply elem_of_filter_by_attribute|].
  split.
  { intros r Hr Hlen. rewrite elem_of_filter_by_attribute.
    rewrite (bytes_in_same_length _ _ Hlen). tauto. }
  split; [done|]. split; [done|]. split; [done|]. split; [done|].
  split; [done|]. split.
  { destruct (Forall2_elem_l _ _ _ _ Hf2 Hc) as (s & Hin & Hs').
    rewrite Hs in Hs'. by injection Hs' as ->. }
  split; [exact Hmark|].
  intros r Hr Hnames. apply list_elem_of_fmap. exists r. split; [done|].
  apply list_elem_of_filter. split; [|done].
  rewrite elem_of_list_to_set, list_elem_of_fmap.
  intros (s & Heq & Hin). by apply (Hnames s).
Qed.

Lemma survivor_is_best_read_of_representative_umi_witness :
  exists c0 rest survivor before after survivors dups,
    [umi Sample.low_A; umi Sample.high_T] = c0 :: rest /\
    (forall r, r ∈ filter_by_attribute [Sample.low_A; Sample.high_T] c0 umi <->
               Py.bytes_in (umi r) c0 = true /\
               r ∈ [Sample.low_A; Sample.high_T]) /\
    (forall r, r ∈ [Sample.low_A; Sample.high_T] ->
               length (umi r) = length c0 ->
               (r ∈ filter_by_attribute [Sample.low_A; Sample.high_T] c0 umi
                <-> umi r = c0)) /\
    unique_read [Sample.low_A; Sample.high_T]
                [umi Sample.low_A; umi Sample.high_T] = Returned survivor /\
    filter_by_attribute [Sample.low_A; Sample.high_T] c0 umi =
      before ++ survivor :: after /\
    (forall r, r ∈ before -> score r < score survivor) /\
    (forall r, r ∈ after -> score r <= score survivor) /\
    Forall2 (fun c s => unique_read [Sample.low_A; Sample.high_T] c = Returned s)
            [[umi Sample.low_A; umi Sample.high_T]]
            survivors /\
    survivor ∈ survivors /\
    mark_duplicates_by_umi Directional.call
                           [Sample.low_A; Sample.high_T] 1 = Returned dups /\
    (forall r, r ∈ [Sample.low_A; Sample.high_T] ->
               (forall s, s ∈ survivors -> name s <> name r) ->
               name r ∈ dups).
Proof.
  apply (survivor_is_best_read_of_representative_umi
           Directional.call directional_well_headed
           [Sample.low_A; Sample.high_T] 1
           [[umi Sample.low_A; umi Sample.high_T]]).
  - vm_compute. reflexivity.
  - apply list_elem_of_here.
Defined.

(** C1 fails on the code: two reads of one bucket carry UMIs one
    mismatch apart, which the clusterer puts in one cluster; both reads
    have a UMI of that cluster and the second has the higher score, yet
    the second is the one reported as a duplicate, because the first
    carries the representative UMI. *)
Lemma best_scoring_cluster_member_is_reported :
  let read_list := [Sample.low_A; Sample.high_T] in
  let c := [umi Sample.low_A; umi Sample.high_T] in
  cluster_sequences Directional.call (umi <$> read_list) 1 = Returned [c] /\
  filter (fun r => umi r ∈ c) read_list = read_list /\
  score Sample.low_A < score Sample.high_T /\
  mark_duplicates_by_umi Directional.call read_list 1 =
    Returned [name Sample.high_T].
Proof. vm_compute. repeat split. Qed.

(** C10.  What a bucket reports is decided by fragment name: a candidate
    is reported exactly when its name is the name of no kept read, and
    nothing but names of candidates is reported.  So when two candidates
    share a name and one of them is kept, neither is reported. *)
Theorem duplicates_are_keyed_by_fragment_name
    (UMIClusterer : umi_counts -> Z -> outcome umi_clusters)
    (Hheads : well_headed UMIClusterer)
    (read_list : list AlignedSegmentSummary) (mismatches : Z)
    (clusters : umi_clusters)
    (Hret : cluster_sequences UMIClusterer (umi <$> read_list) mismatches
            = Returned clusters) :
  exists survivors dups,
    Forall2 (fun c s => unique_read read_list c = Returned s)
            clusters survivors /\
    mark_duplicates_by_umi UMIClusterer read_list mismatches = Returned dups /\
    (forall r, r ∈ read_list ->
               (name r ∈ dups <-> forall s, s ∈ survivors -> name s <> name r)) /\
    (forall n, n ∈ dups -> exists r, r ∈ read_list /\ name r = n) /\
    (forall r1 r2,
       r1 ∈ read_list -> r2 ∈ read_list -> name r1 = name r2 ->
       r1 ∈ survivors \/ r2 ∈ survivors ->
       (name r1 ∉ dups) /\ (name r2 ∉ dups)).
Proof.
  destruct (mark_duplicates_by_umi_spec UMIClusterer Hheads read_list mismatches
              clusters Hret)
    as (survivors & Hf2 & Hmark).
  exists survivors. eexists. split; [done|]. split; [exact Hmark|].
  assert (Hrep : forall n,
            n ∈ name <$> filter (fun r => name r ∉ (list_to_set (name <$> survivors)
                                                   : gset string)) read_list <->
            (exists r, r ∈ read_list /\ name r = n) /\
            forall s, s ∈ survivors -> name s <> n).
  { intros n. rewrite list_elem_of_fmap. split.
    - intros (r & -> & Hr). apply list_elem_of_filter in Hr as [Hnot Hr].
      split; [by exists r|]. intros s Hs Heq. apply Hnot.
      rewrite elem_of_list_to_set, list_elem_of_fmap. by exists s.
    - intros [(r & Hr & <-) Hnames]. exists r. split; [done|].
      apply list_elem_of_filter. split; [|done].
      rewrite elem_of_list_to_set, list_elem_of_fmap.
      intros (s & Heq & Hs). by apply (Hnames s). }
  split; [|split].
  - intros r Hr. rewrite Hrep. split; [tauto|]. intros Hn. split; [by exists r | done].
  - intros n Hn. by apply Hrep in Hn as [? _].
  - intros r1 r2 Hr1 Hr2 Heq Hkept. rewrite !Hrep.
    split; intros [_ Hn]; destruct Hkept as [Hk|Hk]; apply (Hn _ Hk); congruence.
Qed.

Lemma duplicates_are_keyed_by_fragment_name_witness :
  exists survivors dups,
    Forall2 (fun c s =>
               unique_read [Sample.twin_1; Sample.twin_2; Sample.third] c = Returned s)
            [[umi Sample.twin_1]]
            survivors /\
    mark_duplicates_by_umi Directional.call
      [Sample.twin_1; Sample.twin_2; Sample.third] 1 = Returned dups /\
    (forall r, r ∈ [Sample.twin_1; Sample.twin_2; Sample.third] ->
               (name r ∈ dups <-> forall s, s ∈ survivors -> name s <> name r)) /\
    (forall n, n ∈ dups ->
               exists r, r ∈ [Sample.twin_1; Sample.twin_2; Sample.third] /\
                         name r = n) /\
    (forall r1 r2,
       r1 ∈ [Sample.twin_1; Sample.twin_2; Sample.third] ->
       r2 ∈ [Sample.twin_1; Sample.twin_2; Sample.third] ->
       name r1 = name r2 ->
       r1 ∈ survivors \/ r2 ∈ survivors ->
       (name r1 ∉ dups) /\ (name r2 ∉ dups)).
Proof.
  apply (duplicates_are_keyed_by_fragment_name
           Directional.call directional_well_headed
           [Sample.twin_1; Sample.twin_2; Sample.third] 1
           [[umi Sample.twin_1]]).
  vm_compute. reflexivity.
Defined.

(** ** C8: cluster coverage *)

Lemma cluster_sequences_directional seq_list mismatches :
  seq_list <> [] ->
  cluster_sequences Directional.call seq_list mismatches =
  Directional.call (count_sequences seq_list) mismatches.
Proof.
  intros Hne. unfold cluster_sequences.
  destruct seq_list as [|s l]; [done|].
  by replace (0 <? Z.of_nat (length (s :: l))) with true
    by (symmetry; apply Z.ltb_lt; simpl; lia).
Qed.

(** C8.  The clusters of the directional clusterer cover the UMIs of the
    counts it is given exactly: every UMI is in a cluster, every member
    of a cluster is one of the UMIs, and no UMI is listed twice.  The
    same holds of the clusters [cluster_sequences] returns and the UMIs
    of its list; it returns them when the UMIs have one length, it
    raises the assertion of the clusterer when they have two, and an
    empty list gives no cluster. *)
Theorem directional_clusters_cover_the_input :
  (forall counts threshold,
     NoDup (keys counts) ->
     partitions (Directional.UMIClusterer counts threshold) (keys counts)) /\
  (forall seq_list mismatches clusters,
     cluster_sequences Directional.call seq_list mismatches = Returned clusters ->
     partitions clusters seq_list) /\
  (forall seq_list mismatches (n : nat),
     (forall u, u ∈ seq_list -> length u = n) ->
     exists clusters,
       cluster_sequences Directional.call seq_list mismatches = Returned clusters) /\
  (forall seq_list mismatches u v,
     u ∈ seq_list -> v ∈ seq_list -> length u <> length v ->
     cluster_sequences Directional.call seq_list mismatches
       = Raised AssertionError) /\
  (forall clusterer mismatches,
     cluster_sequences clusterer [] mismatches = Returned []).
Proof.
  split; [exact directional_partitions|].
  split; [|split; [|split; [|done]]].
  - intros seq_list mismatches clusters.
    destruct seq_list as [|s l].
    + intros [= <-]. split; [done|]. split; [apply NoDup_nil_2|].
      intros c Hc. by apply elem_of_nil in Hc.
    + rewrite cluster_sequences_directional by done.
      intros Hret. apply directional_call_returned in Hret as ->.
      destruct (directional_partitions (count_sequences (s :: l)) mismatches)
        as (Hcover & Hnd & Hne); [apply count_sequences_NoDup|].
      split; [|done].
      intros u. by rewrite Hcover, count_sequences_keys.
  - intros seq_list mismatches n Hlen.
    destruct seq_list as [|s l]; [by eexists|].
    rewrite cluster_sequences_directional by done.
    eexists. apply (directional_call_one_length _ _ n).
    + intros Hnil.
      assert (Hk : s ∈ keys (count_sequences (s :: l))).
      { apply count_sequences_keys, elem_of_cons. by left. }
      rewrite Hnil in Hk. by apply elem_of_nil in Hk.
    + intros u Hu. by apply Hlen, count_sequences_keys.
  - intros seq_list mismatches u v Hu Hv Hdiff.
    rewrite cluster_sequences_directional
      by (intros ->; by apply elem_of_nil in Hu).
    apply count_sequences_keys in Hu, Hv.
    unfold Directional.call.
    destruct (keys (count_sequences seq_list)) as [|k ks];
      [by apply elem_of_nil in Hu|].
    destruct (forallb (fun w => Nat.eqb (length w) (length k)) ks) eqn:Hall;
      [|done].
    exfalso. apply Hdiff.
    assert (Hk : forall w, w ∈ k :: ks -> length w = length k).
    { intros w [->|Hw]%elem_of_cons; [done|].
      apply Nat.eqb_eq.
      apply (proj1 (forallb_forall _ ks) Hall w).
      by apply list_elem_of_In. }
    by rewrite (Hk u Hu), (Hk v Hv).
Qed.

Lemma directional_clusters_cover_the_input_witness :
  partitions
    (Directional.UMIClusterer
       [(Py.encode "AAAAAA", 2); (Py.encode "AAAAAT", 1); (Py.encode "CCCCCC", 1)] 1)
    (keys [(Py.encode "AAAAAA", 2); (Py.encode "AAAAAT", 1); (Py.encode "CCCCCC", 1)]).
Proof.
  apply directional_clusters_cover_the_input.
  refine (bool_decide_unpack _ _). vm_compute. exact I.
Defined.


(** * Further properties *)

(** ** Slices with other bounds *)

Section more_slices.

Lemma str_take_all n s :
  (String.length s <= n)%nat -> Py.str_take n s = s.
Proof.
  revert s; induction n as [|n IH]; intros [|c s]; simpl; try done; try lia.
  intros Hlen. rewrite IH; [done | lia].
Qed.


(** A bound that is not negative is clipped to the length, and clipping
    does not change what is taken or dropped. *)
Lemma slice_to_nonneg s i :
  0 <= i -> Py.slice_to s i = Py.str_take (Z.to_nat i) s.
Proof.
  intros Hi. unfold Py.slice_to, Py.slice_bound, Py.len.
  destruct (Z.ltb_spec i 0); [lia|].
  destruct (Z.le_gt_cases i (Z.of_nat (String.length s))).
  - by rewrite Z.min_l.
  - rewrite Z.min_r, Nat2Z.id by lia. rewrite !str_take_all; [done | lia | lia].
Qed.


Lemma encode_app s1 s2 :
  Py.encode (s1 +:+ s2)%string = Py.encode s1 ++ Py.encode s2.
Proof.
  unfold Py.encode, list_byte_of_string.
  induction s1 as [|c s1 IH]; [done|].
  rewrite app_String. simpl. by rewrite IH.
Qed.

End more_slices.

(** ** The summary of one record *)

(** X1.  The stub is kept for multimappers only: it is empty for a record
    that maps uniquely; for a multimapper and a stub length that is not
    negative it is the first [stub_length] bases, or the whole sequence
    when that is shorter.  It is always a prefix of the sequence, and
    never longer than a stub length that is not negative. *)
Theorem stub_is_a_prefix_kept_for_multimappers
    (read : pysam.AlignedSegment) (multimap_cutoff stub_length : Z) :
  (get_type read multimap_cutoff = SINGLE ->
   get_stub read multimap_cutoff stub_length = []) /\
  (get_type read multimap_cutoff = MULTI -> 0 <= stub_length ->
   get_stub read multimap_cutoff stub_length =
   Py.encode (Py.str_take (Z.to_nat stub_length) (pysam.query_sequence read))) /\
  (exists rest,
     Py.encode (pysam.query_sequence read) =
     get_stub read multimap_cutoff stub_length ++ rest) /\
  (0 <= stub_length ->
   (length (get_stub read multimap_cutoff stub_length) <= Z.to_nat stub_length)%nat).
Proof.
  unfold get_type, get_stub.
  destruct (pysam.mapping_quality read <? multimap_cutoff).
  - split; [done|]. split; [|split].
    + intros _ Hlen. by rewrite slice_to_nonneg.
    + exists (Py.encode (Py.str_drop
                          (Py.slice_bound (Py.len (pysam.query_sequence read))
                                          stub_length)
                          (pysam.query_sequence read))).
      unfold Py.slice_to. by rewrite <- encode_app, str_take_drop.
    + intros Hlen. rewrite slice_to_nonneg, length_encode, length_str_take by done.
      lia.
  - split; [done|]. split; [done|]. split; [by eexists|].
    intros _. simpl. lia.
Qed.

Lemma stub_is_a_prefix_kept_for_multimappers_witness :
  get_stub Sample.first_multi 5 3 = Py.encode "ACG".
Proof.
  destruct (stub_is_a_prefix_kept_for_multimappers Sample.first_multi 5 3)
    as (_ & Hmulti & _).
  apply Hmulti; [reflexivity | lia].
Defined.



(** ** What [count_sequences] counts *)

Section more_dict_facts.
Context {K : Type} `{EqDecision K}.

Lemma dict_get_None_keys {V} (k : K) (d : list (K * V)) :
  dict_get k d = None <-> k ∉ keys d.
Proof.
  unfold keys. induction d as [|[k' v'] d IH]; simpl.
  - split; [intros _ Hin; by apply elem_of_nil in Hin | done].
  - rewrite elem_of_cons. destruct (decide (k = k')) as [->|Hne].
    + split; [done | intros Hn; exfalso; apply Hn; by left].
    + rewrite IH. tauto.
Qed.

Lemma dict_get_elem {V} (k : K) (v : V) (d : list (K * V)) :
  dict_get k d = Some v -> (k, v) ∈ d.
Proof.
  induction d as [|[k' v'] d IH]; simpl; [done|].
  destruct (decide (k = k')) as [->|Hne].
  - intros [= ->]. apply elem_of_cons. by left.
  - intros Hget. apply elem_of_cons. right. by apply IH.
Qed.

Lemma dict_get_NoDup {V} (k : K) (v : V) (d : list (K * V)) :
  NoDup (keys d) -> (k, v) ∈ d -> dict_get k d = Some v.
Proof.
  unfold keys. induction d as [|[k' v'] d IH]; simpl.
  - intros _ Hin. by apply elem_of_nil in Hin.
  - rewrite NoDup_cons. intros [Hnot Hnd] Hin.
    apply elem_of_cons in Hin as [[= -> ->]|Hin].
    + by rewrite decide_True.
    + destruct (decide (k = k')) as [->|Hne]; [|by apply IH].
      exfalso. apply Hnot. apply list_elem_of_fmap. by exists (k', v).
Qed.

Lemma elem_of_dict_set {V} (k : K) (v : V) (d : list (K * V)) e :
  e ∈ dict_set k v d -> e = (k, v) \/ e ∈ d.
Proof.
  induction d as [|[k' v'] d IH]; simpl.
  - intros Hin. apply list_elem_of_singleton in Hin. by left.
  - destruct (decide (k = k')) as [->|Hne]; rewrite !elem_of_cons; [tauto|].
    intros [->|Hin]; [by auto|]. apply IH in Hin. tauto.
Qed.

Lemma dict_set_nonempty {V} (k : K) (v : V) (d : list (K * V)) :
  dict_set k v d <> [].
Proof. destruct d as [|[k' v'] d]; simpl; [done|]. by destruct (decide (k = k')). Qed.

(** The sum of the values changes by the difference at the key. *)
Lemma sum_values_dict_set (k : K) (v : Z) (d : list (K * Z)) :
  Py.sum (values (dict_set k v d)) =
  Py.sum (values d) - default 0 (dict_get k d) + v.
Proof.
  induction d as [|[k' v'] d IH]; simpl.
  - unfold Py.sum. simpl. lia.
  - destruct (decide (k = k')) as [->|Hne]; unfold values in *;
      rewrite !fmap_cons; unfold Py.sum in *; simpl; [lia|].
    fold (@fmap list _ _ _ (@snd K Z) (dict_set k v d)).
    rewrite IH. lia.
Qed.

End more_dict_facts.

Section counting.
Implicit Types (counts : umi_counts) (s x : list byte).

(** The count held for [s], zero when [s] is not a key. *)
Lemma count_step_get counts x s :
  default 0 (dict_get s (count_step counts x)) =
  default 0 (dict_get s counts) + (if decide (x = s) then 1 else 0).
Proof.
  unfold count_step, defaultdict_getitem.
  destruct (dict_get x counts) as [c|] eqn:Hx.
  - destruct (decide (x = s)) as [->|Hne].
    + rewrite dict_get_set_eq, Hx. done.
    + rewrite dict_get_set_ne by done. lia.
  - rewrite dict_set_set. destruct (decide (x = s)) as [->|Hne].
    + rewrite dict_get_set_eq, Hx. done.
    + rewrite dict_get_set_ne by done. lia.
Qed.

Lemma count_step_sum counts x :
  Py.sum (values (count_step counts x)) = Py.sum (values counts) + 1.
Proof.
  unfold count_step, defaultdict_getitem.
  destruct (dict_get x counts) as [c|] eqn:Hx.
  - rewrite sum_values_dict_set, Hx. simpl. lia.
  - rewrite dict_set_set, sum_values_dict_set, Hx. simpl. lia.
Qed.

Lemma fold_count_get seq_list :
  forall counts s,
    default 0 (dict_get s (fold_left count_step seq_list counts)) =
    default 0 (dict_get s counts) +
    Z.of_nat (length (filter (fun x => x = s) seq_list)).
Proof.
  induction seq_list as [|x l IH]; intros counts s; simpl.
  - lia.
  - rewrite IH, count_step_get, filter_cons.
    destruct (decide (x = s)); simpl; lia.
Qed.

Lemma fold_count_sum seq_list :
  forall counts,
    Py.sum (values (fold_left count_step seq_list counts)) =
    Py.sum (values counts) + Z.of_nat (length seq_list).
Proof.
  induction seq_list as [|x l IH]; intros counts; simpl.
  - lia.
  - rewrite IH, count_step_sum. lia.
Qed.

End counting.

(** X3.  [count_sequences] holds, for every sequence of the list, the
    number of times it occurs, and holds no other key: a lookup gives
    that number for a sequence of the list and fails for any other. *)
Theorem count_sequences_counts_occurrences
    (seq_list : list (list byte)) (s : list byte) :
  let occurrences := length (filter (fun x => x = s) seq_list) in
  (s ∈ seq_list ->
   dict_get s (count_sequences seq_list) = Some (Z.of_nat occurrences) /\
   (1 <= occurrences)%nat) /\
  (s ∉ seq_list -> dict_get s (count_sequences seq_list) = None).
Proof.
  intros occurrences. split.
  - intros Hin. split.
    + pose proof (fold_count_get seq_list [] s) as Hget.
      fold (count_sequences seq_list) in Hget. simpl in Hget.
      destruct (dict_get s (count_sequences seq_list)) as [c|] eqn:Hs.
      * simpl in Hget. by rewrite Hget.
      * apply dict_get_None_keys in Hs. by rewrite count_sequences_keys in Hs.
    + subst occurrences.
      assert (Hs : s ∈ filter (fun x => x = s) seq_list)
        by by apply list_elem_of_filter.
      destruct (filter _ seq_list); [by apply elem_of_nil in Hs | simpl; lia].
  - intros Hnot. apply dict_get_None_keys. by rewrite count_sequences_keys.
Qed.

Lemma count_sequences_counts_occurrences_witness :
  dict_get (Py.encode "AAAAAA")
           (count_sequences [Py.encode "AAAAAA"; Py.encode "CCCCCC"; Py.encode "AAAAAA"])
  = Some 2.
Proof.
  apply (count_sequences_counts_occurrences
           [Py.encode "AAAAAA"; Py.encode "CCCCCC"; Py.encode "AAAAAA"]
           (Py.encode "AAAAAA")).
  apply list_elem_of_here.
Defined.

(** X4.  The counts of [count_sequences] add up to the length of the
    list, and its keys are the distinct sequences of the list. *)
Theorem count_sequences_sums_to_length (seq_list : list (list byte)) :
  Py.sum (values (count_sequences seq_list)) = Z.of_nat (length seq_list) /\
  NoDup (keys (count_sequences seq_list)) /\
  (forall s, s ∈ keys (count_sequences seq_list) <-> s ∈ seq_list).
Proof.
  split; [|split].
  - unfold count_sequences. rewrite fold_count_sum. simpl. lia.
  - apply count_sequences_NoDup.
  - intros s. apply count_sequences_keys.
Qed.

(** ** More on the finished index *)

Section more_index_facts.
Variables umi_length multimap_cutoff stub_length : Z.

Local Abbreviation summ := (summarize umi_length multimap_cutoff stub_length).
Local Abbreviation fsel := (first_sel umi_length multimap_cutoff stub_length).
Local Abbreviation ssel := (second_sel umi_length multimap_cutoff stub_length).
Local Abbreviation build :=
  (AlignmentIndex_init umi_length multimap_cutoff stub_length).
Local Abbreviation router := (route umi_length multimap_cutoff stub_length).

Lemma index_init_unfold bam :
  exists r1 m1 s1 r2 m2 s2,
    fold_left (router fsel) (get_mapped_segments bam) ([], [], []) = (r1, m1, s1) /\
    fold_left (router (ssel (list_to_set s1))) (get_mapped_segments bam)
              ([], m1, []) = (r2, m2, s2) /\
    seen_1st umi_length multimap_cutoff stub_length bam = list_to_set s1 /\
    build bam =
    {| r1_reads_by_position := r1;
       r2_only_reads_by_position := r2;
       multimappers := m2;
       r1_counts := Z.of_nat (size (list_to_set s1 : gset string));
       r2_counts := Z.of_nat (size (list_to_set s2 : gset string));
       total := Z.of_nat (size (list_to_set s1 : gset string)) +
                Z.of_nat (size (list_to_set s2 : gset string)) |}.
Proof.
  unfold seen_1st, AlignmentIndex_init, _index_first_mates, _index_second_mates.
  rewrite fold_first_mates_route.
  destruct (fold_left (router fsel) (get_mapped_segments bam) ([], [], []))
    as [[r1 m1] s1] eqn:Hfirst.
  rewrite fold_second_mates_route.
  destruct (fold_left (router (ssel (list_to_set s1)))
                      (get_mapped_segments bam) ([], m1, []))
    as [[r2 m2] s2] eqn:Hsecond.
  by exists r1, m1, s1, r2, m2, s2.
Qed.

(** What holds of the empty index and is kept by every append holds of
    the index a pass leaves. *)
Lemma route_fold_invariant (P : position_index -> Prop) sel reads :
  (forall rd index,
     P index ->
     P (index_append (pysam.reference_name rd) (pysam.reference_start rd)
                     (summ rd) index)) ->
  forall index pool ids,
    P index -> P (fold_left (router sel) reads (index, pool, ids)).1.1.
Proof.
  intros Hstep. induction reads as [|rd reads IH]; intros index pool ids HP.
  - done.
  - simpl. destruct (sel rd); [|by apply IH].
    destruct (get_type rd multimap_cutoff); apply IH; [by apply Hstep | done].
Qed.

Lemma well_keyed_nil : well_keyed [].
Proof.
  split; [apply NoDup_nil_2|]. intros ? ? Hin. by apply elem_of_nil in Hin.
Qed.

Lemma well_keyed_append aln index :
  well_keyed index ->
  well_keyed (index_append (reference aln) (start aln) aln index).
Proof.
  intros [Hkeys Hcontigs]. rewrite index_append_eq.
  set (old := default [] (dict_get (reference aln) index)).
  assert (Hold : NoDup (keys old) /\
                 forall pos reads,
                   (pos, reads) ∈ old ->
                   reads <> [] /\
                   forall x, x ∈ reads ->
                             reference x = reference aln /\ start x = pos).
  { subst old. destruct (dict_get (reference aln) index) as [c|] eqn:Hc; simpl.
    - apply dict_get_elem in Hc. by apply Hcontigs in Hc as (_ & ? & ?).
    - split; [apply NoDup_nil_2|]. intros ? ? Hin. by apply elem_of_nil in Hin. }
  destruct Hold as [Hold_keys Hold_reads].
  split; [by apply keys_dict_set_NoDup|].
  intros refname contig [[= -> ->]|Hin]%elem_of_dict_set; [|by apply Hcontigs].
  split; [apply dict_set_nonempty|].
  split; [by apply keys_dict_set_NoDup|].
  intros pos reads [[= -> ->]|Hin]%elem_of_dict_set; [|by apply Hold_reads].
  split; [by destruct (bucket index (reference aln) (start aln))|].
  intros x [Hx|Hx]%elem_of_app.
  - unfold bucket in Hx. fold old in Hx.
    destruct (dict_get (start aln) old) as [b|] eqn:Hb; simpl in Hx.
    + apply dict_get_elem in Hb. by apply (Hold_reads _ _ Hb).
    + by apply elem_of_nil in Hx.
  - by apply list_elem_of_singleton in Hx as ->.
Qed.

Lemma built_indexes_well_keyed bam :
  well_keyed (r1_reads_by_position (build bam)) /\
  well_keyed (r2_only_reads_by_position (build bam)).
Proof.
  destruct (index_init_unfold bam)
    as (r1 & m1 & s1 & r2 & m2 & s2 & Hfirst & Hsecond & _ & ->). simpl.
  assert (Hstep : forall rd index,
             well_keyed index ->
             well_keyed (index_append (pysam.reference_name rd)
                                      (pysam.reference_start rd) (summ rd) index)).
  { intros rd index. apply (well_keyed_append (summ rd)). }
  split.
  - pose proof (route_fold_invariant well_keyed fsel (get_mapped_segments bam)
                  Hstep [] [] [] well_keyed_nil) as H.
    by rewrite Hfirst in H.
  - pose proof (route_fold_invariant well_keyed (ssel (list_to_set s1))
                  (get_mapped_segments bam) Hstep [] m1 [] well_keyed_nil) as H.
    by rewrite Hsecond in H.
Qed.

(** In a well-keyed index the bucket found by lookup is the one listed. *)
Lemma well_keyed_bucket index refname contig pos reads :
  well_keyed index ->
  (refname, contig) ∈ index -> (pos, reads) ∈ contig ->
  bucket index refname pos = reads.
Proof.
  intros [Hkeys Hcontigs] Hc Hr. unfold bucket.
  rewrite (dict_get_NoDup _ _ _ Hkeys Hc). simpl.
  destruct (Hcontigs _ _ Hc) as (_ & Hck & _).
  by rewrite (dict_get_NoDup _ _ _ Hck Hr).
Qed.

Lemma elem_of_concat {A} (x : A) (ls : list (list A)) :
  x ∈ concat ls <-> exists l, x ∈ l /\ l ∈ ls.
Proof.
  induction ls as [|l ls IH]; simpl.
  - split; [intros Hx; by apply elem_of_nil in Hx|].
    intros (l & _ & Hl). by apply elem_of_nil in Hl.
  - rewrite elem_of_app, IH. split.
    + intros [Hx|(l' & Hx & Hl)].
      * exists l. split; [done | apply elem_of_cons; by left].
      * exists l'. split; [done | apply elem_of_cons; by right].
    + intros (l' & Hx & [->|Hl]%elem_of_cons); [by left|].
      right. by exists l'.
Qed.

Lemma elem_of_index_reads index x :
  x ∈ index_reads index <->
  exists refname contig pos reads,
    (refname, contig) ∈ index /\ (pos, reads) ∈ contig /\ x ∈ reads.
Proof.
  unfold index_reads, values. rewrite elem_of_concat. split.
  - intros (l & Hx & Hl).
    apply list_elem_of_fmap in Hl as (contig & -> & Hl).
    apply list_elem_of_fmap in Hl as ([refname c] & -> & Hc). simpl in Hx.
    apply elem_of_concat in Hx as (reads & Hx & Hreads).
    apply list_elem_of_fmap in Hreads as ([pos b] & -> & Hb).
    by exists refname, c, pos, b.
  - intros (refname & contig & pos & reads & Hc & Hr & Hx).
    exists (concat contig.*2). split.
    + apply elem_of_concat. exists reads. split; [done|].
      apply list_elem_of_fmap. by exists (pos, reads).
    + apply list_elem_of_fmap. exists contig. split; [done|].
      apply list_elem_of_fmap. by exists (refname, contig).
Qed.

End more_index_facts.

(** X5.  Lookup in the finished index.  Every read stored at a locus of
    the first index is a uniquely mapping first mate whose own reference
    and start are that locus, and likewise for second mates in the second
    index; a read is in an index exactly when it is in the bucket of its
    own reference and start.  The multimapper pool holds only
    multi-mapping first or second mates. *)
Theorem indexed_reads_sit_at_their_locus
    (umi_length multimap_cutoff stub_length : Z)
    (bam : list pysam.AlignedSegment) :
  let index := AlignmentIndex_init umi_length multimap_cutoff stub_length bam in
  (forall refname pos x,
     x ∈ bucket (r1_reads_by_position index) refname pos ->
     reference x = refname /\ start x = pos /\ mate x = 1 /\ type x = SINGLE) /\
  (forall refname pos x,
     x ∈ bucket (r2_only_reads_by_position index) refname pos ->
     reference x = refname /\ start x = pos /\ mate x = 2 /\ type x = SINGLE) /\
  (forall x,
     x ∈ index_reads (r1_reads_by_position index) <->
     x ∈ bucket (r1_reads_by_position index) (reference x) (start x)) /\
  (forall x,
     x ∈ index_reads (r2_only_reads_by_position index) <->
     x ∈ bucket (r2_only_reads_by_position index) (reference x) (start x)) /\
  (forall x,
     x ∈ multimappers index -> type x = MULTI /\ (mate x = 1 \/ mate x = 2)).
Proof.
  intros index.
  destruct (index_init_spec umi_length multimap_cutoff stub_length bam)
    as (_ & Hb1 & Hr1 & Hb2 & Hr2 & Hmulti).
  fold index in Hb1, Hr1, Hb2, Hr2, Hmulti.
  split; [|split; [|split; [|split]]].
  - intros refname pos x. rewrite Hb1, list_elem_of_fmap.
    intros (rd & -> & Hrd).
    apply list_elem_of_filter in Hrd as [(Hsel & Hty & Href & Hpos) _].
    apply first_sel_spec in Hsel. by repeat split.
  - intros refname pos x. rewrite Hb2, list_elem_of_fmap.
    intros (rd & -> & Hrd).
    apply list_elem_of_filter in Hrd as [(Hsel & Hty & Href & Hpos) _].
    apply second_sel_spec in Hsel as [Hsel _]. by repeat split.
  - intros x. rewrite Hr1, Hb1, list_elem_of_fmap. split.
    + intros (rd & Hrd & Hsel & Hty & ->). exists rd. split; [done|].
      apply list_elem_of_filter. by repeat split.
    + intros (rd & -> & Hrd).
      apply list_elem_of_filter in Hrd as [(Hsel & Hty & _) Hrd]. by exists rd.
  - intros x. rewrite Hr2, Hb2, list_elem_of_fmap. split.
    + intros (rd & Hrd & Hsel & Hty & ->). exists rd. split; [done|].
      apply list_elem_of_filter. by repeat split.
    + intros (rd & -> & Hrd).
      apply list_elem_of_filter in Hrd as [(Hsel & Hty & _) Hrd]. by exists rd.
  - intros x. rewrite Hmulti, elem_of_app, !list_elem_of_fmap.
    intros [(rd & -> & Hrd)|(rd & -> & Hrd)];
      apply list_elem_of_filter in Hrd as [[Hsel Hty] _]; (split; [done|]).
    + left. by apply first_sel_spec in Hsel.
    + right. by apply second_sel_spec in Hsel as [? _].
Qed.

Section counts_facts.
Variables umi_length multimap_cutoff stub_length : Z.

Local Abbreviation summ := (summarize umi_length multimap_cutoff stub_length).

(** The names of the mapped records with a given mate value. *)
Lemma counts_as_name_sets bam :
  let mapped := get_mapped_segments bam in
  let index := AlignmentIndex_init umi_length multimap_cutoff stub_length bam in
  let names_of m : gset string :=
    list_to_set ((fun rd => name (summ rd)) <$>
                 filter (fun rd => mate (summ rd) = m) mapped) in
  seen_1st umi_length multimap_cutoff stub_length bam = names_of 1 /\
  r1_counts index = Z.of_nat (size (names_of 1)) /\
  r2_counts index = Z.of_nat (size (names_of 2 ∖ names_of 1)) /\
  total index = r1_counts index + r2_counts index.
Proof.
  intros mapped index names_of. subst index.
  destruct (index_init_unfold umi_length multimap_cutoff stub_length bam)
    as (r1 & m1 & s1 & r2 & m2 & s2 & Hfirst & Hsecond & Hseen & ->). simpl.
  fold mapped in Hfirst, Hsecond.
  apply route_fold in Hfirst as (_ & _ & _ & Hs1).
  apply route_fold in Hsecond as (_ & _ & _ & Hs2).
  simpl in Hs1, Hs2.
  assert (H1 : (list_to_set s1 : gset string) = names_of 1).
  { apply set_eq. intros n. subst names_of. simpl.
    rewrite !elem_of_list_to_set, Hs1, !list_elem_of_fmap.
    split; intros (rd & -> & Hrd); exists rd; (split; [done|]);
      apply list_elem_of_filter in Hrd as [Hsel Hrd]; apply list_elem_of_filter;
      (split; [|done]).
    - exact (proj1 (first_sel_spec umi_length multimap_cutoff stub_length rd) Hsel).
    - exact (proj2 (first_sel_spec umi_length multimap_cutoff stub_length rd) Hsel). }
  assert (H2 : (list_to_set s2 : gset string) = names_of 2 ∖ names_of 1).
  { apply set_eq. intros n. rewrite elem_of_difference, <- H1.
    subst names_of. simpl.
    rewrite !elem_of_list_to_set, Hs2, !list_elem_of_fmap. split.
    - intros (rd & -> & Hrd). apply list_elem_of_filter in Hrd as [Hsel Hrd].
      apply second_sel_spec in Hsel as [Hm Hnot].
      rewrite elem_of_list_to_set in Hnot. split; [|done].
      exists rd. split; [done|]. by apply list_elem_of_filter.
    - intros [(rd & -> & Hrd) Hnot]. exists rd. split; [done|].
      apply list_elem_of_filter in Hrd as [Hm Hrd]. apply list_elem_of_filter.
      split; [|done]. apply second_sel_spec. split; [done|].
      by rewrite elem_of_list_to_set. }
  rewrite Hseen, H1, H2. done.
Qed.

End counts_facts.

(** X6.  [total] counts fragments, not records: [r1_counts] is the number
    of distinct fragment names among the mapped first-mate records,
    uniquely mapping or not, [r2_counts] the number of distinct names
    among the mapped second-mate records that no first mate carries, and
    [total] the number of distinct names among all mapped first- and
    second-mate records. *)
Theorem total_counts_distinct_fragment_names
    (umi_length multimap_cutoff stub_length : Z)
    (bam : list pysam.AlignedSegment) :
  let index := AlignmentIndex_init umi_length multimap_cutoff stub_length bam in
  let names_of m : gset string :=
    list_to_set
      ((fun rd => get_name rd umi_length) <$>
       filter (fun rd => get_mate rd = m) (get_mapped_segments bam)) in
  r1_counts index = Z.of_nat (size (names_of 1)) /\
  r2_counts index = Z.of_nat (size (names_of 2 ∖ names_of 1)) /\
  total index = Z.of_nat (size (names_of 1 ∪ names_of 2)) /\
  0 <= r1_counts index /\ 0 <= r2_counts index.
Proof.
  intros index names_of.
  destruct (counts_as_name_sets umi_length multimap_cutoff stub_length bam)
    as (_ & H1 & H2 & Ht).
  fold index in H1, H2, Ht. simpl in H1, H2. fold (names_of 1) in H1, H2.
  fold (names_of 2) in H2.
  split; [done|]. split; [done|]. split; [|lia].
  rewrite Ht, H1, H2, (size_union_alt (names_of 1) (names_of 2)). lia.
Qed.

(** X7.  The index does not depend on the order of the records in the
    file, up to the order of the reads inside a bucket: for two files
    that hold the same records, the three counts agree, every bucket of
    either index holds the same reads, and so does the multimapper
    pool. *)
Theorem index_is_independent_of_record_order
    (umi_length multimap_cutoff stub_length : Z)
    (bam1 bam2 : list pysam.AlignedSegment) (Hperm : bam1 ≡ₚ bam2) :
  let index1 := AlignmentIndex_init umi_length multimap_cutoff stub_length bam1 in
  let index2 := AlignmentIndex_init umi_length multimap_cutoff stub_length bam2 in
  r1_counts index1 = r1_counts index2 /\
  r2_counts index1 = r2_counts index2 /\
  total index1 = total index2 /\
  (forall refname pos,
     bucket (r1_reads_by_position index1) refname pos ≡ₚ
     bucket (r1_reads_by_position index2) refname pos) /\
  (forall refname pos,
     bucket (r2_only_reads_by_position index1) refname pos ≡ₚ
     bucket (r2_only_reads_by_position index2) refname pos) /\
  multimappers index1 ≡ₚ multimappers index2.
Proof.
  intros index1 index2.
  assert (Hmapped : get_mapped_segments bam1 ≡ₚ get_mapped_segments bam2).
  { unfold get_mapped_segments. by rewrite Hperm. }
  destruct (counts_as_name_sets umi_length multimap_cutoff stub_length bam1)
    as (Hseen1 & Ha1 & Hb1 & Ht1).
  destruct (counts_as_name_sets umi_length multimap_cutoff stub_length bam2)
    as (Hseen2 & Ha2 & Hb2 & Ht2).
  fold index1 in Ha1, Hb1, Ht1. fold index2 in Ha2, Hb2, Ht2.
  assert (Hnames : forall m,
            (list_to_set
               ((fun rd => name (summarize umi_length multimap_cutoff stub_length rd))
                  <$> filter (fun rd => mate (summarize umi_length multimap_cutoff
                                                        stub_length rd) = m)
                             (get_mapped_segments bam1)) : gset string) =
            list_to_set
              ((fun rd => name (summarize umi_length multimap_cutoff stub_length rd))
                 <$> filter (fun rd => mate (summarize umi_length multimap_cutoff
                                                       stub_length rd) = m)
                            (get_mapped_segments bam2))).
  { intros m. apply list_to_set_perm_L. by rewrite Hmapped. }
  assert (Hseen : seen_1st umi_length multimap_cutoff stub_length bam1 =
                  seen_1st umi_length multimap_cutoff stub_length bam2).
  { rewrite Hseen1, Hseen2. apply Hnames. }
  destruct (index_init_spec umi_length multimap_cutoff stub_length bam1)
    as (_ & Hr1 & _ & Hs1 & _ & Hm1).
  destruct (index_init_spec umi_length multimap_cutoff stub_length bam2)
    as (_ & Hr2 & _ & Hs2 & _ & Hm2).
  fold index1 in Hr1, Hs1, Hm1. fold index2 in Hr2, Hs2, Hm2.
  assert (Hc1 : r1_counts index1 = r1_counts index2).
  { rewrite Ha1, Ha2. by rewrite (Hnames 1). }
  assert (Hc2 : r2_counts index1 = r2_counts index2).
  { rewrite Hb1, Hb2. by rewrite (Hnames 1), (Hnames 2). }
  split; [done|]. split; [done|]. split; [by rewrite Ht1, Ht2, Hc1, Hc2|].
  split; [|split].
  - intros refname pos. rewrite Hr1, Hr2. by rewrite Hmapped.
  - intros refname pos. rewrite Hs1, Hs2, Hseen. by rewrite Hmapped.
  - rewrite Hm1, Hm2, Hseen. by rewrite Hmapped.
Qed.

Lemma index_is_independent_of_record_order_witness :
  total (AlignmentIndex_init 6 5 20 [Sample.second_unique; Sample.first_multi]) =
  total (AlignmentIndex_init 6 5 20 [Sample.first_multi; Sample.second_unique]).
Proof.
  apply (index_is_independent_of_record_order 6 5 20
           [Sample.second_unique; Sample.first_multi]
           [Sample.first_multi; Sample.second_unique]).
  apply Permutation_swap.
Defined.

Lemma mapped_segments_skip_unmapped before r after :
  pysam.is_unmapped r = true ->
  get_mapped_segments (before ++ r :: after) = get_mapped_segments (before ++ after).
Proof.
  intros Hun. unfold get_mapped_segments.
  rewrite !filter_app, filter_cons, decide_False; [done|]. by rewrite Hun.
Qed.

(** X8.  An unmapped record has no effect, wherever it stands in the
    file: the index and the summary of [deduplicate] are those of the
    file without it. *)
Theorem unmapped_records_have_no_effect
    (UMIClusterer : umi_counts -> Z -> outcome umi_clusters)
    (umi_length multimap_cutoff stub_length umi_mismatches : Z)
    (before after : list pysam.AlignedSegment) (r : pysam.AlignedSegment)
    (Hunmapped : pysam.is_unmapped r = true) :
  AlignmentIndex_init umi_length multimap_cutoff stub_length (before ++ r :: after) =
  AlignmentIndex_init umi_length multimap_cutoff stub_length (before ++ after) /\
  deduplicate UMIClusterer umi_length multimap_cutoff stub_length umi_mismatches
              (before ++ r :: after) =
  deduplicate UMIClusterer umi_length multimap_cutoff stub_length umi_mismatches
              (before ++ after).
Proof.
  assert (Hindex :
            AlignmentIndex_init umi_length multimap_cutoff stub_length
                                (before ++ r :: after) =
            AlignmentIndex_init umi_length multimap_cutoff stub_length
                                (before ++ after)).
  { unfold AlignmentIndex_init, _index_first_mates, _index_second_mates.
    by rewrite (mapped_segments_skip_unmapped before r after Hunmapped). }
  split; [exact Hindex|]. unfold deduplicate. by rewrite Hindex.
Qed.

Lemma unmapped_records_have_no_effect_witness :
  let unmapped :=
    {| pysam.is_unmapped := true; pysam.is_read1 := true; pysam.is_read2 := false;
       pysam.query_name := "frag9_ACGTAC"; pysam.reference_name := "";
       pysam.reference_start := -1; pysam.next_reference_start := -1;
       pysam.mapping_quality := 0; pysam.query_sequence := "ACGT";
       pysam.query_alignment_qualities := [] |} in
  AlignmentIndex_init 6 5 20 ([Sample.first_unique] ++ unmapped :: []) =
  AlignmentIndex_init 6 5 20 ([Sample.first_unique] ++ []).
Proof.
  intros unmapped.
  apply (unmapped_records_have_no_effect Directional.call 6 5 20 1
           [Sample.first_unique] [] unmapped).
  reflexivity.
Defined.

(** ** Counting loci *)

Section loci_facts.
Implicit Types (index : position_index).

Lemma count_loci_fold index (n : Z) :
  fold_left (fun n (contig : list (Z * list AlignedSegmentSummary)) =>
               n + Z.of_nat (length contig))
            (values index) n =
  n + Z.of_nat (length (loci index)).
Proof.
  unfold loci, values, keys. revert n.
  induction index as [|[refname contig] index IH]; intros n.
  - simpl. lia.
  - rewrite !fmap_cons. cbn [fold_left concat fst snd].
    rewrite IH, length_app, !length_fmap. lia.
Qed.

Lemma elem_of_loci index refname pos :
  (refname, pos) ∈ loci index <->
  exists contig reads, (refname, contig) ∈ index /\ (pos, reads) ∈ contig.
Proof.
  unfold loci, keys. rewrite elem_of_concat. split.
  - intros (l & Hl & Hin).
    apply list_elem_of_fmap in Hin as ([r contig] & -> & Hin). simpl in Hl.
    apply list_elem_of_fmap in Hl as (p & [= -> ->] & Hp).
    apply list_elem_of_fmap in Hp as ([p' reads] & -> & Hp).
    by exists contig, reads.
  - intros (contig & reads & Hc & Hr).
    exists ((fun p => (refname, p)) <$> contig.*1). split.
    + apply list_elem_of_fmap. exists pos. split; [done|].
      apply list_elem_of_fmap. by exists (pos, reads).
    + apply list_elem_of_fmap. by exists (refname, contig).
Qed.

Lemma loci_NoDup index : well_keyed index -> NoDup (loci index).
Proof.
  intros [Hkeys Hcontigs]. unfold loci, keys in *.
  induction index as [|[refname contig] index IH]; simpl.
  - apply NoDup_nil_2.
  - simpl in Hkeys. apply NoDup_cons in Hkeys as [Hnot Hkeys].
    apply NoDup_app. split; [|split].
    + apply NoDup_fmap_2; [by intros ? ? [= ->]|].
      apply (Hcontigs refname contig). apply elem_of_cons. by left.
    + intros [r p] Hin Hin'.
      apply list_elem_of_fmap in Hin as (p' & [= -> ->] & _).
      apply (elem_of_loci index) in Hin' as (c & _ & Hc & _).
      apply Hnot. apply list_elem_of_fmap. by exists (refname, c).
    + apply IH; [done|]. intros r c Hc. apply Hcontigs, elem_of_cons. by right.
Qed.

Lemma loci_of_reads index refname pos :
  well_keyed index ->
  (refname, pos) ∈ loci index <->
  exists x, x ∈ index_reads index /\ reference x = refname /\ start x = pos.
Proof.
  intros [Hkeys Hcontigs]. rewrite elem_of_loci. split.
  - intros (contig & reads & Hc & Hr).
    destruct (Hcontigs _ _ Hc) as (_ & _ & Hreads).
    destruct (Hreads _ _ Hr) as [Hne Hloc].
    destruct reads as [|x reads]; [done|].
    exists x. split.
    + apply elem_of_index_reads. exists refname, contig, pos, (x :: reads).
      repeat split; try done. apply elem_of_cons. by left.
    + apply Hloc, elem_of_cons. by left.
  - intros (x & Hx & <- & <-).
    apply elem_of_index_reads in Hx as (r & contig & p & reads & Hc & Hr & Hx).
    destruct (Hcontigs _ _ Hc) as (_ & _ & Hreads).
    destruct (Hreads _ _ Hr) as [_ Hloc].
    destruct (Hloc x Hx) as [-> ->]. by exists contig, reads.
Qed.

Lemma references_of_reads index refname :
  well_keyed index ->
  refname ∈ keys index <->
  exists x, x ∈ index_reads index /\ reference x = refname.
Proof.
  intros [Hkeys Hcontigs]. unfold keys. rewrite list_elem_of_fmap. split.
  - intros ([r contig] & -> & Hc). simpl.
    destruct (Hcontigs _ _ Hc) as (Hne & _ & Hreads).
    destruct contig as [|[pos reads] contig]; [done|].
    destruct (Hreads pos reads) as [Hne' Hloc]; [apply elem_of_cons; by left|].
    destruct reads as [|x reads]; [done|].
    exists x. split.
    + apply elem_of_index_reads. exists r, ((pos, x :: reads) :: contig), pos, (x :: reads).
      repeat split; try done; apply elem_of_cons; by left.
    + apply Hloc, elem_of_cons. by left.
  - intros (x & Hx & <-).
    apply elem_of_index_reads in Hx as (r & contig & p & reads & Hc & Hr & Hx).
    destruct (Hcontigs _ _ Hc) as (_ & _ & Hreads).
    destruct (Hreads _ _ Hr) as [_ Hloc].
    destruct (Hloc x Hx) as [<- _]. by exists (reference x, contig).
Qed.

Lemma well_keyed_counts index :
  well_keyed index ->
  count_loci index =
    Z.of_nat (size (list_to_set ((fun x => (reference x, start x)) <$>
                                 index_reads index) : gset (string * Z))) /\
  Z.of_nat (length index) =
    Z.of_nat (size (list_to_set (reference <$> index_reads index) : gset string)).
Proof.
  intros Hwk. split.
  - unfold count_loci. rewrite count_loci_fold, Z.add_0_l. f_equal.
    rewrite <- (size_list_to_set (C := gset (string * Z)) (loci index))
      by by apply loci_NoDup.
    f_equal. apply set_eq. intros [r p].
    rewrite !elem_of_list_to_set, (loci_of_reads _ _ _ Hwk), list_elem_of_fmap.
    split.
    + intros (x & Hx & <- & <-). by exists x.
    + intros (x & [= -> ->] & Hx). by exists x.
  - f_equal. destruct Hwk as [Hkeys Hcontigs].
    rewrite <- (length_fmap fst index).
    rewrite <- (size_list_to_set (C := gset string) (index.*1)) by done.
    f_equal. apply set_eq. intros r.
    rewrite !elem_of_list_to_set.
    rewrite (references_of_reads index r (conj Hkeys Hcontigs)), list_elem_of_fmap.
    split.
    + intros (x & Hx & <-). by exists x.
    + intros (x & -> & Hx). by exists x.
Qed.

End loci_facts.

(** X9.  What [print_summary] reports for an index: [count_loci] is the
    number of distinct (reference, start) pairs of the reads it holds,
    and its length is the number of their distinct references.  This
    holds of both position indexes of every file. *)
Theorem count_loci_counts_distinct_loci
    (umi_length multimap_cutoff stub_length : Z)
    (bam : list pysam.AlignedSegment) :
  let index := AlignmentIndex_init umi_length multimap_cutoff stub_length bam in
  let distinct_loci (reads : list AlignedSegmentSummary) :=
    Z.of_nat (size (list_to_set ((fun x => (reference x, start x)) <$> reads)
                    : gset (string * Z))) in
  let distinct_references (reads : list AlignedSegmentSummary) :=
    Z.of_nat (size (list_to_set (reference <$> reads) : gset string)) in
  count_loci (r1_reads_by_position index) =
    distinct_loci (index_reads (r1_reads_by_position index)) /\
  count_loci (r2_only_reads_by_position index) =
    distinct_loci (index_reads (r2_only_reads_by_position index)) /\
  Z.of_nat (length (r1_reads_by_position index)) =
    distinct_references (index_reads (r1_reads_by_position index)) /\
  Z.of_nat (length (r2_only_reads_by_position index)) =
    distinct_references (index_reads (r2_only_reads_by_position index)).
Proof.
  intros index distinct_loci distinct_references.
  destruct (built_indexes_well_keyed umi_length multimap_cutoff stub_length bam)
    as [Hwk1 Hwk2].
  destruct (well_keyed_counts _ Hwk1) as [Hl1 Hn1].
  destruct (well_keyed_counts _ Hwk2) as [Hl2 Hn2].
  by repeat split.
Qed.

(** ** More on one bucket *)

(** X10.  [pick_best] fails with [IndexError] on an empty list.  On any
    other list it returns a read of the list whose score no read of the
    list exceeds; the order of the list can change which read that is,
    but not its score. *)
Theorem pick_best_score_does_not_depend_on_order :
  pick_best [] = Raised IndexError /\
  (forall readlist,
     readlist <> [] ->
     exists best, pick_best readlist = Returned best /\ best ∈ readlist /\
                  forall r, r ∈ readlist -> score r <= score best) /\
  (forall l1 l2 best1 best2,
     l1 ≡ₚ l2 ->
     pick_best l1 = Returned best1 -> pick_best l2 = Returned best2 ->
     score best1 = score best2).
Proof.
  assert (Hmax : forall readlist best,
             pick_best readlist = Returned best ->
             best ∈ readlist /\ forall r, r ∈ readlist -> score r <= score best).
  { intros [|r0 rest] best; [done|]. intros Hp.
    destruct (pick_best_spec r0 rest) as (b & before & after & Hb & Heq & Hlt & Hle).
    rewrite Hp in Hb. injection Hb as <-. rewrite Heq. split.
    - apply elem_of_app. right. apply elem_of_cons. by left.
    - intros r [Hr|[->|Hr]%elem_of_cons]%elem_of_app.
      + apply Hlt in Hr. lia.
      + lia.
      + by apply Hle. }
  split; [done|]. split.
  - intros [|r0 rest] Hne; [done|].
    destruct (pick_best_spec r0 rest) as (b & _ & _ & Hb & _).
    exists b. split; [done|]. by apply Hmax.
  - intros l1 l2 b1 b2 Hperm H1 H2.
    apply Hmax in H1 as [Hin1 Hmax1]. apply Hmax in H2 as [Hin2 Hmax2].
    assert (score b1 <= score b2) by (apply Hmax2; by rewrite <- Hperm).
    assert (score b2 <= score b1) by (apply Hmax1; by rewrite Hperm).
    lia.
Qed.

Lemma pick_best_score_does_not_depend_on_order_witness :
  exists best1 best2,
    pick_best [Sample.low_A; Sample.high_T] = Returned best1 /\
    pick_best [Sample.high_T; Sample.low_A] = Returned best2 /\
    score best1 = score best2.
Proof.
  exists Sample.high_T, Sample.high_T.
  split; [reflexivity|]. split; [reflexivity|].
  destruct pick_best_score_does_not_depend_on_order as (_ & _ & Horder).
  apply (Horder [Sample.low_A; Sample.high_T] [Sample.high_T; Sample.low_A]);
    [apply Permutation_swap | reflexivity | reflexivity].
Defined.

Section unusable_clusters.
Variable read_list : list AlignedSegmentSummary.

Local Abbreviation unusable := (unusable read_list).

Lemma unique_read_unusable c :
  unusable c -> unique_read read_list c = Raised IndexError.
Proof.
  destruct c as [|c0 rest]; simpl; [done|]. by intros ->.
Qed.

Lemma unique_read_usable c :
  ~ unusable c -> exists s, unique_read read_list c = Returned s.
Proof.
  destruct c as [|c0 rest]; simpl; [intros H; exfalso; by apply H|].
  destruct (filter_by_attribute read_list c0 umi) as [|r0 [|r1 l]].
  - intros H. exfalso. by apply H.
  - intros _. simpl. by exists r0.
  - intros _.
    replace (1 <? Z.of_nat (length (r0 :: r1 :: l))) with true
      by (symmetry; apply Z.ltb_lt; simpl; lia).
    by eexists.
Qed.

Lemma unique_read_raises c e :
  unique_read read_list c = Raised e -> e = IndexError /\ unusable c.
Proof.
  destruct c as [|c0 rest]; simpl; [by intros [= <-]|].
  destruct (filter_by_attribute read_list c0 umi) as [|r0 [|r1 l]].
  - by intros [= <-].
  - done.
  - replace (1 <? Z.of_nat (length (r0 :: r1 :: l))) with true
      by (symmetry; apply Z.ltb_lt; simpl; lia).
    done.
Qed.

Lemma mapM_unique_read clusters :
  (Exists unusable clusters ->
   mapM (unique_read read_list) clusters = Raised IndexError) /\
  (Forall (fun c => ~ unusable c) clusters ->
   exists survivors, mapM (unique_read read_list) clusters = Returned survivors).
Proof.
  induction clusters as [|c clusters [IHbad IHgood]]; simpl.
  - split; [by intros H%Exists_nil | by eexists].
  - split.
    + intros Hex. destruct (unique_read read_list c) as [s|e] eqn:Hc.
      * apply Exists_cons in Hex as [Hc'|Hex].
        -- by rewrite (unique_read_unusable c Hc') in Hc.
        -- simpl. by rewrite (IHbad Hex).
      * apply unique_read_raises in Hc as [-> _]. done.
    + intros [Hc Hrest]%Forall_cons.
      destruct (unique_read_usable c Hc) as [s ->].
      destruct (IHgood Hrest) as [survivors ->]. by eexists.
Qed.

Lemma mapM_unique_read_raises clusters e :
  mapM (unique_read read_list) clusters = Raised e ->
  e = IndexError /\ Exists unusable clusters.
Proof.
  induction clusters as [|c clusters IH]; simpl; [done|].
  destruct (unique_read read_list c) as [s|e'] eqn:Hc; simpl.
  - destruct (mapM (unique_read read_list) clusters) as [ss|e'']; simpl; [done|].
    intros [= ->]. destruct IH as [-> Hex]; [done|].
    split; [done | by apply Exists_cons_tl].
  - intros [= ->]. apply unique_read_raises in Hc as [-> Hc].
    split; [done | by apply Exists_cons_hd].
Qed.

End unusable_clusters.

(** What the clusterer raises passes through. *)
Lemma mark_duplicates_clusterer_raises
    (UMIClusterer : umi_counts -> Z -> outcome umi_clusters)
    (read_list : list AlignedSegmentSummary) (mismatches : Z) e :
  cluster_sequences UMIClusterer (umi <$> read_list) mismatches = Raised e ->
  mark_duplicates_by_umi UMIClusterer read_list mismatches = Raised e.
Proof. intros Hcall. unfold mark_duplicates_by_umi. by rewrite Hcall. Qed.

Lemma mark_duplicates_resolvable
    (UMIClusterer : umi_counts -> Z -> outcome umi_clusters)
    (read_list : list AlignedSegmentSummary) (mismatches : Z) :
  (exists dups,
     mark_duplicates_by_umi UMIClusterer read_list mismatches = Returned dups) <->
  resolvable UMIClusterer mismatches read_list.
Proof.
  unfold resolvable, mark_duplicates_by_umi.
  destruct (cluster_sequences UMIClusterer (umi <$> read_list) mismatches)
    as [clusters|e]; simpl.
  - destruct (mapM_unique_read read_list clusters) as [Hbad Hgood]. split.
    + intros [dups Hd]. exists clusters. split; [done|]. intros c Hc Hun.
      rewrite Hbad in Hd; [done|]. apply Exists_exists. by exists c.
    + intros (cl & [= <-] & Hall).
      destruct Hgood as [survivors ->]; [by apply Forall_forall|]. by eexists.
  - split; [by intros [? ?] | by intros (? & ? & _)].
Qed.

Lemma mark_duplicates_raises
    (UMIClusterer : umi_counts -> Z -> outcome umi_clusters)
    (read_list : list AlignedSegmentSummary) (mismatches : Z) e :
  mark_duplicates_by_umi UMIClusterer read_list mismatches = Raised e ->
  cluster_sequences UMIClusterer (umi <$> read_list) mismatches = Raised e \/
  (e = IndexError /\
   exists clusters c,
     cluster_sequences UMIClusterer (umi <$> read_list) mismatches
       = Returned clusters /\
     c ∈ clusters /\ unusable read_list c).
Proof.
  unfold mark_duplicates_by_umi.
  destruct (cluster_sequences UMIClusterer (umi <$> read_list) mismatches)
    as [clusters|e']; simpl; [|intros [= ->]; by left].
  destruct (mapM (unique_read read_list) clusters) as [ss|e'] eqn:Hm; [done|].
  intros [= ->]. apply mapM_unique_read_raises in Hm as [-> Hex].
  right. split; [done|]. apply Exists_exists in Hex as (c & Hc & Hun).
  by exists clusters, c.
Qed.

(** X11.  [mark_duplicates_by_umi] raises what the clusterer raises.
    When the clusterer returns, it fails exactly when one of the
    clusters cannot be indexed, and then with an [IndexError]: the
    cluster is empty, or its first UMI contains the UMI of no read of
    the bucket (the test is [r.umi in c[0]]).  With any other clusters
    it returns.  It fails in no other way. *)
Theorem mark_duplicates_fails_exactly_on_an_unusable_cluster
    (UMIClusterer : umi_counts -> Z -> outcome umi_clusters)
    (read_list : list AlignedSegmentSummary) (mismatches : Z) :
  let called := cluster_sequences UMIClusterer (umi <$> read_list) mismatches in
  let result := mark_duplicates_by_umi UMIClusterer read_list mismatches in
  (forall e, called = Raised e -> result = Raised e) /\
  (forall clusters,
     called = Returned clusters ->
     ((exists c, c ∈ clusters /\ unusable read_list c) ->
      result = Raised IndexError) /\
     ((forall c, c ∈ clusters -> ~ unusable read_list c) ->
      exists dups, result = Returned dups)) /\
  (forall e,
     result = Raised e ->
     called = Raised e \/
     (e = IndexError /\
      exists clusters c,
        called = Returned clusters /\ c ∈ clusters /\ unusable read_list c)) /\
  (forall c0 rest,
     unusable read_list (c0 :: rest) <->
     forall r, r ∈ read_list -> Py.bytes_in (umi r) c0 = false).
Proof.
  intros called result.
  split; [apply mark_duplicates_clusterer_raises|].
  split; [|split; [apply mark_duplicates_raises|]].
  - intros clusters Hcall. subst result. unfold mark_duplicates_by_umi.
    fold called. rewrite Hcall. simpl.
    destruct (mapM_unique_read read_list clusters) as [Hbad Hgood]. split.
    + intros Hex. rewrite Hbad; [done|]. by apply Exists_exists.
    + intros Hall. destruct Hgood as [survivors ->]; [by apply Forall_forall|].
      by eexists.
  - intros c0 rest. simpl. unfold filter_by_attribute. split.
    + intros Hnil r Hr.
      destruct (Py.bytes_in (umi r) c0) eqn:Hin; [|done]. exfalso.
      assert (Hf : r ∈ filter (fun r => Py.bytes_in (umi r) c0) read_list).
      { apply list_elem_of_filter. split; [by apply Is_true_true | done]. }
      rewrite Hnil in Hf. by apply elem_of_nil in Hf.
    + intros Hall.
      destruct (filter (fun r => Py.bytes_in (umi r) c0) read_list)
        as [|r l] eqn:Hf; [done|]. exfalso.
      assert (Hr : r ∈ filter (fun r => Py.bytes_in (umi r) c0) read_list).
      { rewrite Hf. apply elem_of_cons. by left. }
      apply list_elem_of_filter in Hr as [Hin Hr].
      apply Is_true_true in Hin. by rewrite (Hall r Hr) in Hin.
Qed.

Lemma mark_duplicates_fails_exactly_on_an_unusable_cluster_witness :
  mark_duplicates_by_umi (fun _ _ => Returned [[Py.encode "AA"]])
                         [Sample.low_A; Sample.high_T] 1 =
  Raised IndexError.
Proof.
  destruct (mark_duplicates_fails_exactly_on_an_unusable_cluster
              (fun _ _ => Returned [[Py.encode "AA"]])
              [Sample.low_A; Sample.high_T] 1)
    as (_ & Hreturned & _).
  destruct (Hreturned [[Py.encode "AA"]]) as [Hbad _]; [reflexivity|].
  apply Hbad. exists [Py.encode "AA"].
  split; [apply list_elem_of_here | reflexivity].
Defined.

Lemma directional_some_cluster counts threshold :
  counts <> [] -> Directional.UMIClusterer counts threshold <> [].
Proof.
  intros Hne. unfold Directional.UMIClusterer.
  destruct counts as [|entry counts]; [done|].
  cbn [length Directional.assign].
  destruct (Directional.highest (entry :: counts) (keys (entry :: counts)))
    as [seed|] eqn:Hh; [done|].
  by apply highest_None in Hh.
Qed.

Lemma directional_call_some_cluster counts threshold clusters :
  counts <> [] ->
  Directional.call counts threshold = Returned clusters -> clusters <> [].
Proof.
  intros Hne Hret. apply directional_call_returned in Hret as ->.
  by apply directional_some_cluster.
Qed.

(** X12.  A bucket is never reported whole.  With a clusterer whose
    calls, when they return, return at least one cluster, each headed by
    one of the UMIs it was given, [mark_duplicates_by_umi] on a bucket
    that is not empty and on which the clusterer returns gives fewer
    names than the bucket has reads. *)
Theorem a_bucket_keeps_at_least_one_read
    (UMIClusterer : umi_counts -> Z -> outcome umi_clusters)
    (Hheads : well_headed UMIClusterer)
    (Hsome : forall counts threshold clusters,
               counts <> [] ->
               UMIClusterer counts threshold = Returned clusters ->
               clusters <> [])
    (read_list : list AlignedSegmentSummary) (mismatches : Z)
    (clusters : umi_clusters)
    (Hret : cluster_sequences UMIClusterer (umi <$> read_list) mismatches
            = Returned clusters)
    (Hreads : read_list <> []) :
  exists dups,
    mark_duplicates_by_umi UMIClusterer read_list mismatches = Returned dups /\
    (length dups < length read_list)%nat.
Proof.
  destruct (mark_duplicates_by_umi_spec UMIClusterer Hheads read_list mismatches
              clusters Hret)
    as (survivors & Hf2 & ->).
  eexists. split; [done|]. rewrite length_fmap.
  assert (Hclusters : clusters <> []).
  { revert Hret. unfold cluster_sequences.
    destruct read_list as [|r0 rest]; [done|].
    replace (0 <? Z.of_nat (length (umi <$> r0 :: rest))) with true
      by (symmetry; apply Z.ltb_lt; simpl; lia).
    apply Hsome. intros Hnil.
    assert (Hk : umi r0 ∈ keys (count_sequences (umi <$> r0 :: rest))).
    { apply count_sequences_keys. simpl. apply elem_of_cons. by left. }
    rewrite Hnil in Hk. by apply elem_of_nil in Hk. }
  destruct clusters as [|c clusters]; [done|].
  assert (Hc : c ∈ c :: clusters) by (apply elem_of_cons; by left).
  apply Forall2_cons_inv_l in Hf2 as (s & survivors' & Hs & _ & ->).
  destruct (unique_read_spec UMIClusterer Hheads read_list mismatches _ c Hret Hc)
    as (c0 & rest & s' & before & after & -> & Hs' & Hsub & _).
  rewrite Hs in Hs'. injection Hs' as <-.
  assert (Hin : s ∈ read_list).
  { assert (Hf : s ∈ filter_by_attribute read_list c0 umi).
    { rewrite Hsub. apply elem_of_app. right. apply elem_of_cons. by left. }
    by apply elem_of_filter_by_attribute in Hf as [_ ?]. }
  apply (length_filter_lt _ _ s); [done|].
  intros Hnot. apply Hnot. rewrite elem_of_list_to_set.
  apply list_elem_of_fmap. exists s. split; [done|]. apply elem_of_cons. by left.
Qed.

Lemma a_bucket_keeps_at_least_one_read_witness :
  exists dups,
    mark_duplicates_by_umi Directional.call
                           [Sample.low_A; Sample.high_T] 1 = Returned dups /\
    (length dups < length [Sample.low_A; Sample.high_T])%nat.
Proof.
  apply (a_bucket_keeps_at_least_one_read Directional.call
           directional_well_headed directional_call_some_cluster
           [Sample.low_A; Sample.high_T] 1
           [[umi Sample.low_A; umi Sample.high_T]]).
  - vm_compute. reflexivity.
  - discriminate.
Defined.

Section one_umi.

Lemma NoDup_all_equal {A} (l : list A) (u : A) :
  NoDup l -> u ∈ l -> (forall x, x ∈ l -> x = u) -> l = [u].
Proof.
  intros Hnd Hu Hall. destruct l as [|x l]; [by apply elem_of_nil in Hu|].
  assert (x = u) as -> by (apply Hall, elem_of_cons; by left).
  destruct l as [|y l]; [done|]. exfalso.
  assert (y = u) as -> by (apply Hall, elem_of_cons; right; apply elem_of_cons; by left).
  apply NoDup_cons in Hnd as [Hnot _]. apply Hnot, elem_of_cons. by left.
Qed.

Lemma concat_singleton {A} (ls : list (list A)) (u : A) :
  concat ls = [u] -> (forall c, c ∈ ls -> c <> []) -> ls = [[u]].
Proof.
  intros Hcat Hne. destruct ls as [|c ls]; [done|].
  destruct c as [|a c].
  { exfalso. apply (Hne []); [|done]. apply elem_of_cons. by left. }
  simpl in Hcat. injection Hcat as -> Hrest.
  apply app_eq_nil in Hrest as [-> Hrest].
  destruct ls as [|c' ls]; [done|]. exfalso.
  destruct c' as [|a' c'].
  - apply (Hne []); [|done]. apply elem_of_cons. right. apply elem_of_cons. by left.
  - done.
Qed.

Lemma filter_all {A} (P : A -> Prop) `{forall x, Decision (P x)} (l : list A) :
  (forall x, x ∈ l -> P x) -> filter P l = l.
Proof.
  induction l as [|x l IH]; intros Hall; [done|].
  rewrite filter_cons, decide_True by (apply Hall, elem_of_cons; by left).
  f_equal. apply IH. intros y Hy. apply Hall, elem_of_cons. by right.
Qed.

End one_umi.

(** X13.  A bucket whose reads all carry one UMI.  With a clusterer
    whose clusters, when it returns, cover the UMIs of its counts
    exactly, and which returns on the bucket, the reads reported are
    those whose name is not the name of the read that [pick_best]
    returns for the whole bucket. *)
Theorem one_umi_bucket_reports_all_but_the_best
    (UMIClusterer : umi_counts -> Z -> outcome umi_clusters)
    (Hcover : forall counts threshold clusters,
                NoDup (keys counts) ->
                UMIClusterer counts threshold = Returned clusters ->
                partitions clusters (keys counts))
    (r0 : AlignedSegmentSummary) (rest : list AlignedSegmentSummary)
    (mismatches : Z)
    (clusters : umi_clusters)
    (Hret : cluster_sequences UMIClusterer (umi <$> r0 :: rest) mismatches
            = Returned clusters)
    (Hsame : forall r, r ∈ rest -> umi r = umi r0) :
  exists best,
    pick_best (r0 :: rest) = Returned best /\
    mark_duplicates_by_umi UMIClusterer (r0 :: rest) mismatches =
    Returned (name <$> filter (fun r => name r <> name best) (r0 :: rest)).
Proof.
  revert Hret. set (read_list := r0 :: rest). intros Hret.
  assert (Hall : forall r, r ∈ read_list -> umi r = umi r0).
  { intros r [->|Hr]%elem_of_cons; [done | by apply Hsame]. }
  assert (Hkeys : keys (count_sequences (umi <$> read_list)) = [umi r0]).
  { apply NoDup_all_equal; [apply count_sequences_NoDup | |].
    - apply (count_sequences_keys (umi <$> read_list)). simpl.
      apply elem_of_cons. by left.
    - intros u Hu. apply (count_sequences_keys (umi <$> read_list)) in Hu.
      apply list_elem_of_fmap in Hu as (r & -> & Hr). by apply Hall. }
  assert (Hclusters : clusters = [[umi r0]]).
  { revert Hret. unfold cluster_sequences.
    replace (0 <? Z.of_nat (length (umi <$> read_list))) with true
      by (symmetry; apply Z.ltb_lt; simpl; lia).
    intros Hret.
    destruct (Hcover (count_sequences (umi <$> read_list)) mismatches clusters)
      as (Hcov & Hnd & Hne); [apply count_sequences_NoDup | done |].
    rewrite Hkeys in Hcov. apply concat_singleton; [|done].
    apply NoDup_all_equal; [done | |].
    - apply Hcov, elem_of_cons. by left.
    - intros u Hu. apply Hcov in Hu. by apply list_elem_of_singleton in Hu. }
  assert (Hfilter : filter_by_attribute read_list (umi r0) umi = read_list).
  { unfold filter_by_attribute. apply filter_all. intros r Hr.
    rewrite (Hall r Hr). apply Is_true_true, bytes_in_refl. }
  assert (Hbest : exists best,
             pick_best read_list = Returned best /\
             unique_read read_list [umi r0] = Returned best).
  { unfold unique_read. rewrite Hfilter. subst read_list.
    destruct rest as [|r1 l].
    - exists r0. by split.
    - replace (1 <? Z.of_nat (length (r0 :: r1 :: l))) with true
        by (symmetry; apply Z.ltb_lt; simpl; lia).
      by eexists. }
  destruct Hbest as (best & Hpick & Hunique).
  exists best. split; [done|].
  unfold mark_duplicates_by_umi. rewrite Hret, Hclusters.
  cbn [mbind outcome_bind mapM]. rewrite Hunique. simpl.
  do 2 f_equal. apply list_filter_iff. intros r.
  rewrite elem_of_union, elem_of_singleton. split.
  - intros Hn Heq. apply Hn. by left.
  - intros Hn [Heq|Hemp]; [done | by apply not_elem_of_empty in Hemp].
Qed.

Lemma directional_call_partitions counts threshold clusters :
  NoDup (keys counts) ->
  Directional.call counts threshold = Returned clusters ->
  partitions clusters (keys counts).
Proof.
  intros Hnd Hret. apply directional_call_returned in Hret as ->.
  by apply directional_partitions.
Qed.

Lemma one_umi_bucket_reports_all_but_the_best_witness :
  exists best,
    pick_best [Sample.twin_2; Sample.twin_1; Sample.third] = Returned best /\
    mark_duplicates_by_umi Directional.call
      [Sample.twin_2; Sample.twin_1; Sample.third] 1 =
    Returned (name <$> filter (fun r => name r <> name best)
                              [Sample.twin_2; Sample.twin_1; Sample.third]).
Proof.
  apply (one_umi_bucket_reports_all_but_the_best Directional.call
           directional_call_partitions Sample.twin_2
           [Sample.twin_1; Sample.third] 1 [[umi Sample.twin_2]]).
  - vm_compute. reflexivity.
  - intros r [->|[->|Hr]%elem_of_cons]%elem_of_cons; [done | done |].
    by apply elem_of_nil in Hr.
Defined.

(** ** The scan of an index *)

Section index_items_facts.
Implicit Types (index : position_index).

Lemma elem_of_index_items index pos reads :
  (pos, reads) ∈ index_items index <->
  exists refname contig, (refname, contig) ∈ index /\ (pos, reads) ∈ contig.
Proof.
  unfold index_items, values. rewrite elem_of_concat. split.
  - intros (contig & Hin & Hc).
    apply list_elem_of_fmap in Hc as ([r c] & -> & Hc). by exists r, c.
  - intros (r & c & Hc & Hin). exists c. split; [done|].
    apply list_elem_of_fmap. by exists (r, c).
Qed.

(** In a well-keyed index the items are the buckets that are not
    empty. *)
Lemma index_items_buckets index pos reads :
  well_keyed index ->
  (pos, reads) ∈ index_items index <->
  reads <> [] /\ exists refname, bucket index refname pos = reads.
Proof.
  intros Hwk. rewrite elem_of_index_items. split.
  - intros (r & c & Hc & Hin). split.
    + destruct Hwk as [_ Hcontigs].
      destruct (Hcontigs _ _ Hc) as (_ & _ & Hreads).
      by destruct (Hreads _ _ Hin).
    + exists r. by apply (well_keyed_bucket index r c).
  - intros [Hne (r & Hb)]. unfold bucket in Hb.
    destruct (dict_get r index) as [c|] eqn:Hc; simpl in Hb; [|by subst].
    destruct (dict_get pos c) as [b|] eqn:Hp; simpl in Hb; [|by subst].
    subst b. exists r, c. split; by apply dict_get_elem.
Qed.

Lemma contig_loci refname (contig : list (Z * list AlignedSegmentSummary)) :
  (forall pos reads,
     (pos, reads) ∈ contig ->
     reads <> [] /\ forall x, x ∈ reads -> reference x = refname /\ start x = pos) ->
  item_locus <$> contig = (fun pos => (refname, pos)) <$> keys contig.
Proof.
  unfold keys. induction contig as [|[pos reads] contig IH]; intros Hreads; [done|].
  rewrite !fmap_cons. f_equal.
  - destruct (Hreads pos reads) as [Hne Hloc]; [apply elem_of_cons; by left|].
    destruct reads as [|x reads]; [done|].
    unfold item_locus. simpl. f_equal. apply Hloc, elem_of_cons. by left.
  - apply IH. intros p b Hb. apply Hreads, elem_of_cons. by right.
Qed.

Lemma index_items_loci index :
  well_keyed index -> item_locus <$> index_items index = loci index.
Proof.
  intros [_ Hcontigs]. unfold loci, index_items, values.
  induction index as [|[r c] index IH]; [done|].
  rewrite !fmap_cons. cbn [concat fst snd]. rewrite fmap_app. f_equal.
  - apply contig_loci. apply (Hcontigs r c). apply elem_of_cons. by left.
  - apply IH. intros r' c' Hc. apply Hcontigs, elem_of_cons. by right.
Qed.

Lemma index_items_NoDup index : well_keyed index -> NoDup (index_items index).
Proof.
  intros Hwk. apply (NoDup_fmap_1 item_locus).
  rewrite index_items_loci by done. by apply loci_NoDup.
Qed.

(** Two well-keyed indexes with the same buckets list the same items,
    in whatever order. *)
Lemma index_items_Permutation index index' :
  well_keyed index -> well_keyed index' ->
  (forall refname pos, bucket index' refname pos = bucket index refname pos) ->
  index_items index ≡ₚ index_items index'.
Proof.
  intros Hwk Hwk' Hsame.
  apply NoDup_Permutation; [by apply index_items_NoDup..|].
  intros [pos reads]. rewrite !index_items_buckets by done.
  split; intros [Hne (r & Hb)]; (split; [done|]); exists r.
  - by rewrite Hsame.
  - by rewrite <- Hsame.
Qed.

End index_items_facts.

Section scan_facts.
Variable UMIClusterer : umi_counts -> Z -> outcome umi_clusters.
Variable umi_mismatches : Z.

Local Abbreviation scan_contig := (find_in_contig UMIClusterer umi_mismatches).
Local Abbreviation scan_refs := (find_in_refs UMIClusterer umi_mismatches).
Local Abbreviation scan := (_find_duplicate_ids UMIClusterer umi_mismatches).

(** The scan reads keys that the index has, so no access inserts one. *)
Lemma find_in_refs_index refs :
  forall duplicates (aln_index : position_index),
    (forall ref, ref ∈ refs -> ref ∈ keys aln_index) ->
    (scan_refs refs duplicates aln_index).2 = aln_index.
Proof.
  induction refs as [|ref refs IH]; intros duplicates aln_index Hkeys; simpl.
  - done.
  - assert (Hsame : (defaultdict_getitem [] ref aln_index).2 = aln_index).
    { apply defaultdict_getitem_present, Hkeys, elem_of_cons. by left. }
    destruct (defaultdict_getitem [] ref aln_index) as [contig index'].
    simpl in Hsame. subst index'.
    destruct (scan_contig contig duplicates) as [dups|e]; [|done].
    apply IH. intros r Hr. apply Hkeys, elem_of_cons. by right.
Qed.

Lemma getitem_of_key (index : position_index) ref :
  ref ∈ keys index ->
  exists contig,
    defaultdict_getitem [] ref index = (contig, index) /\ (ref, contig) ∈ index.
Proof.
  intros Hin. unfold defaultdict_getitem.
  destruct (dict_get_is_Some ref index Hin) as [contig Hget].
  rewrite Hget. exists contig. split; [done | by apply dict_get_elem].
Qed.

(** The names a scan adds do not depend on those it starts with. *)
Lemma find_in_contig_acc items :
  forall duplicates,
    scan_contig items duplicates =
    match scan_contig items [] with
    | Returned found => Returned (duplicates ++ found)
    | Raised e => Raised e
    end.
Proof.
  induction items as [|[i reads] items IH]; intros duplicates; simpl.
  - by rewrite app_nil_r.
  - destruct (1 <? Z.of_nat (length reads)); [|apply IH].
    destruct (mark_duplicates_by_umi UMIClusterer reads umi_mismatches)
      as [ids|e]; simpl; [|done].
    rewrite (IH (duplicates ++ ids)), (IH ids).
    destruct (scan_contig items []) as [found|e]; [|done].
    by rewrite app_assoc.
Qed.

Lemma find_in_contig_cons pos reads items :
  scan_contig ((pos, reads) :: items) [] =
  match (if 1 <? Z.of_nat (length reads)
         then mark_duplicates_by_umi UMIClusterer reads umi_mismatches
         else Returned []) with
  | Returned ids =>
      match scan_contig items [] with
      | Returned found => Returned (ids ++ found)
      | Raised e => Raised e
      end
  | Raised e => Raised e
  end.
Proof.
  simpl. destruct (1 <? Z.of_nat (length reads)).
  - destruct (mark_duplicates_by_umi UMIClusterer reads umi_mismatches)
      as [ids|e]; simpl; [|done].
    apply find_in_contig_acc.
  - by destruct (scan_contig items []).
Qed.

Lemma find_in_contig_app items1 items2 :
  forall duplicates,
    scan_contig (items1 ++ items2) duplicates =
    match scan_contig items1 duplicates with
    | Returned found => scan_contig items2 found
    | Raised e => Raised e
    end.
Proof.
  induction items1 as [|[i reads] items1 IH]; intros duplicates; simpl; [done|].
  destruct (1 <? Z.of_nat (length reads)); [|apply IH].
  destruct (mark_duplicates_by_umi UMIClusterer reads umi_mismatches)
    as [ids|e]; simpl; [apply IH | done].
Qed.

(** The scan of an index is the scan of its items, one contig after the
    other. *)
Lemma find_in_refs_items (entries : position_index) :
  forall duplicates (index : position_index),
    (forall ref contig, (ref, contig) ∈ entries -> dict_get ref index = Some contig) ->
    scan_refs (keys entries) duplicates index =
    (scan_contig (index_items entries) duplicates, index).
Proof.
  induction entries as [|[ref contig] entries IH]; intros duplicates index Hget;
    [done|].
  change (keys ((ref, contig) :: entries)) with (ref :: keys entries).
  change (index_items ((ref, contig) :: entries))
    with (contig ++ index_items entries).
  rewrite find_in_contig_app. simpl. unfold defaultdict_getitem.
  rewrite (Hget ref contig) by (apply elem_of_cons; by left).
  destruct (scan_contig contig duplicates) as [found|e]; [|done].
  apply IH. intros r c Hc. apply Hget, elem_of_cons. by right.
Qed.

Lemma find_duplicate_ids_items (index : position_index) :
  NoDup (keys index) ->
  scan index = (scan_contig (index_items index) [], index).
Proof.
  intros Hnd. unfold _find_duplicate_ids. apply find_in_refs_items.
  intros ref contig Hc. by apply dict_get_NoDup.
Qed.

(** The scan returns exactly when every bucket of more than one read is
    got through, and what it raises was raised for such a bucket. *)
Lemma find_in_contig_Returned items :
  forall duplicates,
    (exists dups, scan_contig items duplicates = Returned dups) <->
    (forall reads,
       reads ∈ values items -> (1 < length reads)%nat ->
       exists ids,
         mark_duplicates_by_umi UMIClusterer reads umi_mismatches = Returned ids).
Proof.
  unfold values. induction items as [|[pos reads] items IH]; intros duplicates.
  - simpl. split; [|by eexists]. intros _ reads Hin. by apply elem_of_nil in Hin.
  - cbn [find_in_contig]. rewrite fmap_cons. cbn [snd].
    destruct (Z.ltb_spec 1 (Z.of_nat (length reads))) as [Hbig|Hsmall].
    + destruct (mark_duplicates_by_umi UMIClusterer reads umi_mismatches)
        as [ids|e] eqn:Hmark; cbn [mbind outcome_bind].
      * rewrite IH. split.
        -- intros Hall b [->|Hb]%elem_of_cons Hlen; [by eexists | by apply Hall].
        -- intros Hall b Hb. apply Hall, elem_of_cons. by right.
      * split; [by intros [? ?]|]. intros Hall.
        destruct (Hall reads) as [ids Hids]; [apply elem_of_cons; by left | lia |].
        by rewrite Hmark in Hids.
    + rewrite IH. split.
      * intros Hall b [->|Hb]%elem_of_cons Hlen; [lia | by apply Hall].
      * intros Hall b Hb. apply Hall, elem_of_cons. by right.
Qed.

Lemma find_in_contig_Raised items :
  forall duplicates e,
    scan_contig items duplicates = Raised e ->
    exists reads,
      reads ∈ values items /\ (1 < length reads)%nat /\
      mark_duplicates_by_umi UMIClusterer reads umi_mismatches = Raised e.
Proof.
  unfold values. induction items as [|[pos reads] items IH]; intros duplicates e;
    [done|].
  cbn [find_in_contig]. rewrite fmap_cons. cbn [snd].
  assert (Hlater : forall d,
            scan_contig items d = Raised e ->
            exists b,
              b ∈ reads :: items.*2 /\ (1 < length b)%nat /\
              mark_duplicates_by_umi UMIClusterer b umi_mismatches = Raised e).
  { intros d Hd. destruct (IH d e Hd) as (b & Hb & ?).
    exists b. split; [apply elem_of_cons; by right | done]. }
  destruct (Z.ltb_spec 1 (Z.of_nat (length reads))) as [Hbig|Hsmall];
    [|apply Hlater].
  destruct (mark_duplicates_by_umi UMIClusterer reads umi_mismatches)
    as [ids|e'] eqn:Hmark; cbn [mbind outcome_bind]; [apply Hlater|].
  intros [= ->]. exists reads.
  split; [apply elem_of_cons; by left|]. split; [lia | done].
Qed.

(** Items met in another order give the same names in another order. *)
Lemma find_in_contig_Permutation items items' :
  items ≡ₚ items' ->
  forall found,
    scan_contig items [] = Returned found ->
    exists found', scan_contig items' [] = Returned found' /\ found ≡ₚ found'.
Proof.
  induction 1 as [|[pos reads] l l' Hperm IH|[p1 r1] [p2 r2] l|l l' l'' H1 IH1 H2 IH2];
    intros found.
  - intros [= <-]. by exists [].
  - rewrite !find_in_contig_cons.
    destruct (if 1 <? Z.of_nat (length reads)
              then mark_duplicates_by_umi UMIClusterer reads umi_mismatches
              else Returned []) as [ids|e]; [|done].
    destruct (scan_contig l []) as [f|e] eqn:Hl; [|done].
    intros [= <-]. destruct (IH f eq_refl) as (f' & -> & Hf).
    exists (ids ++ f'). split; [done|]. by apply Permutation_app_head.
  - rewrite !find_in_contig_cons.
    destruct (if 1 <? Z.of_nat (length r2)
              then mark_duplicates_by_umi UMIClusterer r2 umi_mismatches
              else Returned []) as [ids2|e]; [|done].
    destruct (if 1 <? Z.of_nat (length r1)
              then mark_duplicates_by_umi UMIClusterer r1 umi_mismatches
              else Returned []) as [ids1|e]; [|done].
    destruct (scan_contig l []) as [f|e]; [|done].
    intros [= <-]. eexists. split; [done|].
    rewrite !app_assoc. apply Permutation_app_tail, Permutation_app_comm.
  - intros Hf. destruct (IH1 _ Hf) as (f' & Hf' & Hp1).
    destruct (IH2 _ Hf') as (f'' & Hf'' & Hp2).
    exists f''. split; [done | by etrans].
Qed.

Lemma find_duplicate_ids_Returned (index : position_index) :
  well_keyed index ->
  (exists dups, (scan index).1 = Returned dups) <->
  (forall refname pos,
     (1 < length (bucket index refname pos))%nat ->
     resolvable UMIClusterer umi_mismatches (bucket index refname pos)).
Proof.
  intros Hwk. rewrite find_duplicate_ids_items by apply Hwk. cbn [fst].
  rewrite find_in_contig_Returned. split.
  - intros Hall r p Hlen. apply mark_duplicates_resolvable.
    apply Hall; [|done]. unfold values. apply list_elem_of_fmap.
    exists (p, bucket index r p). split; [done|].
    apply index_items_buckets; [done|]. split; [|by exists r].
    intros Hnil. rewrite Hnil in Hlen. simpl in Hlen. lia.
  - intros Hall reads Hin Hlen. unfold values in Hin.
    apply list_elem_of_fmap in Hin as ([p b] & -> & Hin).
    apply index_items_buckets in Hin as [_ (r & <-)]; [|done].
    apply mark_duplicates_resolvable. by apply Hall.
Qed.

Lemma find_duplicate_ids_Raised (index : position_index) e :
  well_keyed index ->
  (scan index).1 = Raised e ->
  exists refname pos,
    (1 < length (bucket index refname pos))%nat /\
    mark_duplicates_by_umi UMIClusterer (bucket index refname pos) umi_mismatches
      = Raised e.
Proof.
  intros Hwk. rewrite find_duplicate_ids_items by apply Hwk. cbn [fst].
  intros Hraised. apply find_in_contig_Raised in Hraised as (reads & Hin & Hlen & Hm).
  unfold values in Hin. apply list_elem_of_fmap in Hin as ([p b] & -> & Hin).
  apply index_items_buckets in Hin as [_ (r & <-)]; [|done].
  by exists r, p.
Qed.

(** What the scan reports depends on the buckets only, not on the order
    in which the index lists them. *)
Lemma find_duplicate_ids_contents (index other : position_index) dups :
  well_keyed index -> well_keyed other ->
  (forall refname pos, bucket other refname pos = bucket index refname pos) ->
  (scan index).1 = Returned dups ->
  exists dups', (scan other).1 = Returned dups' /\ dups ≡ₚ dups'.
Proof.
  intros Hwk Hwk' Hsame.
  rewrite !find_duplicate_ids_items by (apply Hwk || apply Hwk'). cbn [fst].
  apply find_in_contig_Permutation. by apply index_items_Permutation.
Qed.

(** Buckets of at most one read are passed over. *)
Lemma find_in_contig_small items duplicates :
  (forall reads, reads ∈ values items -> (length reads <= 1)%nat) ->
  scan_contig items duplicates = Returned duplicates.
Proof.
  unfold values. induction items as [|[pos reads] items IH]; intros Hsmall; [done|].
  simpl. replace (1 <? Z.of_nat (length reads)) with false.
  - apply IH. intros b Hb. apply Hsmall. rewrite fmap_cons. apply elem_of_cons. by right.
  - symmetry. apply Z.ltb_ge.
    assert (length reads <= 1)%nat; [|lia].
    apply Hsmall. rewrite fmap_cons. apply elem_of_cons. by left.
Qed.

Lemma find_in_refs_small refs :
  forall duplicates (index : position_index),
    (forall ref, ref ∈ refs -> ref ∈ keys index) ->
    (forall contig, contig ∈ values index ->
       forall reads, reads ∈ values contig -> (length reads <= 1)%nat) ->
    scan_refs refs duplicates index = (Returned duplicates, index).
Proof.
  induction refs as [|ref refs IH]; intros duplicates index Hkeys Hsmall; [done|].
  simpl.
  destruct (getitem_of_key index ref) as (contig & -> & Hc).
  { apply Hkeys, elem_of_cons. by left. }
  rewrite find_in_contig_small.
  - apply IH; [|done]. intros r Hr. apply Hkeys, elem_of_cons. by right.
  - apply Hsmall. unfold values. apply list_elem_of_fmap. by exists (ref, contig).
Qed.

(** Whatever is reported is the name of a read of the bucket. *)
Lemma mark_duplicates_names read_list dups :
  mark_duplicates_by_umi UMIClusterer read_list umi_mismatches = Returned dups ->
  forall n, n ∈ dups -> exists r, r ∈ read_list /\ name r = n.
Proof.
  unfold mark_duplicates_by_umi.
  destruct (cluster_sequences UMIClusterer (umi <$> read_list) umi_mismatches)
    as [clusters|e]; cbn [mbind outcome_bind]; [|done].
  destruct (mapM (unique_read read_list) clusters) as [survivors|e];
    cbn [mbind outcome_bind]; [|done].
  intros [= <-] n Hn. apply list_elem_of_fmap in Hn as (r & -> & Hr).
  apply list_elem_of_filter in Hr as [_ Hr]. by exists r.
Qed.

Lemma find_in_contig_names items :
  forall duplicates dups,
    scan_contig items duplicates = Returned dups ->
    forall n, n ∈ dups ->
      n ∈ duplicates \/
      exists reads x, reads ∈ values items /\ x ∈ reads /\ name x = n.
Proof.
  unfold values.
  induction items as [|[pos reads] items IH]; intros duplicates dups; simpl.
  - intros [= <-] n Hn. by left.
  - assert (Hlater : forall d,
              scan_contig items d = Returned dups ->
              forall n, n ∈ dups ->
                n ∈ d \/
                exists reads' x,
                  reads' ∈ reads :: items.*2 /\ x ∈ reads' /\ name x = n).
    { intros d Hd n Hn. destruct (IH d dups Hd n Hn) as [?|(b & x & Hb & Hx)].
      - by left.
      - right. exists b, x. split; [apply elem_of_cons; by right | done]. }
    destruct (1 <? Z.of_nat (length reads)); [|by apply Hlater].
    destruct (mark_duplicates_by_umi UMIClusterer reads umi_mismatches)
      as [ids|e] eqn:Hmark; simpl; [|done].
    intros Hd n Hn. destruct (Hlater _ Hd n Hn) as [Hin|?]; [|by right].
    apply elem_of_app in Hin as [?|Hin]; [by left|].
    right. destruct (mark_duplicates_names reads ids Hmark n Hin) as (x & Hx & Hname).
    exists reads, x. split; [apply elem_of_cons; by left | done].
Qed.

Lemma find_in_refs_names refs :
  forall duplicates (index : position_index) dups,
    (forall ref, ref ∈ refs -> ref ∈ keys index) ->
    (scan_refs refs duplicates index).1 = Returned dups ->
    forall n, n ∈ dups ->
      n ∈ duplicates \/ exists x, x ∈ index_reads index /\ name x = n.
Proof.
  induction refs as [|ref refs IH]; intros duplicates index dups Hkeys; simpl.
  - intros [= <-] n Hn. by left.
  - destruct (getitem_of_key index ref) as (contig & -> & Hc).
    { apply Hkeys, elem_of_cons. by left. }
    destruct (scan_contig contig duplicates) as [d|e] eqn:Hcontig; [|done].
    intros Hrest n Hn.
    assert (Hk : forall r, r ∈ refs -> r ∈ keys index).
    { intros r Hr. apply Hkeys, elem_of_cons. by right. }
    destruct (IH d index dups Hk Hrest n Hn) as [Hin|?]; [|by right].
    destruct (find_in_contig_names contig duplicates d Hcontig n Hin)
      as [?|(reads & x & Hreads & Hx & Hname)]; [by left|].
    right. exists x. split; [|done].
    unfold values in Hreads. apply list_elem_of_fmap in Hreads as ([pos b] & -> & Hb).
    apply elem_of_index_reads. by exists ref, contig, pos, b.
Qed.

End scan_facts.

(** ** The summary *)

Lemma size_list_to_set_le (l : list string) :
  (size (list_to_set l : gset string) <= length l)%nat.
Proof.
  induction l as [|x l IH].
  - rewrite list_to_set_nil. rewrite size_empty. done.
  - rewrite list_to_set_cons. rewrite size_union_alt, size_singleton.
    assert (H : (size (list_to_set l ∖ {[x]} : gset string)
                 <= size (list_to_set l : gset string))%nat).
    { apply subseteq_size, subseteq_difference_l. done. }
    simpl. lia.
Qed.

Lemma quotient_in_unit_interval (a b : Z) :
  0 <= a <= b -> 0 < b ->
  Qle (inject_Z 0) (Qdiv (inject_Z a) (inject_Z b)) /\
  Qle (Qdiv (inject_Z a) (inject_Z b)) (inject_Z 1).
Proof.
  intros [Ha Hab] Hb.
  assert (Hpos : Qlt (inject_Z 0) (inject_Z b)) by by rewrite <- Zlt_Qlt.
  split.
  - apply Qle_shift_div_l; [done|]. rewrite Qmult_0_l.
    unfold Qle. simpl. lia.
  - apply Qle_shift_div_r; [done|]. rewrite Qmult_1_l. by rewrite <- Zle_Qle.
Qed.

Lemma small_buckets_small_entries (index : position_index) :
  well_keyed index ->
  (forall refname pos, (length (bucket index refname pos) <= 1)%nat) ->
  forall contig, contig ∈ values index ->
    forall reads, reads ∈ values contig -> (length reads <= 1)%nat.
Proof.
  intros Hwk Hsmall contig Hc reads Hr. unfold values in *.
  apply list_elem_of_fmap in Hc as ([refname c] & -> & Hc).
  apply list_elem_of_fmap in Hr as ([pos b] & -> & Hb). simpl in *.
  rewrite <- (well_keyed_bucket index refname c pos b Hwk Hc Hb). apply Hsmall.
Qed.

Section deduplicate_facts.
Variable UMIClusterer : umi_counts -> Z -> outcome umi_clusters.
Variables umi_length multimap_cutoff stub_length umi_mismatches : Z.
Variable src_bam : list pysam.AlignedSegment.

Local Abbreviation built :=
  (AlignmentIndex_init umi_length multimap_cutoff stub_length src_bam).
Local Abbreviation r1_run :=
  (_find_duplicate_ids UMIClusterer umi_mismatches (r1_reads_by_position built)).1.
Local Abbreviation r2_run :=
  (_find_duplicate_ids UMIClusterer umi_mismatches
     (r2_only_reads_by_position built)).1.
Local Abbreviation result :=
  (deduplicate UMIClusterer umi_length multimap_cutoff stub_length
               umi_mismatches src_bam).

(** [deduplicate] in terms of its two scans. *)
Lemma deduplicate_runs :
  result =
  match r1_run with
  | Returned r1_names =>
      match r2_run with
      | Returned r2_names =>
          Returned
            {| DedupSummary.total := total built;
               DedupSummary.total_dups :=
                 Z.of_nat (size ((list_to_set r1_names : gset string)
                                 ∪ list_to_set r2_names));
               DedupSummary.r1_dups := Z.of_nat (length r1_names);
               DedupSummary.r2_only_dups := Z.of_nat (length r2_names);
               DedupSummary.multi_dups := 0 |}
      | Raised e => Raised e
      end
  | Raised e => Raised e
  end.
Proof.
  unfold deduplicate.
  destruct r1_run as [r1_names|e]; cbn [mbind outcome_bind]; [|done].
  destruct r2_run as [r2_names|e]; cbn [mbind outcome_bind]; [|done].
  by rewrite list_to_set_app_L.
Qed.

Lemma deduplicate_Returned :
  (exists summary, result = Returned summary) <->
  (forall reads,
     scanned built reads -> resolvable UMIClusterer umi_mismatches reads).
Proof.
  destruct (built_indexes_well_keyed umi_length multimap_cutoff stub_length src_bam)
    as [Hwk1 Hwk2].
  pose proof (find_duplicate_ids_Returned UMIClusterer umi_mismatches _ Hwk1) as H1.
  pose proof (find_duplicate_ids_Returned UMIClusterer umi_mismatches _ Hwk2) as H2.
  rewrite deduplicate_runs. split.
  - intros [summary Hsum] reads (Hlen & r & p & [->| ->]).
    + apply H1; [|done]. destruct r1_run; [by eexists | done].
    + apply H2; [|done]. destruct r1_run; [|done]. destruct r2_run; [by eexists | done].
  - intros Hall.
    destruct (proj2 H1) as [r1_names ->].
    { intros r p Hlen. apply Hall. split; [done|]. exists r, p. by left. }
    destruct (proj2 H2) as [r2_names ->].
    { intros r p Hlen. apply Hall. split; [done|]. exists r, p. by right. }
    by eexists.
Qed.

Lemma deduplicate_Raised e :
  result = Raised e ->
  exists reads,
    scanned built reads /\
    mark_duplicates_by_umi UMIClusterer reads umi_mismatches = Raised e.
Proof.
  destruct (built_indexes_well_keyed umi_length multimap_cutoff stub_length src_bam)
    as [Hwk1 Hwk2].
  rewrite deduplicate_runs.
  destruct r1_run as [r1_names|e1] eqn:H1.
  - destruct r2_run as [r2_names|e2] eqn:H2; [done|]. intros [= ->].
    apply find_duplicate_ids_Raised in H2 as (r & p & Hlen & Hm); [|done].
    eexists. split; [|exact Hm]. split; [done|]. exists r, p. by right.
  - intros [= ->].
    apply find_duplicate_ids_Raised in H1 as (r & p & Hlen & Hm); [|done].
    eexists. split; [|exact Hm]. split; [done|]. exists r, p. by left.
Qed.

(** With clusters headed by a UMI of the bucket, nothing but the
    clusterer can fail. *)
Lemma deduplicate_returns :
  well_headed UMIClusterer ->
  (forall reads,
     scanned built reads ->
     exists clusters,
       cluster_sequences UMIClusterer (umi <$> reads) umi_mismatches
         = Returned clusters) ->
  exists summary, result = Returned summary.
Proof.
  intros Hheads Hret. apply deduplicate_Returned. intros reads Hscan.
  destruct (Hret reads Hscan) as [clusters Hcl].
  apply mark_duplicates_resolvable.
  destruct (mark_duplicates_by_umi_spec UMIClusterer Hheads reads umi_mismatches
              clusters Hcl) as (survivors & _ & ->).
  by eexists.
Qed.

(** The names reported are names of indexed reads, which bounds their
    number by [total]. *)
Lemma deduplicate_bounds r1_names r2_names :
  r1_run = Returned r1_names -> r2_run = Returned r2_names ->
  0 <= Z.of_nat (size ((list_to_set r1_names : gset string) ∪ list_to_set r2_names))
    <= total built.
Proof.
  intros H1 H2.
  pose proof (find_in_refs_names UMIClusterer umi_mismatches _ [] _ r1_names
                (fun ref Hin => Hin) H1) as Hn1.
  pose proof (find_in_refs_names UMIClusterer umi_mismatches _ [] _ r2_names
                (fun ref Hin => Hin) H2) as Hn2.
  destruct (counts_as_name_sets umi_length multimap_cutoff stub_length src_bam)
    as (_ & Hc1 & Hc2 & Ht).
  destruct (index_init_spec umi_length multimap_cutoff stub_length src_bam)
    as (_ & _ & Hr1 & _ & Hr2 & _).
  set (names_of := fun m : Z =>
         (list_to_set
            ((fun rd => name (summarize umi_length multimap_cutoff stub_length rd))
               <$> filter (fun rd => mate (summarize umi_length multimap_cutoff
                                                     stub_length rd) = m)
                          (get_mapped_segments src_bam)) : gset string)) in *.
  assert (Hsub : (list_to_set r1_names : gset string) ∪ list_to_set r2_names
                 ⊆ names_of 1 ∪ names_of 2).
  { intros n Hn. apply elem_of_union in Hn.
    apply elem_of_union. destruct Hn as [Hn|Hn]; apply elem_of_list_to_set in Hn.
    - left. destruct (Hn1 n Hn) as [Hnil|(x & Hx & <-)]; [by apply elem_of_nil in Hnil|].
      apply Hr1 in Hx as (rd & Hrd & Hsel & _ & ->).
      apply first_sel_spec in Hsel.
      apply elem_of_list_to_set, list_elem_of_fmap. exists rd. split; [done|].
      by apply list_elem_of_filter.
    - right. destruct (Hn2 n Hn) as [Hnil|(x & Hx & <-)]; [by apply elem_of_nil in Hnil|].
      apply Hr2 in Hx as (rd & Hrd & Hsel & _ & ->).
      apply second_sel_spec in Hsel as [Hsel _].
      apply elem_of_list_to_set, list_elem_of_fmap. exists rd. split; [done|].
      by apply list_elem_of_filter. }
  apply subseteq_size in Hsub.
  rewrite (size_union_alt (names_of 1) (names_of 2)) in Hsub.
  assert (Hc1' : r1_counts built = Z.of_nat (size (names_of 1))) by exact Hc1.
  assert (Hc2' : r2_counts built = Z.of_nat (size (names_of 2 ∖ names_of 1)))
    by exact Hc2.
  lia.
Qed.

End deduplicate_facts.

(** ** C9: a second run of the duplicate search *)

(** C9.  A run of the duplicate search hands the index back unchanged:
    its accesses read only keys the index has, so none inserts one.  A
    second run on the index the first one left behind therefore gives
    the same result, and with it the same set of duplicate names.  What
    a run reports is decided by the contents of the index alone: on any
    other index that holds the same bucket at every locus, whatever the
    order in which its references and positions were first met, the run
    returns the same names up to their order, and it raises if the first
    one does.  The order of the reads within a bucket, which breaks ties
    between equal scores, is part of the contents. *)
Theorem find_duplicate_ids_is_repeatable
    (UMIClusterer : umi_counts -> Z -> outcome umi_clusters) (umi_mismatches : Z)
    (aln_index : position_index) :
  let first_run := _find_duplicate_ids UMIClusterer umi_mismatches aln_index in
  let second_run := _find_duplicate_ids UMIClusterer umi_mismatches first_run.2 in
  first_run.2 = aln_index /\
  second_run = first_run /\
  (forall dups1 dups2,
     first_run.1 = Returned dups1 -> second_run.1 = Returned dups2 ->
     (list_to_set dups1 : gset string) = list_to_set dups2) /\
  (forall other : position_index,
     well_keyed aln_index -> well_keyed other ->
     (forall refname pos, bucket other refname pos = bucket aln_index refname pos) ->
     let other_run := _find_duplicate_ids UMIClusterer umi_mismatches other in
     (forall dups,
        first_run.1 = Returned dups ->
        exists dups',
          other_run.1 = Returned dups' /\ dups ≡ₚ dups' /\
          (list_to_set dups : gset string) = list_to_set dups') /\
     (forall e, first_run.1 = Raised e -> exists e', other_run.1 = Raised e')).
Proof.
  intros first_run second_run.
  assert (Hsame : first_run.2 = aln_index).
  { apply find_in_refs_index. auto. }
  assert (Hrun : second_run = first_run).
  { subst second_run. by rewrite Hsame. }
  split; [done|]. split; [done|]. split.
  { intros dups1 dups2 H1 H2. rewrite Hrun, H1 in H2. by injection H2 as ->. }
  intros other Hwk Hwk' Hbuckets other_run. split.
  - intros dups Hdups.
    destruct (find_duplicate_ids_contents UMIClusterer umi_mismatches
                aln_index other dups Hwk Hwk' Hbuckets Hdups)
      as (dups' & Hother & Hperm).
    exists dups'. split; [done|]. split; [done|].
    by apply list_to_set_perm_L.
  - intros e Hraised.
    destruct (other_run.1) as [dups'|e'] eqn:Hother; [|by exists e'].
    exfalso.
    destruct (find_duplicate_ids_contents UMIClusterer umi_mismatches
                other aln_index dups' Hwk' Hwk) as (dups & Hfirst & _); [|done|].
    + intros refname pos. by rewrite Hbuckets.
    + fold first_run in Hfirst. by rewrite Hraised in Hfirst.
Qed.

Lemma find_duplicate_ids_is_repeatable_witness :
  let index :=
    r1_reads_by_position (AlignmentIndex_init 6 5 20 Sample.two_loci) in
  let other :=
    r1_reads_by_position (AlignmentIndex_init 6 5 20 Sample.two_loci_reordered) in
  keys index = ["chr1"; "chr2"]%string /\
  keys other = ["chr2"; "chr1"]%string /\
  exists dups',
    (_find_duplicate_ids Directional.call 1 index).1
      = Returned ["frag1"; "frag4"]%string /\
    (_find_duplicate_ids Directional.call 1 other).1 = Returned dups' /\
    ["frag1"; "frag4"]%string ≡ₚ dups' /\
    (list_to_set ["frag1"; "frag4"]%string : gset string) = list_to_set dups'.
Proof.
  intros index other.
  split; [reflexivity|]. split; [reflexivity|].
  destruct (find_duplicate_ids_is_repeatable Directional.call 1 index)
    as (_ & _ & _ & Hcontents).
  destruct (Hcontents other) as [Hreturned _].
  - apply (built_indexes_well_keyed 6 5 20 Sample.two_loci).
  - apply (built_indexes_well_keyed 6 5 20 Sample.two_loci_reordered).
  - intros refname pos.
    assert (E1 : index =
                 [("chr1"%string,
                   [(100, [summarize 6 5 20 (Sample.at_locus "chr1" 100 "frag1_AAAAAA" [30]);
                           summarize 6 5 20 (Sample.at_locus "chr1" 100 "frag3_AAAAAA" [45])])]);
                  ("chr2"%string,
                   [(7, [summarize 6 5 20 (Sample.at_locus "chr2" 7 "frag2_CCCCCC" [30]);
                         summarize 6 5 20 (Sample.at_locus "chr2" 7 "frag4_CCCCCC" [20])])])])
      by (vm_compute; reflexivity).
    assert (E2 : other =
                 [("chr2"%string,
                   [(7, [summarize 6 5 20 (Sample.at_locus "chr2" 7 "frag2_CCCCCC" [30]);
                         summarize 6 5 20 (Sample.at_locus "chr2" 7 "frag4_CCCCCC" [20])])]);
                  ("chr1"%string,
                   [(100, [summarize 6 5 20 (Sample.at_locus "chr1" 100 "frag1_AAAAAA" [30]);
                           summarize 6 5 20 (Sample.at_locus "chr1" 100 "frag3_AAAAAA" [45])])])])
      by (vm_compute; reflexivity).
    rewrite E1, E2. unfold bucket. cbn [dict_get].
    destruct (decide (refname = "chr1"%string)) as [Heq1|Hne1];
      destruct (decide (refname = "chr2"%string)) as [Heq2|Hne2];
      [congruence | reflexivity..].
  - destruct (Hreturned ["frag1"; "frag4"]%string) as (dups' & H2 & Hperm & Hset).
    + vm_compute. reflexivity.
    + exists dups'. split; [vm_compute; reflexivity|]. by repeat split.
Defined.

(** ** C7: the summary of a file *)

(** C7, as the code has it.  Whenever [deduplicate] returns a summary,
    both scans have returned, [total_dups] is the number of names in the
    union of the names reported for the first index and those reported
    for the second, and [multi_dups] is 0.  It returns exactly when, for
    every bucket of more than one read in either index, the clusterer
    returns and each of its clusters can be indexed; otherwise it
    raises, either what the clusterer raised for such a bucket or an
    [IndexError] for a cluster that is empty or whose first UMI contains
    the UMI of no read of the bucket.  With a clusterer whose clusters
    are headed by a UMI it was given, only the clusterer can fail.  The
    records are those of the record type, which carry their sequence
    and their qualities. *)
Theorem deduplicate_counts_the_union_of_names
    (UMIClusterer : umi_counts -> Z -> outcome umi_clusters)
    (umi_length multimap_cutoff stub_length umi_mismatches : Z)
    (src_bam : list pysam.AlignedSegment) :
  let index := AlignmentIndex_init umi_length multimap_cutoff stub_length src_bam in
  let r1_run :=
    (_find_duplicate_ids UMIClusterer umi_mismatches
       (r1_reads_by_position index)).1 in
  let r2_run :=
    (_find_duplicate_ids UMIClusterer umi_mismatches
       (r2_only_reads_by_position index)).1 in
  let result :=
    deduplicate UMIClusterer umi_length multimap_cutoff stub_length
                umi_mismatches src_bam in
  (forall summary,
     result = Returned summary ->
     exists r1_names r2_names,
       r1_run = Returned r1_names /\
       r2_run = Returned r2_names /\
       DedupSummary.total_dups summary =
         Z.of_nat (size ((list_to_set r1_names : gset string)
                         ∪ list_to_set r2_names)) /\
       DedupSummary.multi_dups summary = 0 /\
       DedupSummary.total summary = total index /\
       DedupSummary.r1_dups summary = Z.of_nat (length r1_names) /\
       DedupSummary.r2_only_dups summary = Z.of_nat (length r2_names)) /\
  ((exists summary, result = Returned summary) <->
   (forall reads,
      scanned index reads -> resolvable UMIClusterer umi_mismatches reads)) /\
  (forall e,
     result = Raised e ->
     exists reads,
       scanned index reads /\
       (cluster_sequences UMIClusterer (umi <$> reads) umi_mismatches = Raised e \/
        (e = IndexError /\
         exists clusters c,
           cluster_sequences UMIClusterer (umi <$> reads) umi_mismatches
             = Returned clusters /\
           c ∈ clusters /\ unusable reads c))) /\
  (well_headed UMIClusterer ->
   (forall reads,
      scanned index reads ->
      exists clusters,
        cluster_sequences UMIClusterer (umi <$> reads) umi_mismatches
          = Returned clusters) ->
   exists summary, result = Returned summary).
Proof.
  intros index r1_run r2_run result.
  split; [|split; [apply deduplicate_Returned|split; [|apply deduplicate_returns]]].
  - intros summary. subst result. rewrite deduplicate_runs.
    fold index. fold r1_run r2_run.
    destruct r1_run as [r1_names|e]; [|done].
    destruct r2_run as [r2_names|e]; [|done].
    intros [= <-]. by exists r1_names, r2_names.
  - intros e Hraised.
    apply deduplicate_Raised in Hraised as (reads & Hscan & Hmark).
    exists reads. split; [done|]. by apply mark_duplicates_raises.
Qed.

Lemma deduplicate_counts_the_union_of_names_witness :
  exists summary,
    deduplicate Directional.call 6 5 20 1 Sample.two_reads_one_umi
      = Returned summary /\
    DedupSummary.total_dups summary = 1 /\
    DedupSummary.multi_dups summary = 0.
Proof.
  destruct (deduplicate_counts_the_union_of_names Directional.call 6 5 20 1
              Sample.two_reads_one_umi) as (Hsummary & _ & _ & Hreturns).
  destruct Hreturns as [summary Hs].
  - exact directional_well_headed.
  - intros reads (Hlen & refname & pos & Hreads).
    assert (E1 : r1_reads_by_position
                   (AlignmentIndex_init 6 5 20 Sample.two_reads_one_umi) =
                 [("chr1"%string,
                   [(100, summarize 6 5 20 <$> Sample.two_reads_one_umi)])])
      by (vm_compute; reflexivity).
    assert (E2 : r2_only_reads_by_position
                   (AlignmentIndex_init 6 5 20 Sample.two_reads_one_umi) = [])
      by (vm_compute; reflexivity).
    rewrite E1, E2 in Hreads. unfold bucket in Hreads. cbn [dict_get] in Hreads.
    destruct Hreads as [->| ->]; [|simpl in Hlen; lia].
    revert Hlen.
    destruct (decide (refname = "chr1"%string)); [|simpl; lia].
    cbn [default from_option id dict_get].
    destruct (decide (pos = 100)); [|simpl; lia].
    intros _. eexists. vm_compute. reflexivity.
  - exists summary. split; [exact Hs|].
    destruct (Hsummary summary Hs) as (r1_names & r2_names & H1 & H2 & Hdups & Hmulti & _).
    split; [|exact Hmulti].
    rewrite Hdups.
    assert (E1 : (_find_duplicate_ids Directional.call 1
                    (r1_reads_by_position
                       (AlignmentIndex_init 6 5 20 Sample.two_reads_one_umi))).1
                 = Returned ["frag1"%string]) by (vm_compute; reflexivity).
    assert (E2 : (_find_duplicate_ids Directional.call 1
                    (r2_only_reads_by_position
                       (AlignmentIndex_init 6 5 20 Sample.two_reads_one_umi))).1
                 = Returned []) by (vm_compute; reflexivity).
    rewrite E1 in H1. rewrite E2 in H2.
    injection H1 as <-. injection H2 as <-.
    rewrite list_to_set_nil, (right_id_L ∅ (∪)).
    rewrite list_to_set_singleton, size_singleton. reflexivity.
Defined.

(** C7 fails on the code: not every input gets a summary.  Two first
    mates share a locus; the query name of the second is shorter than
    the UMI length, so the two UMIs have different lengths, the
    clusterer refuses them, and [deduplicate] raises what the clusterer
    raised. *)
Lemma deduplicate_raises_on_umis_of_two_lengths :
  umi <$> bucket (r1_reads_by_position
                    (AlignmentIndex_init 6 5 20 Sample.short_query_name))
                 "chr1" 100
    = [Py.encode "AAAAAA"; Py.encode "r2_AC"] /\
  cluster_sequences Directional.call [Py.encode "AAAAAA"; Py.encode "r2_AC"] 1
    = Raised AssertionError /\
  deduplicate Directional.call 6 5 20 1 Sample.short_query_name
    = Raised AssertionError.
Proof. vm_compute. repeat split. Qed.

(** The first example of the specification: two reads of one locus with
    one UMI and scores 30 and 45 give one duplicate. *)
Example deduplicate_two_reads_one_umi :
  deduplicate Directional.call 6 5 20 1 Sample.two_reads_one_umi =
  Returned {| DedupSummary.total := 2;
              DedupSummary.total_dups := 1;
              DedupSummary.r1_dups := 1;
              DedupSummary.r2_only_dups := 0;
              DedupSummary.multi_dups := 0 |}.
Proof. vm_compute. reflexivity. Qed.

(** ** More on the summary *)

(** X14.  A file in which no two reads of an index share a locus has no
    duplicates, whatever the clusterer does: neither scan reports a
    name, the clusterer is never consulted, and the summary holds zero
    for every duplicate count. *)
Theorem loci_of_one_read_give_no_duplicates
    (UMIClusterer : umi_counts -> Z -> outcome umi_clusters)
    (umi_length multimap_cutoff stub_length umi_mismatches : Z)
    (src_bam : list pysam.AlignedSegment)
    (Hr1 : forall refname pos,
       (length (bucket (r1_reads_by_position
                          (AlignmentIndex_init umi_length multimap_cutoff
                                               stub_length src_bam))
                       refname pos) <= 1)%nat)
    (Hr2 : forall refname pos,
       (length (bucket (r2_only_reads_by_position
                          (AlignmentIndex_init umi_length multimap_cutoff
                                               stub_length src_bam))
                       refname pos) <= 1)%nat) :
  let index := AlignmentIndex_init umi_length multimap_cutoff stub_length src_bam in
  _find_duplicate_ids UMIClusterer umi_mismatches (r1_reads_by_position index) =
    (Returned [], r1_reads_by_position index) /\
  _find_duplicate_ids UMIClusterer umi_mismatches (r2_only_reads_by_position index) =
    (Returned [], r2_only_reads_by_position index) /\
  deduplicate UMIClusterer umi_length multimap_cutoff stub_length umi_mismatches
              src_bam =
  Returned {| DedupSummary.total := total index;
              DedupSummary.total_dups := 0;
              DedupSummary.r1_dups := 0;
              DedupSummary.r2_only_dups := 0;
              DedupSummary.multi_dups := 0 |}.
Proof.
  intros index.
  destruct (built_indexes_well_keyed umi_length multimap_cutoff stub_length src_bam)
    as [Hwk1 Hwk2].
  fold index in Hwk1, Hwk2, Hr1, Hr2.
  assert (H1 : _find_duplicate_ids UMIClusterer umi_mismatches
                 (r1_reads_by_position index) =
               (Returned [], r1_reads_by_position index)).
  { apply find_in_refs_small; [auto|]. by apply small_buckets_small_entries. }
  assert (H2 : _find_duplicate_ids UMIClusterer umi_mismatches
                 (r2_only_reads_by_position index) =
               (Returned [], r2_only_reads_by_position index)).
  { apply find_in_refs_small; [auto|]. by apply small_buckets_small_entries. }
  split; [done|]. split; [done|].
  unfold deduplicate. fold index. by rewrite H1, H2.
Qed.

Lemma loci_of_one_read_give_no_duplicates_witness :
  deduplicate Directional.call 6 5 20 1
              [Sample.first_unique; Sample.other_second_unique] =
  Returned {| DedupSummary.total := 2;
              DedupSummary.total_dups := 0;
              DedupSummary.r1_dups := 0;
              DedupSummary.r2_only_dups := 0;
              DedupSummary.multi_dups := 0 |}.
Proof.
  assert (E1 : r1_reads_by_position
                 (AlignmentIndex_init 6 5 20
                    [Sample.first_unique; Sample.other_second_unique]) =
               [("chr1"%string, [(100, [summarize 6 5 20 Sample.first_unique])])])
    by (vm_compute; reflexivity).
  assert (E2 : r2_only_reads_by_position
                 (AlignmentIndex_init 6 5 20
                    [Sample.first_unique; Sample.other_second_unique]) =
               [("chr1"%string,
                 [(100, [summarize 6 5 20 Sample.other_second_unique])])])
    by (vm_compute; reflexivity).
  apply (loci_of_one_read_give_no_duplicates Directional.call 6 5 20 1
           [Sample.first_unique; Sample.other_second_unique]).
  - intros refname pos. rewrite E1. unfold bucket. simpl.
    destruct (decide (refname = "chr1"%string)); simpl; [|lia].
    destruct (decide (pos = 100)); simpl; lia.
  - intros refname pos. rewrite E2. unfold bucket. simpl.
    destruct (decide (refname = "chr1"%string)); simpl; [|lia].
    destruct (decide (pos = 100)); simpl; lia.
Defined.

(** X15.  The duplication fraction is a fraction.  Every summary that
    [deduplicate] returns has [0 <= total_dups <= total], and
    [total_dups] is at most [r1_dups + r2_only_dups]; when [total] is
    not zero, [fraction_duplication] returns a quotient between 0 and
    1.  It returns one when the clusterer returns on every bucket of
    more than one read, with clusters headed by a UMI it was given. *)
Theorem duplicates_never_exceed_total
    (UMIClusterer : umi_counts -> Z -> outcome umi_clusters)
    (umi_length multimap_cutoff stub_length umi_mismatches : Z)
    (src_bam : list pysam.AlignedSegment) :
  let index := AlignmentIndex_init umi_length multimap_cutoff stub_length src_bam in
  let result :=
    deduplicate UMIClusterer umi_length multimap_cutoff stub_length
                umi_mismatches src_bam in
  (forall summary,
     result = Returned summary ->
     0 <= DedupSummary.total_dups summary <= DedupSummary.total summary /\
     DedupSummary.total_dups summary <=
       DedupSummary.r1_dups summary + DedupSummary.r2_only_dups summary /\
     (DedupSummary.total summary <> 0 ->
      exists q, DedupSummary.fraction_duplication summary = Returned q /\
                Qle (inject_Z 0) q /\ Qle q (inject_Z 1))) /\
  (well_headed UMIClusterer ->
   (forall reads,
      scanned index reads ->
      exists clusters,
        cluster_sequences UMIClusterer (umi <$> reads) umi_mismatches
          = Returned clusters) ->
   exists summary, result = Returned summary).
Proof.
  intros index result. split; [|apply deduplicate_returns].
  intros summary. subst result. rewrite deduplicate_runs. fold index.
  destruct ((_find_duplicate_ids UMIClusterer umi_mismatches
               (r1_reads_by_position index)).1) as [d1|e] eqn:H1; [|done].
  destruct ((_find_duplicate_ids UMIClusterer umi_mismatches
               (r2_only_reads_by_position index)).1) as [d2|e] eqn:H2; [|done].
  intros [= <-]. cbn [DedupSummary.total DedupSummary.total_dups
                      DedupSummary.r1_dups DedupSummary.r2_only_dups].
  pose proof (deduplicate_bounds UMIClusterer umi_length multimap_cutoff
                stub_length umi_mismatches src_bam d1 d2 H1 H2) as Hbound.
  fold index in Hbound.
  pose proof (size_list_to_set_le (d1 ++ d2)) as Hlen.
  rewrite length_app, list_to_set_app_L in Hlen.
  split; [exact Hbound|]. split; [lia|].
  intros Hne. unfold DedupSummary.fraction_duplication.
  cbn [DedupSummary.total DedupSummary.total_dups].
  destruct (Z.eqb_spec (total index) 0) as [?|_]; [done|].
  eexists. split; [done|]. apply quotient_in_unit_interval; lia.
Qed.

Lemma duplicates_never_exceed_total_witness :
  exists summary,
    deduplicate Directional.call 6 5 20 1 Sample.two_reads_one_umi
      = Returned summary /\
    0 <= DedupSummary.total_dups summary <= DedupSummary.total summary /\
    DedupSummary.total_dups summary <=
      DedupSummary.r1_dups summary + DedupSummary.r2_only_dups summary /\
    (DedupSummary.total summary <> 0 ->
     exists q, DedupSummary.fraction_duplication summary = Returned q /\
               Qle (inject_Z 0) q /\ Qle q (inject_Z 1)).
Proof.
  destruct (duplicates_never_exceed_total Directional.call 6 5 20 1
              Sample.two_reads_one_umi) as [Hbounds _].
  eexists. split; [vm_compute; reflexivity|].
  apply Hbounds. vm_compute. reflexivity.
Defined.


(** ** Query names that are long enough *)

Lemma get_umi_length (read : pysam.AlignedSegment) (umi_length : Z) :
  1 <= umi_length ->
  length (get_umi read umi_length) =
  (String.length (pysam.query_name read) `min` Z.to_nat umi_length)%nat.
Proof.
  intros Hlen. unfold get_umi, Py.slice_from.
  rewrite slice_bound_neg by lia.
  rewrite length_encode, length_str_drop. unfold Py.len. lia.
Qed.

Lemma cluster_sequences_one_length
    (UMIClusterer : umi_counts -> Z -> outcome umi_clusters)
    (Hone : forall counts threshold (n : nat),
              counts <> [] ->
              (forall u, u ∈ keys counts -> length u = n) ->
              exists clusters, UMIClusterer counts threshold = Returned clusters)
    (seq_list : list (list byte)) (mismatches : Z) (n : nat) :
  (forall u, u ∈ seq_list -> length u = n) ->
  exists clusters,
    cluster_sequences UMIClusterer seq_list mismatches = Returned clusters.
Proof.
  intros Hlen. unfold cluster_sequences.
  destruct seq_list as [|s l]; [by eexists|].
  replace (0 <? Z.of_nat (length (s :: l))) with true
    by (symmetry; apply Z.ltb_lt; simpl; lia).
  apply (Hone _ _ n).
  - intros Hnil.
    assert (Hk : s ∈ keys (count_sequences (s :: l))).
    { apply count_sequences_keys, elem_of_cons. by left. }
    rewrite Hnil in Hk. by apply elem_of_nil in Hk.
  - intros u Hu. by apply Hlen, count_sequences_keys.
Qed.

(** X19.  A file whose query names are long enough gets a summary.  When
    [umi_length] is at least 1 and the query name of every mapped
    record has at least [umi_length] characters, every UMI has
    [umi_length] bytes; so with a clusterer that returns whenever the
    UMIs it is given have one length, with clusters headed by one of
    them, [deduplicate] returns. *)
Theorem long_query_names_get_a_summary
    (UMIClusterer : umi_counts -> Z -> outcome umi_clusters)
    (Hheads : well_headed UMIClusterer)
    (Hone : forall counts threshold (n : nat),
              counts <> [] ->
              (forall u, u ∈ keys counts -> length u = n) ->
              exists clusters, UMIClusterer counts threshold = Returned clusters)
    (umi_length multimap_cutoff stub_length umi_mismatches : Z)
    (src_bam : list pysam.AlignedSegment)
    (Hlen : 1 <= umi_length)
    (Hnames : forall read,
                read ∈ get_mapped_segments src_bam ->
                umi_length <= Py.len (pysam.query_name read)) :
  (forall read,
     read ∈ get_mapped_segments src_bam ->
     length (umi (summarize umi_length multimap_cutoff stub_length read))
     = Z.to_nat umi_length) /\
  exists summary,
    deduplicate UMIClusterer umi_length multimap_cutoff stub_length
                umi_mismatches src_bam = Returned summary.
Proof.
  assert (Humi : forall read,
            read ∈ get_mapped_segments src_bam ->
            length (umi (summarize umi_length multimap_cutoff stub_length read))
            = Z.to_nat umi_length).
  { intros read Hread. simpl. rewrite get_umi_length by done.
    pose proof (Hnames read Hread) as Hn. unfold Py.len in Hn. lia. }
  split; [exact Humi|].
  apply deduplicate_returns; [done|].
  intros reads (_ & refname & pos & Hreads).
  apply (cluster_sequences_one_length UMIClusterer Hone _ _ (Z.to_nat umi_length)).
  intros u Hu. apply list_elem_of_fmap in Hu as (x & -> & Hx).
  destruct (index_init_spec umi_length multimap_cutoff stub_length src_bam)
    as (_ & Hb1 & _ & Hb2 & _).
  destruct Hreads as [->| ->].
  - rewrite Hb1 in Hx. apply list_elem_of_fmap in Hx as (rd & -> & Hrd).
    apply list_elem_of_filter in Hrd as [_ Hrd]. by apply Humi.
  - rewrite Hb2 in Hx. apply list_elem_of_fmap in Hx as (rd & -> & Hrd).
    apply list_elem_of_filter in Hrd as [_ Hrd]. by apply Humi.
Qed.

Lemma long_query_names_get_a_summary_witness :
  exists summary,
    deduplicate Directional.call 6 5 20 1 Sample.two_loci = Returned summary.
Proof.
  apply (long_query_names_get_a_summary Directional.call
           directional_well_headed).
  - intros counts threshold n Hne Hlen. eexists.
    by apply (directional_call_one_length counts threshold n).
  - lia.
  - intros read Hread.
    assert (E : get_mapped_segments Sample.two_loci = Sample.two_loci)
      by reflexivity.
    rewrite E in Hread. unfold Sample.two_loci in Hread.
    repeat (apply elem_of_cons in Hread as [->|Hread]; [by vm_compute|]).
    by apply elem_of_nil in Hread.
Defined.


(** * Properties of the utilities *)

(** ** Grouping libraries into pools *)

Section group_facts.
Implicit Types (samples : list (string * list utils.FastqLibrary.t))
               (library lib : utils.FastqLibrary.t) (s : string).

Lemma group_step_get samples library s :
  default [] (dict_get s (utils.group_step samples library)) =
  default [] (dict_get s samples) ++
  (if decide (utils.FastqLibrary.sample library = s) then [library] else []).
Proof.
  unfold utils.group_step, defaultdict_getitem.
  destruct (dict_get (utils.FastqLibrary.sample library) samples) as [reps|] eqn:Hget.
  - destruct (decide (utils.FastqLibrary.sample library = s)) as [<-|Hne].
    + by rewrite dict_get_set_eq, Hget.
    + rewrite dict_get_set_ne by done. by rewrite app_nil_r.
  - rewrite dict_set_set.
    destruct (decide (utils.FastqLibrary.sample library = s)) as [<-|Hne].
    + by rewrite dict_get_set_eq, Hget.
    + rewrite dict_get_set_ne by done. by rewrite app_nil_r.
Qed.

Lemma group_step_keys samples library s :
  s ∈ keys (utils.group_step samples library) <->
  s = utils.FastqLibrary.sample library \/ s ∈ keys samples.
Proof.
  unfold utils.group_step, defaultdict_getitem.
  destruct (dict_get _ samples); rewrite !keys_dict_set; tauto.
Qed.

Lemma group_step_NoDup samples library :
  NoDup (keys samples) -> NoDup (keys (utils.group_step samples library)).
Proof.
  unfold utils.group_step, defaultdict_getitem. intros Hnd.
  destruct (dict_get _ samples); by repeat apply keys_dict_set_NoDup.
Qed.

Lemma fold_group_get libraries :
  forall samples s,
    default [] (dict_get s (fold_left utils.group_step libraries samples)) =
    default [] (dict_get s samples) ++
    filter (fun lib => utils.FastqLibrary.sample lib = s) libraries.
Proof.
  induction libraries as [|lib l IH]; intros samples s; simpl.
  - by rewrite app_nil_r.
  - rewrite IH, group_step_get, filter_cons, <- app_assoc.
    by destruct (decide (utils.FastqLibrary.sample lib = s)).
Qed.

Lemma fold_group_keys libraries :
  forall samples s,
    s ∈ keys (fold_left utils.group_step libraries samples) <->
    s ∈ utils.FastqLibrary.sample <$> libraries \/ s ∈ keys samples.
Proof.
  induction libraries as [|lib l IH]; intros samples s; simpl.
  - rewrite elem_of_nil. tauto.
  - rewrite IH, group_step_keys, elem_of_cons. tauto.
Qed.

Lemma fold_group_NoDup libraries :
  forall samples,
    NoDup (keys samples) ->
    NoDup (keys (fold_left utils.group_step libraries samples)).
Proof.
  induction libraries as [|lib l IH]; intros samples Hnd; simpl; [done|].
  by apply IH, group_step_NoDup.
Qed.

End group_facts.

(** X16.  [group_libraries_by_sample] partitions the libraries: no two
    pools have the same sample, the replicates of a pool are the
    libraries of its sample in their order in the input, never none, and
    every library is a replicate of the pool of its sample.  The
    replicate names of a pool are what [get_replicates] returns for its
    sample. *)
Theorem pools_partition_the_libraries (libraries : list utils.FastqLibrary.t) :
  let pools := utils.group_libraries_by_sample libraries in
  NoDup (utils.PooledLibrary.sample <$> pools) /\
  (forall pool,
     pool ∈ pools ->
     utils.PooledLibrary.replicates pool =
       filter (fun lib => utils.FastqLibrary.sample lib =
                          utils.PooledLibrary.sample pool) libraries /\
     utils.PooledLibrary.replicates pool <> [] /\
     utils.FastqLibrary.replicate <$> utils.PooledLibrary.replicates pool =
       utils.get_replicates libraries (utils.PooledLibrary.sample pool)) /\
  (forall lib,
     lib ∈ libraries ->
     exists pool,
       pool ∈ pools /\
       utils.PooledLibrary.sample pool = utils.FastqLibrary.sample lib /\
       lib ∈ utils.PooledLibrary.replicates pool).
Proof.
  intros pools. subst pools. unfold utils.group_libraries_by_sample.
  set (samples := fold_left utils.group_step libraries []).
  assert (Hnd : NoDup (keys samples)).
  { apply fold_group_NoDup. apply NoDup_nil_2. }
  assert (Hentry : forall s reps,
            (s, reps) ∈ samples ->
            reps = filter (fun lib => utils.FastqLibrary.sample lib = s) libraries).
  { intros s reps Hin. pose proof (fold_group_get libraries [] s) as Hget.
    fold samples in Hget. by rewrite (dict_get_NoDup _ _ _ Hnd Hin) in Hget. }
  split; [|split].
  - rewrite <- list_fmap_compose. exact Hnd.
  - intros pool Hpool. apply list_elem_of_fmap in Hpool as ([s reps] & -> & Hin).
    simpl.
    assert (Hs : s ∈ utils.FastqLibrary.sample <$> libraries).
    { assert (Hk : s ∈ keys samples) by (apply list_elem_of_fmap; by exists (s, reps)).
      apply fold_group_keys in Hk as [?|Hk]; [done | by apply elem_of_nil in Hk]. }
    pose proof (Hentry s reps Hin) as ->.
    split; [done|]. split; [|done].
    apply list_elem_of_fmap in Hs as (lib & -> & Hlib).
    intros Hnil.
    assert (Hf : lib ∈ filter (fun l => utils.FastqLibrary.sample l =
                                        utils.FastqLibrary.sample lib) libraries)
      by by apply list_elem_of_filter.
    rewrite Hnil in Hf. by apply elem_of_nil in Hf.
  - intros lib Hlib.
    assert (Hk : utils.FastqLibrary.sample lib ∈ keys samples).
    { apply fold_group_keys. left. by apply list_elem_of_fmap_2. }
    destruct (dict_get_is_Some _ _ Hk) as [reps Hget].
    apply dict_get_elem in Hget.
    exists {| utils.PooledLibrary.sample := utils.FastqLibrary.sample lib;
              utils.PooledLibrary.replicates := reps |}.
    split; [|split; [done|]].
    + apply list_elem_of_fmap. by exists (utils.FastqLibrary.sample lib, reps).
    + simpl. rewrite (Hentry _ _ Hget). by apply list_elem_of_filter.
Qed.

(** ** The size of a genome *)

Section genome_facts.

Lemma length_upper s : String.length (utils.upper s) = String.length s.
Proof. induction s as [|c s IH]; simpl; [done | by rewrite IH]. Qed.

(** A character becomes [N] in upper case when it is [N] or [n]. *)
Lemma to_upper_N (c : ascii) :
  utils.to_upper c = "N"%char <-> c = "N"%char \/ c = "n"%char.
Proof.
  destruct c as [[] [] [] [] [] [] [] []]; vm_compute;
    split; try tauto; try (intros [?|?]; discriminate); try discriminate.
Qed.

Lemma count_N_upper s :
  utils.count_char "N" (utils.upper s) =
  utils.count_char "N" s + utils.count_char "n" s.
Proof.
  induction s as [|c s IH]; simpl; [done|]. rewrite IH.
  destruct (decide (utils.to_upper c = "N"%char)) as [Hup|Hup].
  - apply to_upper_N in Hup. destruct Hup as [Hc|Hc]; rewrite Hc; simpl; lia.
  - destruct (decide (c = "N"%char)) as [H1|H1];
      [exfalso; apply Hup, to_upper_N; by left|].
    destruct (decide (c = "n"%char)) as [H2|H2];
      [exfalso; apply Hup, to_upper_N; by right|].
    lia.
Qed.

Lemma count_N_n_le_length s :
  0 <= utils.count_char "N" s /\ 0 <= utils.count_char "n" s /\
  utils.count_char "N" s + utils.count_char "n" s <= Z.of_nat (String.length s).
Proof.
  induction s as [|c s IH]; simpl; [lia|].
  destruct (decide (c = "N"%char)) as [H1|H1];
    destruct (decide (c = "n"%char)) as [H2|H2];
    try (rewrite H1 in H2; discriminate); lia.
Qed.

Lemma fold_genome_step lines n :
  fold_left utils.genome_step lines n =
  n + fold_left utils.genome_step lines 0.
Proof.
  revert n. induction lines as [|line lines IH]; intros n; simpl; [lia|].
  rewrite IH, (IH (utils.genome_step 0 line)).
  unfold utils.genome_step. destruct (negb _); lia.
Qed.

End genome_facts.

(** X17.  [compute_genome_size] skips every line that starts with [>]
    and counts, on every other line, the characters left after trailing
    whitespace is stripped that are neither [N] nor [n].  The size of a
    file is the sum of the sizes of its parts, and it is never
    negative. *)
Theorem genome_size_counts_what_is_not_N :
  (forall part1 part2,
     utils.compute_genome_size (part1 ++ part2) =
     utils.compute_genome_size part1 + utils.compute_genome_size part2) /\
  (forall line,
     utils.startswith ">" line = true -> utils.compute_genome_size [line] = 0) /\
  (forall line,
     utils.startswith ">" line = false ->
     utils.compute_genome_size [line] =
     Z.of_nat (String.length (utils.rstrip line))
     - utils.count_char "N" (utils.rstrip line)
     - utils.count_char "n" (utils.rstrip line)) /\
  (forall fasta, 0 <= utils.compute_genome_size fasta).
Proof.
  assert (Hline : forall line,
             0 <= utils.genome_step 0 line /\
             (utils.startswith ">" line = false ->
              utils.genome_step 0 line =
              Z.of_nat (String.length (utils.rstrip line))
              - utils.count_char "N" (utils.rstrip line)
              - utils.count_char "n" (utils.rstrip line))).
  { intros line. unfold utils.genome_step.
    destruct (utils.startswith ">" line); simpl; [split; [lia | done]|].
    rewrite length_upper, count_N_upper.
    pose proof (count_N_n_le_length (utils.rstrip line)). split; [lia|]. intros _. lia. }
  split; [|split; [|split]].
  - intros part1 part2. unfold utils.compute_genome_size.
    by rewrite fold_left_app, fold_genome_step.
  - intros line Hgt. unfold utils.compute_genome_size, utils.genome_step. simpl.
    by rewrite Hgt.
  - intros line Hgt. unfold utils.compute_genome_size. simpl. by apply Hline.
  - intros fasta. unfold utils.compute_genome_size.
    induction fasta as [|line fasta IH]; simpl; [lia|].
    rewrite fold_genome_step. pose proof (Hline line) as [? _]. lia.
Qed.

Lemma genome_size_counts_what_is_not_N_witness :
  utils.compute_genome_size [" ACnN-t  "%string] = 5.
Proof.
  destruct genome_size_counts_what_is_not_N as (_ & _ & Hline & _).
  rewrite Hline; reflexivity.
Defined.

(** ** Reading a table *)

Section text_facts.
Implicit Types (s t : string) (c sep : ascii).

Lemma lstrip_idem s : utils.lstrip (utils.lstrip s) = utils.lstrip s.
Proof.
  induction s as [|c s IH]; simpl; [done|].
  destruct (utils.isspace c) eqn:Hc; [done|]. simpl. by rewrite Hc.
Qed.

Lemma lstrip_head s c t : utils.lstrip s = String c t -> utils.isspace c = false.
Proof.
  induction s as [|c' s IH]; simpl; [done|].
  destruct (utils.isspace c') eqn:Hc; [done|]. by intros [= <- _].
Qed.

Lemma rstrip_idem s : utils.rstrip (utils.rstrip s) = utils.rstrip s.
Proof.
  induction s as [|c s IH]; simpl; [done|].
  destruct (utils.rstrip s) as [|c' r] eqn:Hr.
  - destruct (utils.isspace c) eqn:Hc; simpl; [done|]. by rewrite Hc.
  - change (utils.rstrip (String c (String c' r)))
      with (match utils.rstrip (String c' r) with
            | EmptyString =>
                if utils.isspace c then EmptyString else String c EmptyString
            | String c'' r' => String c (String c'' r')
            end).
    by rewrite IH.
Qed.

(** What is left of a string without trailing whitespace when its first
    character goes has no trailing whitespace either. *)
Lemma rstrip_tail c t :
  utils.rstrip (String c t) = String c t -> utils.rstrip t = t.
Proof.
  simpl. destruct (utils.rstrip t) as [|c' r] eqn:Hr.
  - destruct (utils.isspace c); [done|]. by intros [= <-].
  - by intros [= <-].
Qed.

Lemma lstrip_rstripped s :
  utils.rstrip s = s -> utils.rstrip (utils.lstrip s) = utils.lstrip s.
Proof.
  induction s as [|c s IH]; [done|]. intros Hs.
  cbn [utils.lstrip]. destruct (utils.isspace c); [|done].
  apply IH. by apply rstrip_tail in Hs.
Qed.

Lemma strip_idem s : utils.strip (utils.strip s) = utils.strip s.
Proof.
  unfold utils.strip.
  rewrite (lstrip_rstripped (utils.rstrip s)) by apply rstrip_idem.
  apply lstrip_idem.
Qed.

Lemma split_nonempty sep s : utils.split sep s <> [].
Proof.
  destruct s as [|c s]; simpl; [done|].
  destruct (decide (c = sep)); [done|]. by destruct (utils.split sep s).
Qed.

Lemma join_cons_cons sep (a b : string) (l : list string) :
  utils.join sep (a :: b :: l) = (a +:+ String sep (utils.join sep (b :: l)))%string.
Proof. reflexivity. Qed.

Lemma split_join sep s : utils.join sep (utils.split sep s) = s.
Proof.
  induction s as [|c s IH]; [done|]. cbn [utils.split].
  pose proof (split_nonempty sep s) as Hne.
  destruct (utils.split sep s) as [|f fs]; [done|].
  destruct (decide (c = sep)) as [->|Hc].
  - by rewrite join_cons_cons, IH.
  - destruct fs as [|g gs].
    + simpl in *. by rewrite IH.
    + rewrite join_cons_cons in *. by rewrite app_String, IH.
Qed.

Lemma split_length sep s :
  Z.of_nat (length (utils.split sep s)) = 1 + utils.count_char sep s.
Proof.
  induction s as [|c s IH]; [done|]. cbn [utils.split utils.count_char].
  pose proof (split_nonempty sep s) as Hne.
  destruct (decide (c = sep)) as [->|Hc].
  - cbn [length]. lia.
  - destruct (utils.split sep s) as [|f fs]; [done|]. simpl in *. lia.
Qed.

Lemma split_no_sep sep s f :
  f ∈ utils.split sep s -> utils.count_char sep f = 0.
Proof.
  revert f. induction s as [|c s IH]; intros f; cbn [utils.split].
  - intros Hf. by apply list_elem_of_singleton in Hf as ->.
  - pose proof (split_nonempty sep s) as Hne.
    destruct (decide (c = sep)) as [->|Hc].
    + intros [->|Hf]%elem_of_cons; [done | by apply IH].
    + destruct (utils.split sep s) as [|g gs]; [done|].
      intros [->|Hf]%elem_of_cons.
      * simpl. rewrite decide_False by done.
        rewrite (IH g); [done | apply elem_of_cons; by left].
      * apply IH, elem_of_cons. by right.
Qed.

Lemma split_first sep c t :
  c <> sep -> exists f fs, utils.split sep (String c t) = String c f :: fs.
Proof.
  intros Hc. cbn [utils.split]. rewrite decide_False by done.
  pose proof (split_nonempty sep t) as Hne.
  destruct (utils.split sep t) as [|f fs]; [done|]. by exists f, fs.
Qed.

Lemma tab_isspace : utils.isspace utils.tab = true.
Proof. reflexivity. Qed.

End text_facts.

(** The rows one by one, and the line an error comes from. *)
Lemma read_tsv_rows (lines : list string) (columns : Z) :
  let rows := (utils.read_tsv lines columns).1 in
  let error := (utils.read_tsv lines columns).2 in
  (forall row,
     row ∈ rows ->
     Z.of_nat (length row) = columns /\
     (forall f, f ∈ row -> utils.count_char utils.tab f = 0) /\
     (exists f fs, row = f :: fs /\ f <> EmptyString) /\
     exists line,
       line ∈ lines /\
       utils.startswith "#" (utils.strip line) = false /\
       utils.strip line <> EmptyString /\
       utils.join utils.tab row = utils.strip line) /\
  (error = None ->
   rows = utils.split utils.tab <$>
            filter (fun line => utils.startswith "#" line = false /\
                                line <> EmptyString)
                   (utils.strip <$> lines)) /\
  (forall c n,
     error = Some (utils.Expected_fields c n) ->
     c = columns /\ n <> columns /\
     exists line,
       line ∈ lines /\
       utils.startswith "#" (utils.strip line) = false /\
       utils.strip line <> EmptyString /\
       n = 1 + utils.count_char utils.tab (utils.strip line)) /\
  (columns <= 0 -> rows = []).
Proof.
  induction lines as [|line0 lines (IHrows & IHnone & IHerr & IHzero)].
  - simpl. split; [|split; [|split]]; try done.
    intros row Hrow. by apply elem_of_nil in Hrow.
  - cbn [utils.read_tsv]. rewrite strip_idem.
    set (line := utils.strip line0).
    destruct (utils.startswith "#" line) eqn:Hhash.
    { (* a comment *)
      cbn [orb fst snd]. split; [|split; [|split]].
      - intros row Hrow. destruct (IHrows row Hrow) as (? & ? & ? & l & Hl & ?).
        repeat split; try done. exists l. split; [apply elem_of_cons; by right | done].
      - intros Hnone. rewrite fmap_cons, filter_cons, decide_False.
        + by apply IHnone.
        + fold line. rewrite Hhash. by intros [? _].
      - intros c n Herr. destruct (IHerr c n Herr) as (? & ? & l & Hl & ?).
        repeat split; try done. exists l. split; [apply elem_of_cons; by right | done].
      - done. }
    destruct (decide (line = EmptyString)) as [Hempty|Hdata].
    { (* a blank line *)
      rewrite (bool_decide_eq_true_2 _ Hempty). cbn [orb fst snd]. split; [|split; [|split]].
      - intros row Hrow. destruct (IHrows row Hrow) as (? & ? & ? & l & Hl & ?).
        repeat split; try done. exists l. split; [apply elem_of_cons; by right | done].
      - intros Hnone. rewrite fmap_cons, filter_cons, decide_False.
        + by apply IHnone.
        + fold line. by intros [_ ?].
      - intros c n Herr. destruct (IHerr c n Herr) as (? & ? & l & Hl & ?).
        repeat split; try done. exists l. split; [apply elem_of_cons; by right | done].
      - done. }
    rewrite (bool_decide_eq_false_2 _ Hdata). cbn [orb fst snd].
    destruct (decide (Z.of_nat (length (utils.split utils.tab line)) <> columns))
      as [Hbad|Hgood].
    { (* the wrong number of fields *)
      rewrite (bool_decide_eq_true_2 _ Hbad). cbn [orb fst snd]. split; [|split; [|split]].
      - intros row Hrow. by apply elem_of_nil in Hrow.
      - done.
      - intros c n [= <- <-]. split; [done|]. split; [done|].
        exists line0. split; [apply elem_of_cons; by left|].
        fold line. split; [done|]. split; [done|]. apply split_length.
      - done. }
    rewrite (bool_decide_eq_false_2 _ Hgood).
    assert (Hlen : Z.of_nat (length (utils.split utils.tab line)) = columns).
    { destruct (decide (Z.of_nat (length (utils.split utils.tab line)) = columns));
        [done | by exfalso; apply Hgood]. }
    destruct (utils.read_tsv lines columns) as [rows err]. cbn [fst snd] in *.
    split; [|split; [|split]].
    + intros row [->|Hrow]%elem_of_cons.
      * split; [done|]. split; [intros f; apply split_no_sep|]. split.
        -- destruct line as [|c t] eqn:Hline; [done|].
           assert (Hc : utils.isspace c = false).
           { apply (lstrip_head (utils.rstrip line0) c t). exact Hline. }
           destruct (split_first utils.tab c t) as (f & fs & ->).
           { intros ->. by rewrite tab_isspace in Hc. }
           by exists (String c f), fs.
        -- exists line0. split; [apply elem_of_cons; by left|].
           fold line. split; [done|]. split; [done|]. apply split_join.
      * destruct (IHrows row Hrow) as (? & ? & ? & l & Hl & ?).
        repeat split; try done. exists l. split; [apply elem_of_cons; by right | done].
    + intros Hnone. rewrite fmap_cons, filter_cons, decide_True by (fold line; done).
      rewrite fmap_cons. fold line. by rewrite <- IHnone.
    + intros c n Herr. destruct (IHerr c n Herr) as (? & ? & l & Hl & ?).
      repeat split; try done. exists l. split; [apply elem_of_cons; by right | done].
    + intros Hzero. exfalso.
      pose proof (split_length utils.tab line) as Hsl.
      assert (0 <= utils.count_char utils.tab line).
      { clear. induction line as [|c t IH]; simpl; [lia|].
        destruct (decide (c = utils.tab)); lia. }
      lia.
Qed.

(** The rows are those of the data lines up to the first one with
    another number of fields, which is the one the error reports. *)
Lemma read_tsv_first_bad_line (lines : list string) (columns : Z) :
  let data :=
    filter (fun line => utils.startswith "#" line = false /\ line <> EmptyString)
           (utils.strip <$> lines) in
  let fits (line : string) :=
    Z.of_nat (length (utils.split utils.tab line)) = columns in
  match (utils.read_tsv lines columns).2 with
  | None =>
      Forall fits data /\
      (utils.read_tsv lines columns).1 = utils.split utils.tab <$> data
  | Some err =>
      exists before bad after,
        data = before ++ bad :: after /\
        Forall fits before /\
        ~ fits bad /\
        err = utils.Expected_fields
                columns (Z.of_nat (length (utils.split utils.tab bad))) /\
        (utils.read_tsv lines columns).1 = utils.split utils.tab <$> before
  end.
Proof.
  intros data fits. subst data.
  induction lines as [|line0 lines IH]; [by split|].
  cbn [utils.read_tsv]. rewrite strip_idem, fmap_cons, filter_cons.
  set (line := utils.strip line0).
  set (data := filter (fun line => utils.startswith "#" line = false /\
                                   line <> EmptyString)
                      (utils.strip <$> lines)) in *.
  clearbody data.
  destruct (decide (utils.startswith "#" line = false /\ line <> EmptyString))
    as [[Hhash Hdata]|Hskip].
  2: { replace (utils.startswith "#" line || bool_decide (line = EmptyString))
         with true; [done|].
       symmetry. destruct (utils.startswith "#" line); [done|].
       apply bool_decide_eq_true_2.
       destruct (decide (line = EmptyString)); [done|]. exfalso. by apply Hskip. }
  rewrite Hhash, (bool_decide_eq_false_2 _ Hdata). cbn [orb].
  destruct (decide (Z.of_nat (length (utils.split utils.tab line)) <> columns))
    as [Hbad|Hgood].
  { rewrite (bool_decide_eq_true_2 _ Hbad). cbn [fst snd].
    by exists [], line, data. }
  rewrite (bool_decide_eq_false_2 _ Hgood).
  assert (Hfits : fits line).
  { unfold fits.
    destruct (decide (Z.of_nat (length (utils.split utils.tab line)) = columns));
      [done | by exfalso; apply Hgood]. }
  destruct (utils.read_tsv lines columns) as [rows [err|]]; cbn [fst snd] in *.
  - destruct IH as (before & bad & after & Hdata' & Hbefore & Hnot & Herr & Hrows).
    exists (line :: before), bad, after. rewrite Hdata', Hrows.
    split; [done|]. split; [by constructor|]. by repeat split.
  - destruct IH as [Hall Hrows]. rewrite Hrows. split; [by constructor | done].
Qed.

(** X18.  What [read_tsv] yields.  Every row has exactly [columns]
    fields, none of which contains a tab, and the first of which is not
    empty; joined by tabs, the row is a line of the file with the
    whitespace at both ends stripped, which is not empty and does not
    start with [#].  The data lines are the stripped lines that are
    neither empty nor comments.  The generator ends without an error
    exactly when every data line has [columns] fields, and then the rows
    are the data lines, in order.  Otherwise it ends with a
    [ParseError] at the first data line with another number of fields:
    the rows are exactly those of the data lines before that line, and
    the error reports its number of fields.  With [columns] at most
    zero it yields nothing. *)
Theorem read_tsv_rows_are_well_formed (lines : list string) (columns : Z) :
  let rows := (utils.read_tsv lines columns).1 in
  let error := (utils.read_tsv lines columns).2 in
  let data :=
    filter (fun line => utils.startswith "#" line = false /\ line <> EmptyString)
           (utils.strip <$> lines) in
  let fits (line : string) :=
    Z.of_nat (length (utils.split utils.tab line)) = columns in
  (forall row,
     row ∈ rows ->
     Z.of_nat (length row) = columns /\
     (forall f, f ∈ row -> utils.count_char utils.tab f = 0) /\
     (exists f fs, row = f :: fs /\ f <> EmptyString) /\
     exists line,
       line ∈ lines /\
       utils.startswith "#" (utils.strip line) = false /\
       utils.strip line <> EmptyString /\
       utils.join utils.tab row = utils.strip line) /\
  (error = None <-> Forall fits data) /\
  (error = None -> rows = utils.split utils.tab <$> data) /\
  (forall c n,
     error = Some (utils.Expected_fields c n) ->
     c = columns /\ n <> columns /\
     exists before bad after,
       data = before ++ bad :: after /\
       Forall fits before /\
       rows = utils.split utils.tab <$> before /\
       n = Z.of_nat (length (utils.split utils.tab bad)) /\
       n = 1 + utils.count_char utils.tab bad /\
       exists line,
         line ∈ lines /\ utils.strip line = bad /\
         utils.startswith "#" bad = false /\ bad <> EmptyString) /\
  (columns <= 0 -> rows = []).
Proof.
  intros rows error data fits.
  destruct (read_tsv_rows lines columns) as (Hrows & _ & _ & Hzero).
  pose proof (read_tsv_first_bad_line lines columns) as Hfirst.
  cbn zeta in Hfirst. fold data fits rows error in Hfirst.
  fold rows in Hrows, Hzero.
  split; [exact Hrows|]. split; [|split; [|split; [|exact Hzero]]].
  - destruct error as [err|].
    + destruct Hfirst as (before & bad & after & Hdata & _ & Hnot & _).
      split; [done|]. intros Hall. exfalso. apply Hnot.
      rewrite Hdata in Hall. apply Forall_app in Hall as [_ Hall].
      by apply Forall_cons in Hall as [? _].
    + by destruct Hfirst.
  - intros Hnone. rewrite Hnone in Hfirst. by destruct Hfirst.
  - intros c n Herr. rewrite Herr in Hfirst.
    destruct Hfirst as (before & bad & after & Hdata & Hbefore & Hnot & [= -> ->] & Hr).
    split; [done|]. split; [exact Hnot|].
    exists before, bad, after. split; [done|]. split; [done|]. split; [done|].
    split; [done|]. split; [apply split_length|].
    assert (Hin : bad ∈ data).
    { rewrite Hdata. apply elem_of_app. right. apply elem_of_cons. by left. }
    apply list_elem_of_filter in Hin as [[Hhash Hne] Hin].
    apply list_elem_of_fmap in Hin as (line & -> & Hline).
    by exists line.
Qed.
